(** * ESP32 school-bell web client: token lifecycle and request layer

    A shallow embedding of the authentication core of the client
    (TokenManager, apiConfig, HttpClient, HttpRequestAgent, AuthService,
    ErrorHandlingService, formValidation, authUtils, AuthSlice, the auth
    middleware and the thunks, the login form, AuthGuard and the mode
    slice), followed by the properties established about it.

    Conventions of the embedding.
    - A JavaScript string is a [string]; each [ascii] stands for one code
      unit.  Code units above 0xFF do not occur in the model: a JSON escape
      [\uXXXX] above 0xFF is kept by its low byte, which changes neither
      whether a text parses nor whether a string is empty.
    - A JavaScript number is an exact rational ([Q]); the rounding and the
      overflow of IEEE doubles are not modelled.  NaN and the infinities
      appear only where a coercion produces them ([ToNumber]).  The model
      and the code agree on the times that [Date.now()] returns and
      [storeToken] writes (whole numbers of milliseconds from the epoch,
      up to 8 640 000 000 000 000) and on their differences.
    - A plain object used as a table is a finite map of its own
      properties; where the code reads or assigns a name chosen by the
      caller, the members of [Object.prototype] are taken into account
      ([VALIDATION_RULES], [createFormState]).
    - [localStorage], the listener of [window], the Redux state, the
      console, the calls of [fetch] and the clock read by [Date.now()] are
      fields of an explicit world that every operation threads through.
      The outcome of an awaited [fetch] is an argument of the operation
      that awaits it, and sets the clock to its time of arrival.
    - The wording of the SyntaxError of [JSON.parse] belongs to the
      engine: it is a field of the world, a function of the rejected
      text.
    - Console output is kept only for the diagnostic of the body parser. *)

From Stdlib Require Import ZArith QArith String Ascii List Bool Lia.
From Stdlib Require Import DecimalString DecimalFacts DecimalPos DecimalZ.
From stdpp Require Import base option gmap strings.

Local Open Scope Z_scope.
Set Warnings "-register-all".

(** ** Strings as the runtime sees them *)

Module JsString.

Definition DQ : ascii := "034"%char.

Definition code (c : ascii) : nat := nat_of_ascii c.

(** [s.length] *)
Definition len (s : string) : nat := String.length s.

(** [s.startsWith(p)] *)
Fixpoint startsWith (s p : string) : bool :=
  match p, s with
  | EmptyString, _ => true
  | String _ _, EmptyString => false
  | String b p', String a s' => if Ascii.eqb a b then startsWith s' p' else false
  end.

(** [s.includes(p)] *)
Fixpoint includes (s p : string) : bool :=
  startsWith s p ||
  match s with
  | EmptyString => false
  | String _ s' => includes s' p
  end.

(** [s.substring(0, n)] *)
Fixpoint substring0 (n : nat) (s : string) : string :=
  match n, s with
  | S n', String c s' => String c (substring0 n' s')
  | _, _ => EmptyString
  end.

(** White space and line terminators removed by [trim] (those below 0x100). *)
Definition is_space (c : ascii) : bool :=
  match code c with
  | 9 | 10 | 11 | 12 | 13 | 32 | 160 => true
  | _ => false
  end%nat.

Fixpoint trimStart (s : string) : string :=
  match s with
  | String c s' => if is_space c then trimStart s' else s
  | EmptyString => EmptyString
  end.

Fixpoint trimEnd (s : string) : string :=
  match s with
  | String c s' =>
      match trimEnd s' with
      | EmptyString => if is_space c then EmptyString else String c EmptyString
      | t => String c t
      end
  | EmptyString => EmptyString
  end.

(** [s.trim()] *)
Definition trim (s : string) : string := trimEnd (trimStart s).

Definition is_empty (s : string) : bool :=
  match s with EmptyString => true | _ => false end.

(** Literals of the source that contain a double quote are written with
    a single quote and converted here. *)
Fixpoint dq (s : string) : string :=
  match s with
  | String c s' => String (if Ascii.eqb c "'" then DQ else c) (dq s')
  | EmptyString => EmptyString
  end.

Definition hex_digit (n : nat) : ascii :=
  match n with
  | 0 => "0" | 1 => "1" | 2 => "2" | 3 => "3" | 4 => "4" | 5 => "5"
  | 6 => "6" | 7 => "7" | 8 => "8" | 9 => "9" | 10 => "a" | 11 => "b"
  | 12 => "c" | 13 => "d" | 14 => "e" | _ => "f"
  end%nat%char.

(** [\u] followed by [code.toString(16).padStart(4, '0')], for a code
    unit below 0x100. *)
Definition u_escape (c : ascii) : string :=
  String "\" (String "u" (String "0" (String "0"
    (String (hex_digit (code c / 16)) (String (hex_digit (code c mod 16)) EmptyString))))).

Definition is_control (c : ascii) : bool := (code c <? 32)%nat.

End JsString.

(** ** JavaScript values and JSON *)

Module Js.
Import JsString.

Inductive JSValue : Type :=
| JUndefined
| JNull
| JBool (b : bool)
| JNum (q : Q)
| JStr (s : string)
| JObj (fields : list (string * JSValue))
| JArr (items : list JSValue).

(** [!!v] *)
Definition truthy (v : JSValue) : bool :=
  match v with
  | JUndefined | JNull => false
  | JBool b => b
  | JNum q => negb (Qeq_bool q 0)
  | JStr s => negb (is_empty s)
  | JObj _ | JArr _ => true
  end.

(** [typeof v === 'object'] *)
Definition typeof_object (v : JSValue) : bool :=
  match v with
  | JNull | JObj _ | JArr _ => true
  | _ => false
  end.

(** [typeof v === 'string'] *)
Definition typeof_string (v : JSValue) : bool :=
  match v with
  | JStr _ => true
  | _ => false
  end.

(** Own property of an object built from JSON text or from a literal: of
    several members with one key the last one counts. *)
Fixpoint lookup_field (fields : list (string * JSValue)) (k : string) : option JSValue :=
  match fields with
  | [] => None
  | (k', v) :: rest =>
      match lookup_field rest k with
      | Some v' => Some v'
      | None => if String.eqb k' k then Some v else None
      end
  end.

(** The property names that every object inherits from
    [Object.prototype]. *)
Definition Object_prototype : list string :=
  ["constructor"; "hasOwnProperty"; "isPrototypeOf"; "propertyIsEnumerable";
   "toLocaleString"; "toString"; "valueOf"; "__proto__";
   "__defineGetter__"; "__defineSetter__"; "__lookupGetter__"; "__lookupSetter__"]%string.

Definition inherited (k : string) : bool := existsb (String.eqb k) Object_prototype.

(** [v.k] for a property name [k] that no prototype defines ([token],
    [timestamp], [message], [user], [username], [password]).  Reading a
    property of [null] or [undefined] throws a TypeError: [None]. *)
Definition get (v : JSValue) (k : string) : option JSValue :=
  match v with
  | JUndefined | JNull => None
  | JObj fields => Some (default JUndefined (lookup_field fields k))
  | _ => Some JUndefined
  end.

End Js.

Module JSON.
Import JsString Js.

(** [JSON.stringify] of a string: QuoteJSONString. *)
Definition quote_char (c : ascii) : string :=
  if Ascii.eqb c DQ then String "\" (String DQ EmptyString)
  else if Ascii.eqb c "\" then String "\" (String "\" EmptyString)
  else match code c with
       | 8 => String "\" (String "b" EmptyString)
       | 9 => String "\" (String "t" EmptyString)
       | 10 => String "\" (String "n" EmptyString)
       | 12 => String "\" (String "f" EmptyString)
       | 13 => String "\" (String "r" EmptyString)
       | _ => if is_control c then u_escape c else String c EmptyString
       end%nat.

Fixpoint quote_chars (s : string) : string :=
  match s with
  | EmptyString => EmptyString
  | String c s' => append (quote_char c) (quote_chars s')
  end.

Definition quote (s : string) : string :=
  String DQ (append (quote_chars s) (String DQ EmptyString)).

(** [JSON.stringify] of an integer number (decimal digits, a leading
    minus sign for a negative one). *)
Definition stringify_int (z : Z) : string :=
  NilZero.string_of_int (Z.to_int z).

(** *** [JSON.parse] *)

Definition is_ws (c : ascii) : bool :=
  match code c with
  | 9 | 10 | 13 | 32 => true
  | _ => false
  end%nat.

Fixpoint skip_ws (s : string) : string :=
  match s with
  | String c s' => if is_ws c then skip_ws s' else s
  | EmptyString => EmptyString
  end.

Definition hex_value (c : ascii) : option nat :=
  let n := code c in
  if (48 <=? n)%nat && (n <=? 57)%nat then Some (n - 48)%nat
  else if (97 <=? n)%nat && (n <=? 102)%nat then Some (n - 87)%nat
  else if (65 <=? n)%nat && (n <=? 70)%nat then Some (n - 55)%nat
  else None.

(** The code unit of [\u h1 h2 h3 h4], by its low byte. *)
Definition hex4 (h1 h2 h3 h4 : ascii) : option ascii :=
  match hex_value h1, hex_value h2, hex_value h3, hex_value h4 with
  | Some _, Some _, Some c, Some d => Some (ascii_of_nat (c * 16 + d))
  | _, _, _, _ => None
  end.

Definition cons_char (c : ascii) (r : option (string * string)) : option (string * string) :=
  match r with
  | Some (v, rest) => Some (String c v, rest)
  | None => None
  end.

(** The characters of a string literal after its opening quote, up to
    and including the closing quote. *)
Fixpoint parse_chars (s : string) : option (string * string) :=
  match s with
  | EmptyString => None
  | String c r =>
      if Ascii.eqb c DQ then Some (EmptyString, r)
      else if Ascii.eqb c "\" then
        match r with
        | String e r1 =>
            if Ascii.eqb e DQ then cons_char DQ (parse_chars r1)
            else if Ascii.eqb e "\" then cons_char "\" (parse_chars r1)
            else if Ascii.eqb e "/" then cons_char "/" (parse_chars r1)
            else if Ascii.eqb e "b" then cons_char "008" (parse_chars r1)
            else if Ascii.eqb e "f" then cons_char "012" (parse_chars r1)
            else if Ascii.eqb e "n" then cons_char "010" (parse_chars r1)
            else if Ascii.eqb e "r" then cons_char "013" (parse_chars r1)
            else if Ascii.eqb e "t" then cons_char "009" (parse_chars r1)
            else if Ascii.eqb e "u" then
              match r1 with
              | String h1 (String h2 (String h3 (String h4 r2))) =>
                  match hex4 h1 h2 h3 h4 with
                  | Some u => cons_char u (parse_chars r2)
                  | None => None
                  end
              | _ => None
              end
            else None
        | EmptyString => None
        end
      else if is_control c then None
      else cons_char c (parse_chars r)
  end.

Definition digit_of (c : ascii) : option (Decimal.uint -> Decimal.uint) :=
  match c with
  | "0" => Some Decimal.D0 | "1" => Some Decimal.D1 | "2" => Some Decimal.D2
  | "3" => Some Decimal.D3 | "4" => Some Decimal.D4 | "5" => Some Decimal.D5
  | "6" => Some Decimal.D6 | "7" => Some Decimal.D7 | "8" => Some Decimal.D8
  | "9" => Some Decimal.D9 | _ => None
  end%char.

(** The longest run of decimal digits at the head of [s]. *)
Fixpoint take_digits (s : string) : Decimal.uint * string :=
  match s with
  | String c s' =>
      match digit_of c with
      | Some d => let (u, rest) := take_digits s' in (d u, rest)
      | None => (Decimal.Nil, s)
      end
  | EmptyString => (Decimal.Nil, EmptyString)
  end.

Definition is_nil (u : Decimal.uint) : bool :=
  match u with Decimal.Nil => true | _ => false end.

(** [m * 10 ^ k] *)
Definition scale10 (m k : Z) : Q :=
  match k with
  | Z0 => inject_Z m
  | Zpos p => inject_Z (m * 10 ^ Zpos p)
  | Zneg p => Qmake m (10 ^ p)%positive
  end.

(** The rest of [s] after its first character, when that is [c]. *)
Definition after (c : ascii) (s : string) : option string :=
match s with
| String c' r => if Ascii.eqb c' c then Some r else None
| EmptyString => None
end.

Fixpoint drop (n : nat) (s : string) : string :=
match n, s with
| S n', String _ s' => drop n' s'
| _, _ => s
end.

(** Integer part: [0], or a run of digits that does not begin with [0]. *)
Definition parse_int_part (s : string) : option (Decimal.uint * string) :=
match after "0" s with
| Some r => Some (Decimal.D0 Decimal.Nil, r)
| None => let (u, rest) := take_digits s in
          if is_nil u then None else Some (u, rest)
end.

Definition parse_frac_part (s : string) : option (Decimal.uint * string) :=
match after "." s with
| Some r => let (u, rest) := take_digits r in
            if is_nil u then None else Some (u, rest)
| None => Some (Decimal.Nil, s)
end.

Definition parse_exp_digits (neg : bool) (s : string) : option (Z * string) :=
let (u, rest) := take_digits s in
if is_nil u then None
else Some (if neg then - Z.of_uint u else Z.of_uint u, rest).

Definition parse_exp_part (s : string) : option (Z * string) :=
match s with
| String c r =>
    if Ascii.eqb c "e" || Ascii.eqb c "E" then
      match after "-" r with
      | Some r' => parse_exp_digits true r'
      | None =>
          match after "+" r with
          | Some r' => parse_exp_digits false r'
          | None => parse_exp_digits false r
          end
      end
    else Some (0, s)
| EmptyString => Some (0, s)
end.

Definition parse_unsigned (s : string) : option (Q * string) :=
match parse_int_part s with
| Some (ip, r1) =>
    match parse_frac_part r1 with
    | Some (fp, r2) =>
        match parse_exp_part r2 with
        | Some (e, r3) =>
            Some (scale10 (Z.of_uint (Decimal.app ip fp))
                          (e - Z.of_nat (Decimal.nb_digits fp)), r3)
        | None => None
        end
    | None => None
    end
| None => None
end.

Definition parse_number (s : string) : option (Q * string) :=
match after "-" s with
| Some r =>
    match parse_unsigned r with
    | Some (q, rest) => Some (Qopp q, rest)
    | None => None
    end
| None => parse_unsigned s
end.

Definition as_num (r : option (Q * string)) : option (JSValue * string) :=
match r with
| Some (q, r') => Some (JNum q, r')
| None => None
end.

Definition parse_literal (s : string) : option (JSValue * string) :=
if startsWith s "true" then Some (JBool true, drop 4 s)
else if startsWith s "false" then Some (JBool false, drop 5 s)
else if startsWith s "null" then Some (JNull, drop 4 s)
else as_num (parse_number s).

(** A value, the members of an object after its opening brace and the
    elements of an array after its opening bracket.  A call on a text
    spends at most two units of fuel for each character before it
    recurses, so fuel above twice the length of the text is never
    exhausted ([parse_fuel_adequate]). *)
Fixpoint parse_value (fuel : nat) (s : string) : option (JSValue * string) :=
match fuel with
| O => None
| S f =>
    match skip_ws s with
    | String c r =>
        if Ascii.eqb c "{" then
          match after "}" (skip_ws r) with
          | Some r' => Some (JObj [], r')
          | None => match parse_members f r with
                    | Some (fs, r') => Some (JObj fs, r')
                    | None => None
                    end
          end
        else if Ascii.eqb c "[" then
          match after "]" (skip_ws r) with
          | Some r' => Some (JArr [], r')
          | None => match parse_elements f r with
                    | Some (vs, r') => Some (JArr vs, r')
                    | None => None
                    end
          end
        else if Ascii.eqb c DQ then
          match parse_chars r with
          | Some (v, r') => Some (JStr v, r')
          | None => None
          end
        else parse_literal (String c r)
    | EmptyString => None
    end
end
with parse_members (fuel : nat) (s : string) : option (list (string * JSValue) * string) :=
match fuel with
| O => None
| S f =>
    match after DQ (skip_ws s) with
    | Some r =>
        match parse_chars r with
        | Some (k, r1) =>
            match after ":" (skip_ws r1) with
            | Some r2 =>
                match parse_value f r2 with
                | Some (v, r3) =>
                    match after "," (skip_ws r3) with
                    | Some r4 =>
                        match parse_members f r4 with
                        | Some (fs, r5) => Some ((k, v) :: fs, r5)
                        | None => None
                        end
                    | None =>
                        match after "}" (skip_ws r3) with
                        | Some r4 => Some ([(k, v)], r4)
                        | None => None
                        end
                    end
                | None => None
                end
            | None => None
            end
        | None => None
        end
    | None => None
    end
end
with parse_elements (fuel : nat) (s : string) : option (list JSValue * string) :=
match fuel with
| O => None
| S f =>
    match parse_value f s with
    | Some (v, r1) =>
        match after "," (skip_ws r1) with
        | Some r2 =>
            match parse_elements f r2 with
            | Some (vs, r3) => Some (v :: vs, r3)
            | None => None
            end
        | None =>
            match after "]" (skip_ws r1) with
            | Some r2 => Some ([v], r2)
            | None => None
            end
        end
    | None => None
    end
end.

(** The fuel [JSON.parse] gives to [parse_value]. *)
Definition fuel_for (text : string) : nat := S (2 * String.length text).

(** [JSON.parse(text)]: the value, or [None] for a SyntaxError. *)
Definition parse (text : string) : option JSValue :=
match parse_value (fuel_for text) text with
| Some (v, rest) =>
    match skip_ws rest with
    | EmptyString => Some v
    | _ => None
    end
| None => None
end.

End JSON.

(** The ToNumber coercion applied by the subtraction of [getTokenAge]. *)

Module ToNumber.
Import JsString Js.

Inductive Number : Type :=
| NaN
| PosInf
| NegInf
| Fin (q : Q).

Definition neg (n : Number) : Number :=
  match n with
  | NaN => NaN
  | PosInf => NegInf
  | NegInf => PosInf
  | Fin q => Fin (Qopp q)
  end.

(** [a - b] for a finite [a] *)
Definition sub_from (a : Q) (b : Number) : Number :=
  match b with
  | NaN => NaN
  | PosInf => NegInf
  | NegInf => PosInf
  | Fin q => Fin (a - q)
  end.

(** [a > b] for a finite [b] *)
Definition gt (a : Number) (b : Q) : bool :=
  match a with
  | NaN | NegInf => false
  | PosInf => true
  | Fin q => negb (Qle_bool q b)
  end.

Definition at_end {A} (r : option (A * string)) : option A :=
  match r with
  | Some (v, EmptyString) => Some v
  | _ => None
  end.

(** StrUnsignedDecimalLiteral: [Infinity], [d.d e], [.d e] or [d e]. *)
Definition unsigned_decimal (s : string) : Number :=
  if String.eqb s "Infinity" then PosInf
  else
    let (ip, r1) := JSON.take_digits s in
    let (fp, r2) :=
      match JSON.after "." r1 with
      | Some r => JSON.take_digits r
      | None => (Decimal.Nil, r1)
      end in
    if JSON.is_nil ip && JSON.is_nil fp then NaN
    else
      match at_end (JSON.parse_exp_part r2) with
      | Some e => Fin (JSON.scale10 (Z.of_uint (Decimal.app ip fp))
                                    (e - Z.of_nat (Decimal.nb_digits fp)))
      | None => NaN
      end.

Definition digit_in (base : Z) (c : ascii) : option Z :=
  match JSON.hex_value c with
  | Some d => if Z.of_nat d <? base then Some (Z.of_nat d) else None
  | None => None
  end.

Fixpoint radix_digits (base : Z) (acc : Z) (s : string) : Number :=
  match s with
  | EmptyString => Fin (inject_Z acc)
  | String c s' =>
      match digit_in base c with
      | Some d => radix_digits base (acc * base + d) s'
      | None => NaN
      end
  end.

(** NonDecimalIntegerLiteral: [0x], [0o] or [0b] and at least one digit. *)
Definition non_decimal (s : string) : option Number :=
  match s with
  | String "0" (String p (String c r)) =>
      let go base := Some (radix_digits base 0 (String c r)) in
      if Ascii.eqb p "x" || Ascii.eqb p "X" then go 16
      else if Ascii.eqb p "o" || Ascii.eqb p "O" then go 8
      else if Ascii.eqb p "b" || Ascii.eqb p "B" then go 2
      else None
  | _ => None
  end.

(** StringToNumber *)
Definition of_string (s : string) : Number :=
  let t := trim s in
  match t with
  | EmptyString => Fin 0
  | String "+" r => unsigned_decimal r
  | String "-" r => neg (unsigned_decimal r)
  | _ => match non_decimal t with
         | Some n => n
         | None => unsigned_decimal t
         end
  end.

(** ToNumber of a value that JSON text can denote.  An array goes through
    its [join(',')]: no element gives the empty string, one element gives
    that element's string form, several give a text with a comma. *)
Fixpoint of_value (v : JSValue) : Number :=
  match v with
  | JUndefined => NaN
  | JNull => Fin 0
  | JBool b => if b then Fin 1 else Fin 0
  | JNum q => Fin q
  | JStr s => of_string s
  | JObj _ => NaN
  | JArr [] => Fin 0
  | JArr [x] =>
      match x with
      | JUndefined | JNull => Fin 0
      | JBool _ | JObj _ => NaN
      | _ => of_value x
      end
  | JArr _ => NaN
  end.

End ToNumber.

(** ** localStorage *)

Module Storage.

(** The entries of [localStorage], and whether the browser accepts a
    write of a key and a value on top of given entries (it refuses when
    the quota is exceeded or storage is disabled: [setItem] throws). *)
Record t : Type := mk {
  items : gmap string string;
  accepts : gmap string string -> string -> string -> bool
}.

Definition getItem (ls : t) (k : string) : option string := items ls !! k.

Definition setItem (ls : t) (k v : string) : option t :=
  if accepts ls (items ls) k v
  then Some (mk (<[k := v]> (items ls)) (accepts ls))
  else None.

Definition removeItem (ls : t) (k : string) : t :=
  mk (delete k (items ls)) (accepts ls).

(** [localStorage.clear()] *)
Definition clear (ls : t) : t := mk ∅ (accepts ls).

End Storage.

(** ** src/utils/TokenManager.js *)

Module TokenManager.
Import JsString Js.

Definition storageKey : string := "esp32_auth_token".

(** [JSON.stringify({ token, timestamp })] for a string and an integer *)
Definition stringify_tokenData (token : string) (timestamp : Z) : string :=
  append (dq "{'token':")
    (append (JSON.quote token)
       (append (dq ",'timestamp':")
          (append (JSON.stringify_int timestamp) "}"))).

Definition storeToken (token : JSValue) (now : Z) (ls : Storage.t) : bool * Storage.t :=
  if negb (truthy token) || negb (typeof_string token) then (false, ls)
  else
    match token with
    | JStr t =>
        match Storage.setItem ls storageKey (stringify_tokenData t now) with
        | Some ls' => (true, ls')
        | None => (false, ls)
        end
    | _ => (false, ls)
    end.

Definition clearStoredToken (ls : Storage.t) : bool * Storage.t :=
  (true, Storage.removeItem ls storageKey).

(** The structure check shared by [getStoredToken] and [getTokenData];
    a property read that throws ends in the same [catch] branch as a
    parse error. *)
Definition invalid_structure (parsed : JSValue) : bool :=
  negb (truthy parsed) || negb (typeof_object parsed) ||
  match get parsed "token" with
  | Some tok => negb (truthy tok)
  | None => true
  end.

Definition getTokenData (ls : Storage.t) : JSValue * Storage.t :=
  match Storage.getItem ls storageKey with
  | None => (JNull, ls)
  | Some storedData =>
      if is_empty storedData then (JNull, ls)
      else
        match JSON.parse storedData with
        | Some parsed =>
            if invalid_structure parsed
            then (JNull, snd (clearStoredToken ls))
            else (parsed, ls)
        | None => (JNull, snd (clearStoredToken ls))
        end
  end.

Definition getStoredToken (ls : Storage.t) : JSValue * Storage.t :=
  match Storage.getItem ls storageKey with
  | None => (JNull, ls)
  | Some storedData =>
      if is_empty storedData then (JNull, ls)
      else
        match JSON.parse storedData with
        | Some parsed =>
            if invalid_structure parsed
            then (JNull, snd (clearStoredToken ls))
            else (default JUndefined (get parsed "token"), ls)
        | None => (JNull, snd (clearStoredToken ls))
        end
  end.

Definition hasStoredToken (ls : Storage.t) : bool * Storage.t :=
  let (token, ls') := getStoredToken ls in (truthy token, ls').

(** [null] is [None]. *)
Definition getTokenAge (now : Z) (ls : Storage.t) : option ToNumber.Number * Storage.t :=
  let (tokenData, ls') := getTokenData ls in
  if negb (truthy tokenData) then (None, ls')
  else
    let timestamp := default JUndefined (get tokenData "timestamp") in
    if negb (truthy timestamp) then (None, ls')
    else (Some (ToNumber.sub_from (inject_Z now) (ToNumber.of_value timestamp)), ls').

Definition isTokenExpired (maxAge : Q) (now : Z) (ls : Storage.t) : bool * Storage.t :=
  let (age, ls') := getTokenAge now ls in
  (match age with
   | Some a => ToNumber.gt a maxAge
   | None => false
   end, ls').

End TokenManager.

(** ** src/config/apiConfig.js *)

Module API_CONFIG.

Definition LOGIN : string := "/api/login".
Definition LOGOUT : string := "/api/logout".
Definition VALIDATE_TOKEN : string := "/api/validate-token".
Definition REFRESH_TOKEN : string := "/api/refresh-token".
Definition MODE : string := "/api/mode".
Definition STATUS : string := "/api/status".
Definition HEALTH : string := "/api/health".

Definition PUBLIC_ENDPOINTS : list string :=
  ["/api/login"; "/api/health"; "/api/status"]%string.

Definition NETWORK_ERROR : string := "Unable to connect to ESP32 device".
Definition INVALID_CREDENTIALS : string := "Invalid username or password".
Definition SERVER_ERROR : string := "ESP32 server error - please try again".
Definition RATE_LIMITED : string := "Too many requests - please wait before trying again".

End API_CONFIG.

Module apiConfig.
Import JsString.

Definition isPublicEndpoint (endpoint : string) : bool :=
  existsb (fun publicEndpoint => includes endpoint publicEndpoint)
          API_CONFIG.PUBLIC_ENDPOINTS.

Definition getErrorMessage (status : Z) (defaultMessage : string) : string :=
  match status with
  | 400 => "Invalid request data"
  | 401 => API_CONFIG.INVALID_CREDENTIALS
  | 403 => "Access denied"
  | 404 => "Requested resource not found"
  | 409 => "Request conflicts with current state"
  | 429 => API_CONFIG.RATE_LIMITED
  | 500 => API_CONFIG.SERVER_ERROR
  | 503 => "Service temporarily unavailable"
  | _ => defaultMessage
  end%string.

End apiConfig.

(** ** Errors, responses and the world *)

Module Runtime.
Import JsString Js.

Record JsError : Type := mkError { name : string; message : string }.

(** [new Error(message)] *)
Definition Error (msg : string) : JsError := mkError "Error" msg.

(** The TypeError of reading a property of [null] or [undefined]. *)
Definition TypeError_property (k : string) : JsError :=
  mkError "TypeError"
          (append "Cannot read properties of null (reading '" (append k "')")).

Inductive Result (A : Type) : Type :=
| Return (a : A)
| Throw (e : JsError).
Arguments Return {A} a.
Arguments Throw {A} e.

(** A response of [fetch]: its status, its headers by lower-case name and
    the text of its body. *)
Record Response : Type := mkResponse {
  status : Z;
  headers : gmap string string;
  text : string
}.

(** [response.ok] *)
Definition ok (r : Response) : bool := (200 <=? status r) && (status r <=? 299).

(** What [fetch] was called with: the URL, the method, the bearer token
    of the [Authorization] header if one was attached, the other headers
    and the value serialised into the body. *)
Record FetchCall : Type := mkCall {
  call_url : string;
  call_method : string;
  call_bearer : option JSValue;
  call_headers : gmap string string;
  call_body : option JSValue
}.

(** How an awaited [fetch] ends, and the time on the clock when it does:
    with a response, or rejected (a TypeError of the network, an
    AbortError of a cancelled or timed-out call). *)
Inductive FetchOutcome : Type :=
| Responded (at_time : Z) (r : Response)
| Rejected (at_time : Z) (e : JsError).

Definition arrival (net : FetchOutcome) : Z :=
  match net with
  | Responded t _ => t
  | Rejected t _ => t
  end.

(** The session state of the auth slice. *)
Record AuthState : Type := mkAuth {
  token : JSValue;
  isAuthenticated : bool;
  isLoading : bool;
  isInitializing : bool;
  error : JSValue;
  user : JSValue
}.

(** An [auth-error] event: [detail.status] and [detail.url]. *)
Record AuthErrorEvent : Type := mkEvent { ev_status : Z; ev_url : string }.

Record World : Type := mkWorld {
  storage : Storage.t;
  auth : AuthState;
  (** [window.__authErrorListenerSet] *)
  authErrorListenerSet : bool;
  (** every [auth-error] event dispatched on [window], latest first *)
  events : list AuthErrorEvent;
  (** every call of [fetch], latest first *)
  fetched : list FetchCall;
  (** the excerpts written by [console.error], latest first *)
  console : list string;
  (** [Date.now()] *)
  clock : Z;
  (** the message of the SyntaxError that [JSON.parse] throws for a text
      it rejects: its wording belongs to the engine *)
  syntaxErrorMessage : string -> string
}.

Definition with_storage (w : World) (ls : Storage.t) : World :=
  mkWorld ls (auth w) (authErrorListenerSet w) (events w) (fetched w) (console w) (clock w)
          (syntaxErrorMessage w).
Definition with_auth (w : World) (a : AuthState) : World :=
  mkWorld (storage w) a (authErrorListenerSet w) (events w) (fetched w) (console w) (clock w)
          (syntaxErrorMessage w).
Definition with_listener (w : World) : World :=
  mkWorld (storage w) (auth w) true (events w) (fetched w) (console w) (clock w)
          (syntaxErrorMessage w).
Definition with_event (w : World) (e : AuthErrorEvent) : World :=
  mkWorld (storage w) (auth w) (authErrorListenerSet w) (e :: events w) (fetched w) (console w) (clock w)
          (syntaxErrorMessage w).
Definition with_fetch (w : World) (c : FetchCall) : World :=
  mkWorld (storage w) (auth w) (authErrorListenerSet w) (events w) (c :: fetched w) (console w) (clock w)
          (syntaxErrorMessage w).
Definition with_console (w : World) (line : string) : World :=
  mkWorld (storage w) (auth w) (authErrorListenerSet w) (events w) (fetched w) (line :: console w) (clock w)
          (syntaxErrorMessage w).
Definition with_clock (w : World) (t : Z) : World :=
  mkWorld (storage w) (auth w) (authErrorListenerSet w) (events w) (fetched w) (console w) t
          (syntaxErrorMessage w).

End Runtime.

(** ** src/features/Auth/AuthSlice.js: state and reducers *)

Module AuthSlice.
Import JsString Js Runtime.

Definition initialState : AuthState :=
  mkAuth JNull false false true JNull JNull.

(** The actions the store sees.  [Other] is an action of another slice
    (the mode slice) by its type. *)
Inductive Action : Type :=
| clearAuthError
| clearAuthToken
| setAuthFromToken (payload_token payload_user : JSValue)
| loginUser_pending
| loginUser_fulfilled (payload : JSValue)
| loginUser_rejected (payload : JSValue)
| logoutUser_pending
| logoutUser_fulfilled
| logoutUser_rejected (payload : JSValue)
| initializeAuth_pending
| initializeAuth_fulfilled (payload_token payload_user : JSValue)
| initializeAuth_rejected (payload : JSValue)
| Other (type : string).

(** [a || b] on values *)
Definition or_else (a b : JSValue) : JSValue := if truthy a then a else b.

(** The reducer.  [clearAuthToken] also clears the stored token. *)
Definition reducer (state : AuthState) (ls : Storage.t) (action : Action)
  : AuthState * Storage.t :=
  match action with
  | clearAuthError =>
      (mkAuth (token state) (isAuthenticated state) (isLoading state)
              (isInitializing state) JNull (user state), ls)
  | clearAuthToken =>
      (mkAuth JNull false (isLoading state) (isInitializing state)
              (error state) JNull,
       snd (TokenManager.clearStoredToken ls))
  | setAuthFromToken tok usr =>
      (mkAuth tok (truthy tok) (isLoading state) (isInitializing state)
              (error state) (or_else usr JNull), ls)
  | loginUser_pending =>
      (mkAuth (token state) (isAuthenticated state) true
              (isInitializing state) JNull (user state), ls)
  | loginUser_fulfilled payload =>
      (mkAuth (default JUndefined (get payload "token")) true false
              (isInitializing state) JNull
              (or_else (default JUndefined (get payload "user")) JNull), ls)
  | loginUser_rejected payload =>
      (mkAuth JNull false false (isInitializing state)
              (or_else payload (JStr "Login failed")) JNull, ls)
  | logoutUser_pending =>
      (mkAuth (token state) (isAuthenticated state) true
              (isInitializing state) JNull (user state), ls)
  | logoutUser_fulfilled =>
      (mkAuth JNull false false (isInitializing state) JNull JNull, ls)
  | logoutUser_rejected payload =>
      (mkAuth JNull false false (isInitializing state)
              (or_else payload (JStr "Logout failed")) JNull, ls)
  | initializeAuth_pending =>
      (mkAuth (token state) (isAuthenticated state) (isLoading state)
              true JNull (user state), ls)
  | initializeAuth_fulfilled tok usr =>
      (mkAuth tok (truthy tok) (isLoading state) false JNull usr, ls)
  | initializeAuth_rejected payload =>
      (mkAuth JNull false (isLoading state) false
              (or_else payload (JStr "Initialization failed")) JNull, ls)
  | Other _ => (state, ls)
  end.

End AuthSlice.

(** ** src/middleware/authMiddleware.js and the store *)

Module Store.
Import JsString Js Runtime AuthSlice.

Definition reduce (w : World) (action : Action) : World :=
  let (a, ls) := reducer (auth w) (storage w) action in
  with_auth (with_storage w ls) a.

(** [tokenValidationMiddleware] checks these two action types. *)
Definition checked_for_age (action : Action) : bool :=
  match action with
  | loginUser_fulfilled _ | initializeAuth_fulfilled _ _ => true
  | _ => false
  end.

(** 24 hours in milliseconds *)
Definition maxAge : Q := inject_Z (24 * 60 * 60 * 1000).

(** [authMiddleware]: after the action went on, register the listener of
    [auth-error] once. *)
Definition authMiddleware (next : World -> World) (w : World) : World :=
  with_listener (next w).

(** [store.dispatch(clearAuthToken())] from inside a middleware or a
    listener: through [authMiddleware] and [tokenValidationMiddleware]
    (which has nothing to check for this type) to the reducer. *)
Definition dispatch_clearAuthToken (w : World) : World :=
  authMiddleware (fun w0 => reduce w0 clearAuthToken) w.

(** [tokenValidationMiddleware] *)
Definition tokenValidationMiddleware (action : Action) (next : World -> World) (w : World)
  : World :=
  let w1 := next w in
  if checked_for_age action then
    let (expired, ls) := TokenManager.isTokenExpired maxAge (clock w1) (storage w1) in
    let w2 := with_storage w1 ls in
    if expired then dispatch_clearAuthToken w2 else w2
  else w1.

(** [store.dispatch(action)] for a plain action. *)
Definition dispatch (w : World) (action : Action) : World :=
  authMiddleware
    (tokenValidationMiddleware action (fun w0 => reduce w0 action)) w.

End Store.

(** ** The [auth-error] event on [window] *)

Module Window.
Import Runtime.

(** The listener registered by [authMiddleware]. *)
Definition listener (w : World) (e : AuthErrorEvent) : World :=
  if (ev_status e =? 401) || (ev_status e =? 403)
  then Store.dispatch_clearAuthToken w
  else w.

(** [window.dispatchEvent(new CustomEvent('auth-error', { detail }))]:
    the event is there for every listener; the one listener the
    application registers runs before [dispatchEvent] returns. *)
Definition dispatchEvent (w : World) (e : AuthErrorEvent) : World :=
  let w1 := with_event w e in
  if authErrorListenerSet w1 then listener w1 e else w1.

End Window.

(** ** src/utils/HttpClient.js *)

Module HttpClient.
Import JsString Js Runtime.

(** The options of a request that the client looks at; [signal] and
    [timeout] are handed to [fetch], whose outcome is given. *)
Record RequestOptions : Type := mkOptions {
  skipAuth : bool;
  method : string;
  opt_headers : gmap string string;
  body : option JSValue
}.

Definition AuthRequired : JsError :=
  Error "Authentication required but no token available".

Definition AuthRejected (status : Z) : JsError :=
  Error (append "Authentication failed: " (JSON.stringify_int status)).

Definition isLoginRequest (url : string) : bool :=
  includes url API_CONFIG.LOGIN.

Definition requiresAuth (url : string) : bool :=
  startsWith url "/api/" && negb (apiConfig.isPublicEndpoint url).

(** [request] up to the call of [fetch]: the call to make, or the error
    thrown before any call. *)
Definition prepare (w : World) (url : string) (options : RequestOptions)
  : Result FetchCall * World :=
  let call bearer :=
    mkCall url (method options) bearer (opt_headers options) (body options) in
  if negb (skipAuth options) && negb (isLoginRequest url) then
    let (token, ls) := TokenManager.getStoredToken (storage w) in
    let w1 := with_storage w ls in
    if truthy token then (Return (call (Some token)), w1)
    else if requiresAuth url then (Throw AuthRequired, w1)
    else (Return (call None), w1)
  else (Return (call None), w).

(** [request] from the response on. *)
Definition receive (w : World) (url : string) (response : Response)
  : Result Response * World :=
  if (status response =? 401) || (status response =? 403) then
    let w1 := with_storage w (snd (TokenManager.clearStoredToken (storage w))) in
    let w2 := Window.dispatchEvent w1 (mkEvent (status response) url) in
    (Throw (AuthRejected (status response)), w2)
  else (Return response, w).

(** The end of the awaited [fetch]. *)
Definition settle (w : World) (url : string) (net : FetchOutcome)
  : Result Response * World :=
  let w1 := with_clock w (arrival net) in
  match net with
  | Responded _ response => receive w1 url response
  | Rejected _ e => (Throw e, w1)
  end.

Definition request (w : World) (url : string) (options : RequestOptions)
  (net : FetchOutcome) : Result Response * World :=
  match prepare w url options with
  | (Throw e, w1) => (Throw e, w1)
  | (Return call, w1) => settle (with_fetch w1 call) url net
  end.

(** [get(url, options)] with [options] holding at most a [signal]. *)
Definition get (w : World) (url : string) (net : FetchOutcome)
  : Result Response * World :=
  request w url (mkOptions false "GET" ∅ None) net.

(** [post(url, data, options)]; [skip] is [options.skipAuth]. *)
Definition post (w : World) (url : string) (data : JSValue) (skip : bool)
  (net : FetchOutcome) : Result Response * World :=
  request w url
    (mkOptions skip "POST" {[ "Content-Type" := "application/json" ]} (Some data)) net.

(** The loop of [requestWithRetry]: [attempt] counts up to [maxRetries],
    [remaining] is [maxRetries - attempt].  [nets attempt] is how the
    [fetch] of that attempt ends, if the attempt gets as far as calling
    it.  The pause between two attempts only lets time pass. *)
Fixpoint attempts (w : World) (url : string) (options : RequestOptions)
  (nets : nat -> FetchOutcome) (attempt remaining : nat) : Result Response * World :=
  match request w url options (nets attempt) with
  | (Return response, w1) => (Return response, w1)
  | (Throw error, w1) =>
      if includes (message error) "Authentication failed" then (Throw error, w1)
      else
        match remaining with
        | O => (Throw error, w1)
        | S remaining' => attempts w1 url options nets (S attempt) remaining'
        end
  end.

(** [requestWithRetry(url, options, maxRetries)] for a number of retries
    that is a natural number. *)
Definition requestWithRetry (w : World) (url : string) (options : RequestOptions)
  (maxRetries : nat) (nets : nat -> FetchOutcome) : Result Response * World :=
  attempts w url options nets 0 maxRetries.


End HttpClient.

(** ** src/utils/HttpRequestAgent.js *)

Module HttpRequestAgent.
Import JsString Js Runtime.

Fixpoint _cleanJsonString (jsonString : string) : string :=
  match jsonString with
  | EmptyString => EmptyString
  | String char rest =>
      if is_control char
      then append (u_escape char) (_cleanJsonString rest)
      else String char (_cleanJsonString rest)
  end.

(** [new Error(`Invalid JSON response: ${initialError.message}`)], where
    [initialError] is the SyntaxError of the first [JSON.parse(text)]. *)
Definition InvalidJson (w : World) (text : string) : JsError :=
  Error (append "Invalid JSON response: " (syntaxErrorMessage w text)).

Definition UnexpectedContentType (contentType : string) : JsError :=
  Error (append "Unexpected content-type: "
                (append contentType ". Expected application/json")).

(** The diagnostic written to the console when the body stays
    unparsable: the first 200 characters of the text. *)
Definition excerpt (text : string) : string := substring0 200 text.

(** The [try] block of [_parseResponseBody]: strict parsing, then one
    pass of cleaning and a second parse when cleaning changed the text. *)
Definition parse_text (w : World) (text : string) : Result JSValue * World :=
  if is_empty text then (Return (JObj []), w)
  else
    match JSON.parse text with
    | Some v => (Return v, w)
    | None =>
        let cleaned := _cleanJsonString text in
        if negb (String.eqb cleaned text) then
          match JSON.parse cleaned with
          | Some v => (Return v, w)
          | None => (Throw (InvalidJson w text), with_console w (excerpt text))
          end
        else (Throw (InvalidJson w text), with_console w (excerpt text))
    end.

(** [contentType && !contentType.includes('application/json')] *)
Definition not_json (contentType : option string) : bool :=
  match contentType with
  | Some ct => negb (is_empty ct) && negb (includes ct "application/json")
  | None => false
  end.

Definition _parseResponseBody (w : World) (response : Response)
  : Result JSValue * World :=
  if (status response =? 204)
     || bool_decide (headers response !! "content-length" = Some "0") then
    (Return (JObj []), w)
  else
    let contentType := headers response !! "content-type" in
    if not_json contentType
    then (Throw (UnexpectedContentType (default "" contentType)), w)
    else parse_text w (text response).

Definition HttpStatus (status : Z) : JsError :=
  Error (append "HTTP " (JSON.stringify_int status)).

Definition _parseResponse (w : World) (response : Response)
  : Result JSValue * World :=
  if negb (ok response) then (Throw (HttpStatus (status response)), w)
  else _parseResponseBody w response.

(** [error.message || fallback] wrapped in a new Error, unless the call
    was aborted. *)
Definition rewrap (fallback : string) (e : JsError) : JsError :=
  if String.eqb (name e) "AbortError" then e
  else Error (if is_empty (message e) then fallback else message e).

Definition get (w : World) (endpoint : string) (net : FetchOutcome)
  : Result JSValue * World :=
  match HttpClient.get w endpoint net with
  | (Return response, w1) =>
      match _parseResponse w1 response with
      | (Return v, w2) => (Return v, w2)
      | (Throw e, w2) => (Throw (rewrap "GET request failed" e), w2)
      end
  | (Throw e, w1) => (Throw (rewrap "GET request failed" e), w1)
  end.

Definition post (w : World) (endpoint : string) (data : JSValue)
  (net : FetchOutcome) : Result JSValue * World :=
  match HttpClient.post w endpoint data false net with
  | (Return response, w1) =>
      match _parseResponse w1 response with
      | (Return v, w2) => (Return v, w2)
      | (Throw e, w2) => (Throw (rewrap "POST request failed" e), w2)
      end
  | (Throw e, w1) => (Throw (rewrap "POST request failed" e), w1)
  end.

(** [errorData.message] as the default of [getErrorMessage]: the text
    ['Request failed'] stands in when the field is [undefined].  [None]
    is the TypeError of reading the field of [null].  A message that is
    neither a string nor [undefined] would be printed by [new Error];
    its text is not modelled and the default text is kept for it. *)
Definition server_message (errorData : JSValue) : option string :=
  match Js.get errorData "message" with
  | Some (JStr m) => Some m
  | Some _ => Some "Request failed"
  | None => None
  end.

(** The [catch] block of [login]. *)
Definition login_failed {A} (w : World) (e : JsError) : Result A * World :=
  let w1 := with_storage w (snd (TokenManager.clearStoredToken (storage w))) in
  if String.eqb (name e) "TypeError" && includes (message e) "fetch"
  then (Throw (Error API_CONFIG.NETWORK_ERROR), w1)
  else (Throw e, w1).

Definition login (w : World) (credentials : JSValue) (net : FetchOutcome)
  : Result JSValue * World :=
  match HttpClient.post w API_CONFIG.LOGIN credentials true net with
  | (Throw e, w1) => login_failed w1 e
  | (Return response, w1) =>
      if negb (ok response) then
        let (parsed, w2) := _parseResponseBody w1 response in
        let errorData := match parsed with Return v => v | Throw _ => JObj [] end in
        match server_message errorData with
        | Some m =>
            login_failed w2 (Error (apiConfig.getErrorMessage (status response) m))
        | None => login_failed w2 (TypeError_property "message")
        end
      else
        match _parseResponseBody w1 response with
        | (Throw e, w2) => login_failed w2 e
        | (Return data, w2) =>
            match Js.get data "token" with
            | None => login_failed w2 (TypeError_property "token")
            | Some tok =>
                if negb (truthy tok) then
                  login_failed w2
                    (Error "Invalid server response: missing authentication token")
                else
                  let (stored, ls) :=
                    TokenManager.storeToken tok (clock w2) (storage w2) in
                  if negb stored then
                    login_failed (with_storage w2 ls)
                      (Error "Failed to store authentication token")
                  else (Return data, with_storage w2 ls)
            end
        end
  end.

(** [logout]; [net] is the outcome of the POST if one is made. *)
Definition logout (w : World) (net : FetchOutcome) : World :=
  let (token, ls) := TokenManager.getStoredToken (storage w) in
  let w1 := with_storage w ls in
  let w2 :=
    if truthy token
    then snd (HttpClient.post w1 API_CONFIG.LOGOUT (JObj []) false net)
    else w1 in
  with_storage w2 (snd (TokenManager.clearStoredToken (storage w2))).

(** [validateToken]: [valid] and [user]. *)
Definition validateToken (w : World) (net : FetchOutcome)
  : (bool * JSValue) * World :=
  let (token, ls) := TokenManager.getStoredToken (storage w) in
  let w1 := with_storage w ls in
  if negb (truthy token) then ((false, JUndefined), w1)
  else
    let cleared w0 :=
      with_storage w0 (snd (TokenManager.clearStoredToken (storage w0))) in
    match HttpClient.get w1 API_CONFIG.VALIDATE_TOKEN net with
    | (Throw _, w2) => ((false, JUndefined), cleared w2)
    | (Return response, w2) =>
        if negb (ok response) then ((false, JUndefined), cleared w2)
        else
          match _parseResponseBody w2 response with
          | (Throw _, w3) => ((false, JUndefined), cleared w3)
          | (Return data, w3) =>
              match Js.get data "user" with
              | Some u => ((true, u), w3)
              | None => ((false, JUndefined), cleared w3)
              end
          end
    end.

Definition isAuthenticated (w : World) : bool * World :=
  let (b, ls) := TokenManager.hasStoredToken (storage w) in (b, with_storage w ls).

Definition clearAuth (w : World) : World :=
  with_storage w (snd (TokenManager.clearStoredToken (storage w))).

End HttpRequestAgent.

(** ** The thunks of src/features/Auth/AuthSlice.js and of the mode slice *)

Module Thunks.
Import JsString Js Runtime AuthSlice.

(** [err.message || fallback] *)
Definition message_or (e : JsError) (fallback : string) : JSValue :=
  JStr (if is_empty (message e) then fallback else message e).

Definition loginUser (w : World) (credentials : JSValue) (net : FetchOutcome) : World :=
  let w1 := Store.dispatch w loginUser_pending in
  match HttpRequestAgent.login w1 credentials net with
  | (Return data, w2) => Store.dispatch w2 (loginUser_fulfilled data)
  | (Throw err, w2) => Store.dispatch w2 (loginUser_rejected (message_or err "Login failed"))
  end.

Definition logoutUser (w : World) (net : FetchOutcome) : World :=
  let w1 := Store.dispatch w logoutUser_pending in
  let w2 := HttpRequestAgent.logout w1 net in
  Store.dispatch w2 logoutUser_fulfilled.

Definition initializeAuth (w : World) (net : FetchOutcome) : World :=
  let w1 := Store.dispatch w initializeAuth_pending in
  let '((valid, usr), w2) := HttpRequestAgent.validateToken w1 net in
  if valid then
    let (tok, ls) := TokenManager.getStoredToken (storage w2) in
    Store.dispatch (with_storage w2 ls) (initializeAuth_fulfilled tok usr)
  else Store.dispatch w2 (initializeAuth_fulfilled JNull JNull).

(** [loadMode] of the mode slice: a GET of [/api/mode]. *)
Definition loadMode (w : World) (net : FetchOutcome) : World :=
  let w1 := Store.dispatch w (Other "mode/loadMode/pending") in
  match HttpRequestAgent.get w1 API_CONFIG.MODE net with
  | (Return data, w2) =>
      match Js.get data "mode" with
      | Some _ => Store.dispatch w2 (Other "mode/loadMode/fulfilled")
      | None => Store.dispatch w2 (Other "mode/loadMode/rejected")
      end
  | (Throw _, w2) => Store.dispatch w2 (Other "mode/loadMode/rejected")
  end.

(** [updateMode] of the mode slice: a POST to [/api/mode]. *)
Definition updateMode (w : World) (modeValue : JSValue) (net : FetchOutcome) : World :=
  let w1 := Store.dispatch w (Other "mode/updateMode/pending") in
  match HttpRequestAgent.post w1 API_CONFIG.MODE (JObj [("mode", modeValue)]) net with
  | (Return _, w2) => Store.dispatch w2 (Other "mode/updateMode/fulfilled")
  | (Throw _, w2) => Store.dispatch w2 (Other "mode/updateMode/rejected")
  end.

End Thunks.

(** ** src/utils/formValidation.js *)

Module formValidation.
Import JsString Js Runtime.

(** The rules of a field; a member that is not defined is [false], [0]
    or [None]. *)
Record Rules : Type := mkRules {
  required : bool;
  minLength : nat;
  maxLength : nat;
  pattern : option (string -> bool)
}.

Definition in_range (lo hi : nat) (c : ascii) : bool :=
  (lo <=? code c)%nat && (code c <=? hi)%nat.

(** One character of the class [a-zA-Z0-9_.-] *)
Definition name_char (c : ascii) : bool :=
  in_range 97 122 c || in_range 65 90 c || in_range 48 57 c
  || Ascii.eqb c "_" || Ascii.eqb c "." || Ascii.eqb c "-".

Fixpoint all_chars (p : ascii -> bool) (s : string) : bool :=
  match s with
  | EmptyString => true
  | String c s' => p c && all_chars p s'
  end.

(** [/^[a-zA-Z0-9_.-]+$/.test(s)] *)
Definition username_pattern (s : string) : bool :=
  negb (is_empty s) && all_chars name_char s.

(** [VALIDATION_RULES[field]]: the rules of [username] and of
    [password]; for a name inherited from [Object.prototype] the
    inherited member, which is truthy and has none of [required],
    [minLength], [maxLength] and [pattern]; [undefined] for any other
    name. *)
Definition VALIDATION_RULES (field : string) : option Rules :=
  if String.eqb field "username" then Some (mkRules true 1 100 (Some username_pattern))
  else if String.eqb field "password" then Some (mkRules true 1 200 None)
  else if inherited field then Some (mkRules false 0 0 None)
  else None.

(** [field.charAt(0).toUpperCase() + field.slice(1)] for a field name in
    ASCII *)
Definition capitalize (field : string) : string :=
  match field with
  | String c rest =>
      String (if in_range 97 122 c then ascii_of_nat (code c - 32) else c) rest
  | EmptyString => EmptyString
  end.

(** [!value || value.trim().length === 0]; [None] when [trim] is called
    on a value that is not a string. *)
Definition blank (value : JSValue) : option bool :=
  if negb (truthy value) then Some true
  else match value with
       | JStr s => Some (is_empty (trim s))
       | _ => None
       end.

Definition TypeError_trim : JsError :=
  mkError "TypeError" "value.trim is not a function".

(** The list of errors of one field; [isValid] is its emptiness. *)
Definition validateField (field : string) (value : JSValue) : Result (list string) :=
  match VALIDATION_RULES field with
  | None => Return []
  | Some rules =>
      match blank value with
      | None => Throw TypeError_trim
      | Some true =>
          if required rules
          then Return [append (capitalize field) " is required"]
          else Return []
      | Some false =>
          match value with
          | JStr s =>
              let trimmedValue := trim s in
              let too_short :=
                if negb (minLength rules =? 0)%nat
                   && (len trimmedValue <? minLength rules)%nat
                then [append (capitalize field)
                        (append " must be at least "
                           (append (JSON.stringify_int (Z.of_nat (minLength rules)))
                                   " characters"))]
                else [] in
              let too_long :=
                if negb (maxLength rules =? 0)%nat
                   && (maxLength rules <? len trimmedValue)%nat
                then [append (capitalize field)
                        (append " must be no more than "
                           (append (JSON.stringify_int (Z.of_nat (maxLength rules)))
                                   " characters"))]
                else [] in
              let bad_chars :=
                match pattern rules with
                | Some test =>
                    if negb (test trimmedValue)
                    then [append (capitalize field) " contains invalid characters"]
                    else []
                | None => []
                end in
              Return (too_short ++ too_long ++ bad_chars)
          | _ => Throw TypeError_trim
          end
      end
  end.

(** [credentials || {}] destructured with the defaults [''] *)
Definition field_or_empty (credentials : JSValue) (k : string) : JSValue :=
  match (if truthy credentials then Js.get credentials k else Some JUndefined) with
  | Some JUndefined | None => JStr ""
  | Some v => v
  end.

(** [errors] of the result; [isValid] is its emptiness. *)
Definition validateLoginCredentials (credentials : JSValue) : Result (list string) :=
  match validateField "username" (field_or_empty credentials "username") with
  | Throw e => Throw e
  | Return usernameErrors =>
      match validateField "password" (field_or_empty credentials "password") with
      | Throw e => Throw e
      | Return passwordErrors => Return (usernameErrors ++ passwordErrors)
      end
  end.

(** [s.replace(/[^...]/g, '')]: the characters of the class stay. *)
Fixpoint keep (p : ascii -> bool) (s : string) : string :=
  match s with
  | EmptyString => EmptyString
  | String c s' => if p c then String c (keep p s') else keep p s'
  end.

(** One character of the class [<>] *)
Definition markup_char (c : ascii) : bool := Ascii.eqb c "<" || Ascii.eqb c ">".

(** [VALIDATION_RULES.password.maxLength] *)
Definition password_maxLength : nat :=
  match VALIDATION_RULES "password" with
  | Some rules => maxLength rules
  | None => 0
  end.

(** [sanitizeInput(value, type)] *)
Definition sanitizeInput (value : JSValue) (type : string) : string :=
  if negb (truthy value) || negb (typeof_string value) then EmptyString
  else
    match value with
    | JStr s =>
        let sanitized := trim s in
        if String.eqb type "username" then keep name_char sanitized
        else if String.eqb type "password" then
          if (password_maxLength <? len sanitized)%nat
          then substring0 password_maxLength sanitized
          else sanitized
        else keep (fun c => negb (markup_char c)) sanitized
    | _ => EmptyString
    end.

(** [Object.values(fieldErrors).some(errors => errors.length > 0)] *)
Definition hasFormErrors (fieldErrors : gmap string (list string)) : bool :=
  existsb (fun errors => negb (List.length errors =? 0)%nat)
          (map snd (map_to_list fieldErrors)).

(** The state of a form: the value, the errors and the touched flag of
    each field, and whether the form counts as valid. *)
Record FormState : Type := mkForm {
  values : gmap string string;
  errors : gmap string (list string);
  touched : gmap string bool;
  isValid : bool
}.

(** [object[field] = value] on an object literal: an own property,
    except for [__proto__], the accessor of [Object.prototype], whose
    setter defines none (the prototype it installs for an object or an
    array has no own property of the object either). *)
Definition assign {V : Type} (object : gmap string V) (field : string) (value : V)
  : gmap string V :=
  if String.eqb field "__proto__" then object else <[field := value]> object.

Definition createFormState (fields : list string) : FormState :=
  fold_left
    (fun state field =>
       mkForm (assign (values state) field EmptyString)
              (assign (errors state) field [])
              (assign (touched state) field false)
              (isValid state))
    fields (mkForm ∅ ∅ ∅ false).

(** [updateFormField(formState, field, value)]; an error thrown by
    [validateField] would leave the function. *)
Definition updateFormField (formState : FormState) (field : string) (value : JSValue)
  : Result FormState :=
  let sanitizedValue := sanitizeInput value field in
  match validateField field (JStr sanitizedValue) with
  | Throw e => Throw e
  | Return validation_errors =>
      Return (mkForm (<[field := sanitizedValue]> (values formState))
                     (<[field := validation_errors]> (errors formState))
                     (touched formState)
                     (negb (hasFormErrors
                              (<[field := validation_errors]> (errors formState)))))
  end.


End formValidation.

(** ** src/services/ErrorHandlingService.js and src/services/AuthService.js *)

Module ErrorHandlingService.
Import JsString Js Runtime.

Definition isNetworkError (e : JsError) : bool :=
  (String.eqb (name e) "TypeError" && includes (message e) "fetch")
  || includes (message e) "Network"
  || includes (message e) "connection"
  || includes (message e) "ECONNREFUSED"
  || includes (message e) "ERR_NETWORK".

Definition isTimeoutError (e : JsError) : bool :=
  String.eqb (name e) "AbortError"
  || includes (message e) "timeout"
  || includes (message e) "ETIMEDOUT".

Definition getAuthErrorMessage (e : JsError) : string :=
  let m := message e in
  if isNetworkError e then API_CONFIG.NETWORK_ERROR
  else if isTimeoutError e then "Request timed out - ESP32 may be busy"
  else if includes m "401" || includes m "Invalid username"
    then API_CONFIG.INVALID_CREDENTIALS
  else if includes m "403" || includes m "Access denied"
    then "Access denied - insufficient permissions"
  else if includes m "429" || includes m "Too many" then API_CONFIG.RATE_LIMITED
  else if includes m "token" && includes m "expired"
    then "Session expired - please log in again"
  else if includes m "500" || includes m "server error" then API_CONFIG.SERVER_ERROR
  else if is_empty m then "Authentication failed. Please try again." else m.

End ErrorHandlingService.

Module AuthService.
Import JsString Js Runtime.

Definition Invalid (what : string) : JsError :=
  Error (append "Invalid credentials: " what).

(** [validateCredentials]: the error it throws, if any. *)
Definition validateCredentials (credentials : JSValue) : option JsError :=
  if negb (truthy credentials) || negb (typeof_object credentials)
  then Some (Invalid "must be an object")
  else
    let username := default JUndefined (Js.get credentials "username") in
    let password := default JUndefined (Js.get credentials "password") in
    if negb (truthy username) || negb (typeof_string username)
    then Some (Invalid "username is required")
    else if negb (truthy password) || negb (typeof_string password)
    then Some (Invalid "password is required")
    else
      match username, password with
      | JStr u, JStr p =>
          if (len (trim u) =? 0)%nat then Some (Invalid "username cannot be empty")
          else if (len p =? 0)%nat then Some (Invalid "password cannot be empty")
          else if (100 <? len u)%nat then Some (Invalid "username too long")
          else if (200 <? len p)%nat then Some (Invalid "password too long")
          else None
      | _, _ => None
      end.

(** The [catch] block of [login]. *)
Definition login_failed {A} (w : World) (e : JsError) : Result A * World :=
  (Throw (Error (ErrorHandlingService.getAuthErrorMessage e)),
   with_storage w (snd (TokenManager.clearStoredToken (storage w)))).

(** The SyntaxError with which [response.json()] rejects. *)
Definition SyntaxError (w : World) (text : string) : JsError :=
  mkError "SyntaxError" (syntaxErrorMessage w text).

(** [errorData.message || 'Login failed'].  The text of a truthy
    message that is not a string is not modelled: the default text is
    kept for it. *)
Definition message_or_default (errorData : JSValue) : option string :=
  match Js.get errorData "message" with
  | Some (JStr m) => Some (if is_empty m then "Login failed" else m)
  | Some _ => Some "Login failed"
  | None => None
  end.

Definition login (w : World) (credentials : JSValue) (net : FetchOutcome)
  : Result JSValue * World :=
  match validateCredentials credentials with
  | Some e => (Throw e, w)
  | None =>
      match HttpClient.post w API_CONFIG.LOGIN credentials true net with
      | (Throw e, w1) => login_failed w1 e
      | (Return response, w1) =>
          if negb (ok response) then
            let errorData := default (JObj []) (JSON.parse (text response)) in
            match message_or_default errorData with
            | Some m =>
                login_failed w1
                  (Error (ErrorHandlingService.getAuthErrorMessage
                            (Error (append (JSON.stringify_int (status response))
                                           (append ": " m)))))
            | None => login_failed w1 (TypeError_property "message")
            end
          else
            match JSON.parse (text response) with
            | None => login_failed w1 (SyntaxError w1 (text response))
            | Some data =>
                match Js.get data "token" with
                | None => login_failed w1 (TypeError_property "token")
                | Some tok =>
                    if negb (truthy tok) then
                      login_failed w1
                        (Error "Invalid server response: missing authentication token")
                    else
                      let (stored, ls) :=
                        TokenManager.storeToken tok (clock w1) (storage w1) in
                      if negb stored then
                        login_failed (with_storage w1 ls)
                          (Error "Failed to store authentication token")
                      else
                        (Return
                           (JObj [("token", tok);
                                  ("user",
                                   AuthSlice.or_else
                                     (default JUndefined (Js.get data "user"))
                                     (JObj [("username",
                                             default JUndefined
                                               (Js.get credentials "username"))]));
                                  ("message",
                                   AuthSlice.or_else
                                     (default JUndefined (Js.get data "message"))
                                     (JStr "Login successful"))]),
                         with_storage w1 ls)
                end
            end
      end
  end.

End AuthService.

(** ** Calls in flight

    A call of [request] runs up to its [fetch], is suspended, and runs on
    when the [fetch] ends; between the two, parts of other calls may run.
    A schedule lists those parts in the order in which they run. *)

Module InFlight.
Import JsString Js Runtime.

Inductive Phase : Type :=
| Start (url : string) (options : HttpClient.RequestOptions)
| Finish (url : string) (net : FetchOutcome).

Definition step (w : World) (phase : Phase) : World :=
match phase with
| Start url options =>
    match HttpClient.prepare w url options with
    | (Return call, w1) => with_fetch w1 call
    | (Throw _, w1) => w1
    end
| Finish url net => snd (HttpClient.settle w url net)
end.

Definition run (w : World) (schedule : list Phase) : World :=
fold_left step schedule w.

(** The part that receives a response with status 401 or 403. *)
Definition rejected (phase : Phase) : bool :=
match phase with
| Finish _ (Responded _ response) =>
    (status response =? 401) || (status response =? 403)
| _ => false
end.

(** The session is closed: no token key, not authenticated. *)
Definition closed (w : World) : Prop :=
Storage.getItem (storage w) TokenManager.storageKey = None
/\ isAuthenticated (auth w) = false.

(** The listener of [auth-error] is registered, or the session state is
    still unauthenticated (no action went through the store yet). *)
Definition attentive (w : World) : Prop :=
authErrorListenerSet w = true \/ isAuthenticated (auth w) = false.

End InFlight.

(** ** The session as the orchestrator runs it

    Each operation of the orchestrator is a thunk that runs from its
    [pending] action to its [fulfilled] or [rejected] action; an operation
    is taken as one step, so the states in between two awaits of one
    operation are not states of this machine. *)

Module Session.
Import JsString Js Runtime.

Inductive Operation : Type :=
| startup (net : FetchOutcome)
| submitLogin (credentials : JSValue) (net : FetchOutcome)
| requestLogout (net : FetchOutcome)
| readMode (net : FetchOutcome)
| saveMode (modeValue : JSValue) (net : FetchOutcome)
| acknowledgeError.

Definition perform (w : World) (op : Operation) : World :=
match op with
| startup net => Thunks.initializeAuth w net
| submitLogin credentials net => Thunks.loginUser w credentials net
| requestLogout net => Thunks.logoutUser w net
| readMode net => Thunks.loadMode w net
| saveMode modeValue net => Thunks.updateMode w modeValue net
| acknowledgeError => Store.dispatch w AuthSlice.clearAuthError
end.

(** The application starts with the initial state of the slice, no
    listener registered, and whatever an earlier session left in the
    storage. *)
Definition initial (w : World) : Prop :=
auth w = AuthSlice.initialState /\ authErrorListenerSet w = false.

Inductive Reachable : World -> Prop :=
| reach_initial (w : World) : initial w -> Reachable w
| reach_perform (w : World) (op : Operation) : Reachable w -> Reachable (perform w op).

(** What [getStoredToken] reads in a world. *)
Definition stored (w : World) : JSValue :=
fst (TokenManager.getStoredToken (storage w)).

(** The authenticated flag agrees with the presence of a stored token. *)
Definition consistent (w : World) : Prop :=
isAuthenticated (auth w) = truthy (stored w).

(** The operations that set the session: startup validation, login and
    logout. *)
Definition sets_session (op : Operation) : bool :=
match op with
| startup _ | submitLogin _ _ | requestLogout _ => true
| _ => false
end.

(** From [w] to [w'] the session was kept: same flags, same token read. *)
Definition kept (w w' : World) : Prop :=
isAuthenticated (auth w') = isAuthenticated (auth w)
/\ isInitializing (auth w') = isInitializing (auth w)
/\ stored w' = stored w.

(** From [w] to [w'] the session was dropped: no token is read any
    more, and the flag is down. *)
Definition dropped (w w' : World) : Prop :=
stored w' = JNull
/\ isAuthenticated (auth w') = false
/\ isInitializing (auth w') = isInitializing (auth w).

End Session.

(** ** src/utils/authUtils.js *)

Module AuthUtils.
Import JsString Js Runtime.

(** [!publicRoutes.includes(pathname)] for the routes [/login] and [/] *)
Definition requiresAuth (pathname : string) : bool :=
  negb (existsb (String.eqb pathname) ["/login"; "/"]%string).

(** [None] is [null]: no redirect. *)
Definition getRedirectPath (isAuthenticated : bool) (currentPath : string)
  : option string :=
  if isAuthenticated && String.eqb currentPath "/login" then Some "/home"%string
  else if negb isAuthenticated && requiresAuth currentPath then Some "/login"%string
  else None.

(** [handleAuthStateChange(isAuthenticated, navigate, currentPath)], with
    what [navigate] does to the place [N] it acts on. *)
Definition handleAuthStateChange {N : Type} (isAuthenticated : bool)
  (navigate : string -> N -> N) (currentPath : string) (place : N) : N :=
  match getRedirectPath isAuthenticated currentPath with
  | Some redirectPath => navigate redirectPath place
  | None => place
  end.

(** [handleLogout]: the thunk never rejects; [navigate] runs in the
    [finally] block. *)
Definition handleLogout {N : Type} (navigate : string -> N -> N)
  (w : World) (place : N) (net : FetchOutcome) : World * N :=
  (Thunks.logoutUser w net, navigate "/login"%string place).

(** The handler made by [createAuthErrorHandler(dispatch, clearAuthToken,
    navigate)], for the [dispatch] of the store. *)
Definition createAuthErrorHandler {N : Type} (navigate : string -> N -> N)
  (error : JsError) (w : World) (place : N) : World * N :=
  if includes (message error) "Authentication failed"
     || includes (message error) "401"
     || includes (message error) "403"
  then (Store.dispatch w AuthSlice.clearAuthToken, navigate "/login"%string place)
  else (w, place).

End AuthUtils.

(** ** src/features/Auth/components/LoginPage.jsx and AuthGuard.jsx *)

Module LoginPage.
Import JsString Js Runtime.

(** The credentials the component holds: what was typed in the two
    inputs. *)
Record Credentials : Type := mkCredentials { username : string; password : string }.

(** The object handed to [loginUser]. *)
Definition payload (credentials : Credentials) : JSValue :=
  JObj [("username"%string, JStr (username credentials));
        ("password"%string, JStr (password credentials))].

(** [credentials.username.trim() && credentials.password] as a boolean *)
Definition isFormValid (credentials : Credentials) : bool :=
  negb (is_empty (trim (username credentials)))
  && negb (is_empty (password credentials)).

(** [handleSubmit]: what it does to the store and the network. *)
Definition handleSubmit (w : World) (credentials : Credentials) (net : FetchOutcome)
  : World :=
  if is_empty (trim (username credentials)) || is_empty (password credentials)
  then w
  else Thunks.loginUser w (payload credentials) net.

End LoginPage.

Module AuthGuard.
Import Runtime.

Inductive Screen : Type := Loading | HomePage | LoginPage.

(** What [AuthGuard] renders for a state of the auth slice. *)
Definition render (a : AuthState) : Screen :=
  if isInitializing a then Loading
  else if isAuthenticated a then HomePage else LoginPage.

End AuthGuard.

(** ** src/features/App/AppSlice.jsx: the mode slice *)

Module ModeSlice.
Import JsString Js Runtime.

Record ModeState : Type := mkMode {
  value : JSValue;
  connected : bool;
  loading : bool;
  saving : bool;
  error : JSValue
}.

Definition initialState : ModeState := mkMode (JStr "") false false false JNull.

Inductive Action : Type :=
| setModeLocal (payload : JSValue)
| clearError
| loadMode_pending
| loadMode_fulfilled (payload : JSValue)
| loadMode_rejected (payload : JSValue)
| updateMode_pending
| updateMode_fulfilled (payload_mode payload_response : JSValue)
| updateMode_rejected (payload : JSValue).

Definition reducer (state : ModeState) (action : Action) : ModeState :=
  match action with
  | setModeLocal payload =>
      mkMode payload (connected state) (loading state) (saving state) (error state)
  | clearError =>
      mkMode (value state) (connected state) (loading state) (saving state) JNull
  | loadMode_pending =>
      mkMode (value state) (connected state) true (saving state) JNull
  | loadMode_fulfilled payload =>
      mkMode payload true false (saving state) JNull
  | loadMode_rejected payload =>
      mkMode (value state) false false (saving state)
             (AuthSlice.or_else payload (JStr "Unable to reach device"))
  | updateMode_pending =>
      mkMode (value state) (connected state) (loading state) true JNull
  | updateMode_fulfilled payload_mode _ =>
      mkMode payload_mode true (loading state) false JNull
  | updateMode_rejected payload =>
      mkMode (value state) false (loading state) false
             (AuthSlice.or_else payload (JStr "Failed to save to device"))
  end.

(** [a ?? b] *)
Definition nullish_or (a b : JSValue) : JSValue :=
  match a with
  | JUndefined | JNull => b
  | _ => a
  end.

(** The action [loadMode] ends with, and what the call did to the rest.
    [err.message] is a string, so the fallback of [??] is never taken. *)
Definition loadMode_settled (w : World) (net : FetchOutcome) : Action * World :=
  match HttpRequestAgent.get w API_CONFIG.MODE net with
  | (Return data, w1) =>
      match Js.get data "mode" with
      | Some mode => (loadMode_fulfilled (nullish_or mode (JStr "")), w1)
      | None => (loadMode_rejected (JStr (message (TypeError_property "mode"))), w1)
      end
  | (Throw err, w1) => (loadMode_rejected (JStr (message err)), w1)
  end.

Definition updateMode_settled (w : World) (modeValue : JSValue) (net : FetchOutcome)
  : Action * World :=
  match HttpRequestAgent.post w API_CONFIG.MODE (JObj [("mode"%string, modeValue)]) net with
  | (Return data, w1) => (updateMode_fulfilled modeValue data, w1)
  | (Throw err, w1) => (updateMode_rejected (JStr (message err)), w1)
  end.

(** The thunk [loadMode] on the mode slice: [pending], the request, then
    the action it settled with. *)
Definition loadMode (state : ModeState) (w : World) (net : FetchOutcome) : ModeState :=
  reducer (reducer state loadMode_pending)
          (fst (loadMode_settled (Store.dispatch w (AuthSlice.Other "mode/loadMode/pending")) net)).

Definition updateMode (state : ModeState) (w : World) (modeValue : JSValue)
  (net : FetchOutcome) : ModeState :=
  reducer (reducer state updateMode_pending)
          (fst (updateMode_settled
                  (Store.dispatch w (AuthSlice.Other "mode/updateMode/pending"))
                  modeValue net)).

End ModeSlice.

(** ** Concrete inputs used by the examples *)

Module Examples.
Import JsString Js Runtime.

Definition always_accepts : gmap string string -> string -> string -> bool :=
fun _ _ _ => true.

Definition never_accepts : gmap string string -> string -> string -> bool :=
fun _ _ _ => false.

Definition empty_storage : Storage.t := Storage.mk ∅ always_accepts.

Definition full_storage : Storage.t := Storage.mk ∅ never_accepts.

(** A storage whose token key holds [payload]. *)
Definition storage_with (payload : string) : Storage.t :=
Storage.mk {[ TokenManager.storageKey := payload ]} always_accepts.

(** The record written for the token [abc] at time 1000. *)
Definition record_abc : string := dq "{'token':'abc','timestamp':1000}".

(** An engine that words every SyntaxError of [JSON.parse] alike. *)
Definition engine_message (text : string) : string := "Unexpected token in JSON".

(** A record whose timestamp is 0. *)
Definition record_at_epoch : string := dq "{'token':'abc','timestamp':0}".

Definition world_with (ls : Storage.t) (a : AuthState) (listening : bool) : World :=
mkWorld ls a listening [] [] [] 0 engine_message.



Definition ok_response (body : string) : Response :=
mkResponse 200 {[ "content-type" := "application/json" ]} body.

Definition signed_in : AuthState :=
mkAuth (JStr "abc") true false false JNull (JObj [("username", JStr "alice")]).

(** A signed-in session whose record is in the storage, with the
    listener of [auth-error] registered. *)
Definition signed_in_world : World :=
world_with (storage_with record_abc) signed_in true.

Definition get_options : HttpClient.RequestOptions :=
HttpClient.mkOptions false "GET" ∅ None.

Definition unauthorized : Response := mkResponse 401 ∅ "".

(** Two calls in flight together: the second one sent is rejected first,
    the first one is answered afterwards. *)
Definition two_calls : list InFlight.Phase :=
[InFlight.Start API_CONFIG.MODE get_options;
 InFlight.Start API_CONFIG.VALIDATE_TOKEN get_options;
 InFlight.Finish API_CONFIG.VALIDATE_TOKEN (Responded 5 unauthorized);
 InFlight.Finish API_CONFIG.MODE (Responded 6 (ok_response (dq "{'mode':'auto'}")))].

Definition empty_username : JSValue :=
JObj [("username", JStr ""); ("password", JStr "secret")].

Definition empty_password : JSValue :=
JObj [("username", JStr "alice"); ("password", JStr "")].

Definition fresh_world : World :=
world_with empty_storage AuthSlice.initialState false.

(** The application starts while the record of an earlier session is
    still in the storage. *)
Definition stale_world : World :=
world_with (storage_with record_abc) AuthSlice.initialState false.

(** The server answers the login with a token. *)
Definition login_accepted : FetchOutcome :=
Responded 1000 (ok_response (dq "{'token':'abc'}")).

(** A storage that holds the record of [abc] next to an entry of another
    part of the page. *)
Definition shared_storage : Storage.t :=
  Storage.mk {[ TokenManager.storageKey := record_abc; "theme"%string := "dark"%string ]}
             always_accepts.

(** The headers [post] sets. *)
Definition json_headers : gmap string string :=
{[ "Content-Type"%string := "application/json"%string ]}.


End Examples.
Import JsString Js Runtime.
Local Arguments String.append !_ _ / : simpl nomatch.

Lemma append_assoc (a b c : string) : append (append a b) c = append a (append b c).
Proof. induction a as [|x a IH]; simpl; [reflexivity | now rewrite IH]. Qed.

Lemma parse_chars_quote_char (c : ascii) (k : string) :
JSON.parse_chars (append (JSON.quote_char c) k) = JSON.cons_char c (JSON.parse_chars k).
Proof.
destruct c as [[] [] [] [] [] [] [] []];
  cbv -[JSON.parse_chars JSON.cons_char]; fold JSON.parse_chars; 
  cbv -[JSON.parse_chars JSON.cons_char]; reflexivity.
Qed.

Lemma parse_chars_quote_chars (t rest : string) :
JSON.parse_chars (append (JSON.quote_chars t) (String DQ rest)) = Some (t, rest).
Proof.
induction t as [|c t IH].
- reflexivity.
- cbn [JSON.quote_chars]. rewrite append_assoc, parse_chars_quote_char, IH.
  reflexivity.
Qed.

Lemma take_digits_string_of_uint (u : Decimal.uint) (rest : string) :
match rest with String c _ => JSON.digit_of c = None | EmptyString => True end ->
JSON.take_digits (append (NilEmpty.string_of_uint u) rest) = (u, rest).
Proof.
intros Hrest. induction u; cbn; try (rewrite IHu; reflexivity).
destruct rest as [|c r]; [reflexivity|]. cbn. now rewrite Hrest.
Qed.

Lemma to_uint_head (p : positive) :
match Pos.to_uint p with
| Decimal.Nil | Decimal.D0 _ => False
| _ => True
end.
Proof.
pose proof (DecimalPos.Unsigned.to_of (Pos.to_uint p)) as H.
rewrite DecimalPos.Unsigned.of_to in H. cbn [N.to_uint] in H.
pose proof (DecimalPos.Unsigned.to_uint_nonzero p) as Hz.
pose proof (DecimalPos.Unsigned.to_uint_nonnil p) as Hn.
destruct (Pos.to_uint p) as [|d| | | | | | | | |]; try exact I; [congruence|].
unfold Decimal.unorm in H. rewrite DecimalFacts.nzhead_D0 in H.
destruct (Decimal.nzhead d) eqn:E.
- exact (Hz H).
- exact (DecimalFacts.nzhead_nonzero _ _ E).
- discriminate. - discriminate. - discriminate. - discriminate. - discriminate.
- discriminate. - discriminate. - discriminate. - discriminate.
Qed.

Lemma parse_unsigned_uint (u : Decimal.uint) (rest : string) :
match u with Decimal.Nil | Decimal.D0 _ => False | _ => True end ->
JSON.parse_unsigned (append (NilEmpty.string_of_uint u) (String "}" rest))
= Some (inject_Z (Z.of_uint u), String "}" rest).
Proof.
intros Hu. unfold JSON.parse_unsigned.
assert (Hint : JSON.parse_int_part (append (NilEmpty.string_of_uint u) (String "}" rest))
               = Some (u, String "}" rest)).
{ unfold JSON.parse_int_part.
  rewrite take_digits_string_of_uint by reflexivity.
  destruct u; try contradiction; reflexivity. }
rewrite Hint. cbn -[Z.of_uint]. rewrite DecimalFacts.app_nil_r. reflexivity.
Qed.

Lemma parse_value_digit (f : nat) (c : ascii) (r : string) :
In c (list_ascii_of_string "123456789") ->
JSON.parse_value (S f) (String c r) = JSON.as_num (JSON.parse_unsigned (String c r)).
Proof.
cbn [list_ascii_of_string In]. intros H.
repeat (destruct H as [<-|H]; [reflexivity|]). contradiction.
Qed.

Lemma parse_value_minus (f : nat) (r : string) :
JSON.parse_value (S f) (String "-" r)
= JSON.as_num (match JSON.parse_unsigned r with
          | Some (q, rest) => Some (Qopp q, rest)
          | None => None
          end).
Proof. reflexivity. Qed.

Lemma string_of_uint_head (u : Decimal.uint) :
match u with Decimal.Nil | Decimal.D0 _ => False | _ => True end ->
exists c r, NilEmpty.string_of_uint u = String c r
            /\ In c (list_ascii_of_string "123456789").
Proof.
destruct u; try contradiction; intros _; eexists _, _; (split; [reflexivity|]);
  cbn; tauto.
Qed.

Lemma parse_value_int (f : nat) (z : Z) (rest : string) :
JSON.parse_value (S f) (append (JSON.stringify_int z) (String "}" rest))
= Some (JNum (inject_Z z), String "}" rest).
Proof.
unfold JSON.stringify_int. destruct z as [|p|p]; cbn [Z.to_int NilZero.string_of_int].
- reflexivity.
- pose proof (to_uint_head p) as Hh.
  assert (Hv : Z.of_uint (Pos.to_uint p) = Z.pos p).
  { unfold Z.of_uint. now rewrite DecimalPos.Unsigned.of_to. }
  pose proof (parse_unsigned_uint (Pos.to_uint p) rest Hh) as Hp.
  rewrite Hv in Hp.
  assert (Hnz : NilZero.string_of_uint (Pos.to_uint p)
                = NilEmpty.string_of_uint (Pos.to_uint p)).
  { destruct (Pos.to_uint p); try reflexivity; contradiction. }
  rewrite Hnz.
  destruct (string_of_uint_head _ Hh) as (c & r & Hs & Hc).
  rewrite Hs in *. cbn [append] in *.
  rewrite (parse_value_digit f c _ Hc), Hp. reflexivity.
- pose proof (to_uint_head p) as Hh.
  assert (Hv : Z.of_uint (Pos.to_uint p) = Z.pos p).
  { unfold Z.of_uint. now rewrite DecimalPos.Unsigned.of_to. }
  pose proof (parse_unsigned_uint (Pos.to_uint p) rest Hh) as Hp.
  rewrite Hv in Hp.
  assert (Hnz : NilZero.string_of_uint (Pos.to_uint p)
                = NilEmpty.string_of_uint (Pos.to_uint p)).
  { destruct (Pos.to_uint p); try reflexivity; contradiction. }
  rewrite Hnz. cbn [append].
  rewrite parse_value_minus, Hp. reflexivity.
Qed.

Lemma length_append (a b : string) :
String.length (append a b) = (String.length a + String.length b)%nat.
Proof. induction a as [|c a IH]; cbn; [reflexivity | now rewrite IH]. Qed.

Lemma parse_value_object (f : nat) (r : string) :
JSON.parse_value (S f) (String "{" (String DQ r))
= match JSON.parse_members f (String DQ r) with
  | Some (fs, r') => Some (JObj fs, r')
  | None => None
  end.
Proof. reflexivity. Qed.

Lemma parse_value_string (f : nat) (r : string) :
JSON.parse_value (S f) (String DQ r)
= match JSON.parse_chars r with
  | Some (v, r') => Some (JStr v, r')
  | None => None
  end.
Proof. reflexivity. Qed.

Lemma parse_members_unfold (f : nat) (r : string) :
JSON.parse_members (S f) (String DQ r)
= match JSON.parse_chars r with
  | Some (k, r1) =>
      match JSON.after ":" (JSON.skip_ws r1) with
      | Some r2 =>
          match JSON.parse_value f r2 with
          | Some (v, r3) =>
              match JSON.after "," (JSON.skip_ws r3) with
              | Some r4 =>
                  match JSON.parse_members f r4 with
                  | Some (fs, r5) => Some ((k, v) :: fs, r5)
                  | None => None
                  end
              | None =>
                  match JSON.after "}" (JSON.skip_ws r3) with
                  | Some r4 => Some ([(k, v)], r4)
                  | None => None
                  end
              end
          | None => None
          end
      | None => None
      end
  | None => None
  end.
Proof. reflexivity. Qed.

Lemma parse_members_key (f : nat) (k r : string) :
JSON.parse_members (S f) (String DQ (append (JSON.quote_chars k) (String DQ (String ":" r))))
= match JSON.parse_value f r with
  | Some (v, r3) =>
      match JSON.after "," (JSON.skip_ws r3) with
      | Some r4 =>
          match JSON.parse_members f r4 with
          | Some (fs, r5) => Some ((k, v) :: fs, r5)
          | None => None
          end
      | None =>
          match JSON.after "}" (JSON.skip_ws r3) with
          | Some r4 => Some ([(k, v)], r4)
          | None => None
          end
      end
  | None => None
  end.
Proof. rewrite parse_members_unfold, parse_chars_quote_chars. reflexivity. Qed.

Lemma after_head (c : ascii) (r : string) : JSON.after c (String c r) = Some r.
Proof. cbn. now rewrite Ascii.eqb_refl. Qed.

Lemma fuel_for_two (c1 c2 : ascii) (r : string) :
exists f, JSON.fuel_for (String c1 (String c2 r)) = S (S (S (S f))).
Proof.
exists (S (2 * String.length r)). unfold JSON.fuel_for. cbn [String.length]. lia.
Qed.

Lemma skip_ws_comma (r : string) : JSON.skip_ws (String "," r) = String "," r.
Proof. reflexivity. Qed.

Lemma parse_stringify_tokenData (t : string) (z : Z) :
JSON.parse (TokenManager.stringify_tokenData t z)
= Some (JObj [("token", JStr t); ("timestamp", JNum (inject_Z z))]).
Proof.
unfold JSON.parse.
assert (Htext : TokenManager.stringify_tokenData t z
  = String "{" (String DQ (append (JSON.quote_chars "token")
      (String DQ (String ":" (String DQ (append (JSON.quote_chars t)
        (String DQ (String "," (String DQ (append (JSON.quote_chars "timestamp")
          (String DQ (String ":"
             (append (JSON.stringify_int z) (String "}" EmptyString))))))))))))))).
{ unfold TokenManager.stringify_tokenData, JSON.quote.
  cbn [append]. rewrite append_assoc. reflexivity. }
rewrite Htext.
match goal with
| |- context [JSON.fuel_for (String ?a (String ?b ?r))] =>
    destruct (fuel_for_two a b r) as [f Hf]; rewrite Hf
end.
rewrite parse_value_object, parse_members_key, parse_value_string,
  parse_chars_quote_chars.
rewrite skip_ws_comma, after_head. cbv iota beta.
rewrite parse_members_key, parse_value_int. reflexivity.
Qed.

(** *** The fuel of [JSON.parse] is enough *)

Section Fuel.
Import JSON.

Lemma skip_ws_length (s : string) : (String.length (skip_ws s) <= String.length s)%nat.
Proof.
induction s as [|c s IH]; cbn [skip_ws]; [lia|].
destruct (is_ws c); cbn [String.length]; lia.
Qed.

Lemma after_length (c : ascii) (s r : string) :
  after c s = Some r -> String.length s = S (String.length r).
Proof.
destruct s as [|c' s]; cbn [after]; [discriminate|].
destruct (Ascii.eqb c' c); [|discriminate]. now intros [= ->].
Qed.

Lemma after_skip_ws_length (c : ascii) (s r : string) :
  after c (skip_ws s) = Some r -> (String.length r < String.length s)%nat.
Proof.
intros H. apply after_length in H. pose proof (skip_ws_length s). lia.
Qed.

Lemma cons_char_Some (c : ascii) (x : option (string * string)) (v r : string) :
  cons_char c x = Some (v, r) -> exists v', x = Some (v', r).
Proof. destruct x as [[v' r']|]; cbn; [|discriminate]. intros [= _ <-]. eauto. Qed.

Lemma parse_chars_length_bounded (n : nat) (s v r : string) :
  (String.length s <= n)%nat ->
  parse_chars s = Some (v, r) -> (String.length r < String.length s)%nat.
Proof.
revert s v r. induction n as [|n IH]; intros s v r Hn.
- destruct s; [discriminate | cbn in Hn; lia].
- destruct s as [|c r0]; [discriminate|]. cbn [parse_chars String.length] in *.
  assert (Hrec : forall c' t v0,
    (String.length t <= n)%nat -> cons_char c' (parse_chars t) = Some (v0, r) ->
    (String.length r < String.length t)%nat).
  { intros c' t v0 Ht H. apply cons_char_Some in H as (v' & H). eapply IH; eauto. }
  destruct (Ascii.eqb c DQ); [intros [= _ <-]; lia|].
  destruct (Ascii.eqb c "\").
  + destruct r0 as [|e r1]; [discriminate|]. cbn [String.length] in *.
    repeat (match goal with
            | |- context [if Ascii.eqb e ?x then _ else _] =>
                destruct (Ascii.eqb e x);
                [intros H; apply Hrec in H; lia|]
            end).
    destruct (Ascii.eqb e "u"); [|discriminate].
    destruct r1 as [|h1 [|h2 [|h3 [|h4 r2]]]]; try discriminate.
    cbn [String.length] in *. destruct (hex4 h1 h2 h3 h4); [|discriminate].
    intros H. apply Hrec in H; lia.
  + destruct (is_control c); [discriminate|].
    intros H. apply Hrec in H; lia.
Qed.

Lemma parse_chars_length (s v r : string) :
  parse_chars s = Some (v, r) -> (String.length r < String.length s)%nat.
Proof. apply (parse_chars_length_bounded (String.length s)). lia. Qed.

Lemma take_digits_length (s : string) :
  (String.length (snd (take_digits s)) <= String.length s)%nat
  /\ (is_nil (fst (take_digits s)) = false ->
      String.length (snd (take_digits s)) < String.length s)%nat.
Proof.
induction s as [|c s [IH1 IH2]]; cbn [take_digits]; [cbn; split; [lia|discriminate]|].
destruct (digit_of c) as [d|]; [|cbn; split; [lia|discriminate]].
destruct (take_digits s) as [u rest]. cbn [fst snd String.length] in *. split; lia.
Qed.

Lemma parse_exp_digits_length (neg : bool) (s : string) (e : Z) (r : string) :
  parse_exp_digits neg s = Some (e, r) -> (String.length r < String.length s)%nat.
Proof.
unfold parse_exp_digits. pose proof (take_digits_length s) as [_ H].
destruct (take_digits s) as [u rest]. cbn [fst snd] in H.
destruct (is_nil u); [discriminate|]. intros [= _ <-]. now apply H.
Qed.

Lemma parse_unsigned_length (s : string) (q : Q) (r : string) :
  parse_unsigned s = Some (q, r) -> (String.length r < String.length s)%nat.
Proof.
unfold parse_unsigned.
destruct (parse_int_part s) as [[ip r1]|] eqn:Hi; [|discriminate].
assert (H1 : (String.length r1 < String.length s)%nat).
{ unfold parse_int_part in Hi. destruct (after "0" s) as [r0|] eqn:Ha.
  - injection Hi as _ <-. apply after_length in Ha. lia.
  - pose proof (take_digits_length s) as [_ H].
    destruct (take_digits s) as [u rest]. cbn [fst snd] in H.
    destruct (is_nil u); [discriminate|]. injection Hi as _ <-. now apply H. }
destruct (parse_frac_part r1) as [[fp r2]|] eqn:Hf; [|discriminate].
assert (H2 : (String.length r2 <= String.length r1)%nat).
{ unfold parse_frac_part in Hf. destruct (after "." r1) as [r0|] eqn:Ha.
  - pose proof (take_digits_length r0) as [H _]. apply after_length in Ha.
    destruct (take_digits r0) as [u rest]. cbn [fst snd] in H.
    destruct (is_nil u); [discriminate|]. injection Hf as _ <-. lia.
  - injection Hf as _ <-. lia. }
destruct (parse_exp_part r2) as [[e r3]|] eqn:He; [|discriminate].
assert (H3 : (String.length r3 <= String.length r2)%nat).
{ unfold parse_exp_part in He. destruct r2 as [|c r0]; [injection He as _ <-; lia|].
  cbn [String.length]. destruct (_ || _); [|injection He as _ <-; cbn; lia].
  destruct (after "-" r0) as [r'|] eqn:Ha.
  { apply parse_exp_digits_length in He. apply after_length in Ha. lia. }
  destruct (after "+" r0) as [r'|] eqn:Hb.
  { apply parse_exp_digits_length in He. apply after_length in Hb. lia. }
  apply parse_exp_digits_length in He. lia. }
intros [= _ <-]. lia.
Qed.

Lemma parse_number_length (s : string) (q : Q) (r : string) :
  parse_number s = Some (q, r) -> (String.length r < String.length s)%nat.
Proof.
unfold parse_number. destruct (after "-" s) as [r0|] eqn:Ha.
- destruct (parse_unsigned r0) as [[q0 rest]|] eqn:Hu; [|discriminate].
  intros [= _ <-]. apply parse_unsigned_length in Hu. apply after_length in Ha. lia.
- apply parse_unsigned_length.
Qed.

Lemma drop_length (p s : string) :
  startsWith s p = true ->
  (String.length (drop (String.length p) s) + String.length p = String.length s)%nat.
Proof.
revert s. induction p as [|b p IH]; intros s; [cbn; destruct s; cbn; lia|].
destruct s as [|a s]; cbn; [discriminate|].
destruct (Ascii.eqb a b); [|discriminate]. intros H. specialize (IH s H). lia.
Qed.

Lemma parse_literal_length (s : string) (v : JSValue) (r : string) :
  parse_literal s = Some (v, r) -> (String.length r < String.length s)%nat.
Proof.
unfold parse_literal.
destruct (startsWith s "true") eqn:E1.
{ intros [= _ <-]. apply drop_length in E1. cbn [String.length] in E1.
  change (String.length (drop 4 s) < String.length s)%nat. lia. }
destruct (startsWith s "false") eqn:E2.
{ intros [= _ <-]. apply drop_length in E2. cbn [String.length] in E2.
  change (String.length (drop 5 s) < String.length s)%nat. lia. }
destruct (startsWith s "null") eqn:E3.
{ intros [= _ <-]. apply drop_length in E3. cbn [String.length] in E3.
  change (String.length (drop 4 s) < String.length s)%nat. lia. }
destruct (parse_number s) as [[q r0]|] eqn:En; [|discriminate].
intros [= _ <-]. now apply parse_number_length in En.
Qed.

Lemma parse_consumes (f : nat) :
  (forall s v r, parse_value f s = Some (v, r) ->
                 (String.length r < String.length s)%nat)
  /\ (forall s fs r, parse_members f s = Some (fs, r) ->
                     (String.length r < String.length s)%nat)
  /\ (forall s vs r, parse_elements f s = Some (vs, r) ->
                     (String.length r < String.length s)%nat).
Proof.
induction f as [|f (IHv & IHm & IHe)]; [repeat split; discriminate|].
split; [|split].
- intros s v r. cbn [parse_value].
  pose proof (skip_ws_length s) as Hws.
  destruct (skip_ws s) as [|c r0]; [discriminate|]. cbn [String.length] in Hws.
  destruct (Ascii.eqb c "{").
  { destruct (after "}" (skip_ws r0)) as [r'|] eqn:Ha.
    - intros [= _ <-]. apply after_skip_ws_length in Ha. lia.
    - destruct (parse_members f r0) as [[fs r']|] eqn:Hm; [|discriminate].
      intros [= _ <-]. apply IHm in Hm. lia. }
  destruct (Ascii.eqb c "[").
  { destruct (after "]" (skip_ws r0)) as [r'|] eqn:Ha.
    - intros [= _ <-]. apply after_skip_ws_length in Ha. lia.
    - destruct (parse_elements f r0) as [[vs r']|] eqn:He; [|discriminate].
      intros [= _ <-]. apply IHe in He. lia. }
  destruct (Ascii.eqb c DQ).
  { destruct (parse_chars r0) as [[v0 r']|] eqn:Hc; [|discriminate].
    intros [= _ <-]. apply parse_chars_length in Hc. lia. }
  intros H. apply parse_literal_length in H. cbn [String.length] in H. lia.
- intros s fs r. cbn [parse_members].
  destruct (after DQ (skip_ws s)) as [r0|] eqn:H0; [|discriminate].
  apply after_skip_ws_length in H0.
  destruct (parse_chars r0) as [[k r1]|] eqn:H1; [|discriminate].
  apply parse_chars_length in H1.
  destruct (after ":" (skip_ws r1)) as [r2|] eqn:H2; [|discriminate].
  apply after_skip_ws_length in H2.
  destruct (parse_value f r2) as [[v r3]|] eqn:H3; [|discriminate].
  apply IHv in H3.
  destruct (after "," (skip_ws r3)) as [r4|] eqn:H4.
  + apply after_skip_ws_length in H4.
    destruct (parse_members f r4) as [[fs' r5]|] eqn:H5; [|discriminate].
    apply IHm in H5. intros [= _ <-]. lia.
  + destruct (after "}" (skip_ws r3)) as [r4|] eqn:H5; [|discriminate].
    apply after_skip_ws_length in H5. intros [= _ <-]. lia.
- intros s vs r. cbn [parse_elements].
  destruct (parse_value f s) as [[v r1]|] eqn:H1; [|discriminate].
  apply IHv in H1.
  destruct (after "," (skip_ws r1)) as [r2|] eqn:H2.
  + apply after_skip_ws_length in H2.
    destruct (parse_elements f r2) as [[vs' r3]|] eqn:H3; [|discriminate].
    apply IHe in H3. intros [= _ <-]. lia.
  + destruct (after "]" (skip_ws r1)) as [r2|] eqn:H3; [|discriminate].
    apply after_skip_ws_length in H3. intros [= _ <-]. lia.
Qed.

(** With fuel above twice the length of the text, more fuel changes
    nothing. *)
Lemma parse_stable (f : nat) :
  forall f', (f <= f')%nat ->
  (forall s, (2 * String.length s + 1 <= f)%nat -> parse_value f' s = parse_value f s)
  /\ (forall s, (2 * String.length s + 1 <= f)%nat ->
                parse_members f' s = parse_members f s)
  /\ (forall s, (2 * String.length s + 2 <= f)%nat ->
                parse_elements f' s = parse_elements f s).
Proof.
induction f as [|f IH]; intros f' Hle; [repeat split; intros s H; lia|].
destruct f' as [|f']; [lia|].
assert (Hle' : (f <= f')%nat) by lia.
destruct (IH f' Hle') as (IHv & IHm & IHe).
pose proof (parse_consumes f) as (Cv & Cm & Ce).
split; [|split].
- intros s Hs. cbn [parse_value].
  pose proof (skip_ws_length s) as Hws.
  destruct (skip_ws s) as [|c r0]; [reflexivity|]. cbn [String.length] in Hws.
  rewrite (IHm r0) by lia. rewrite (IHe r0) by lia. reflexivity.
- intros s Hs. cbn [parse_members].
  destruct (after DQ (skip_ws s)) as [r0|] eqn:H0; [|reflexivity].
  apply after_skip_ws_length in H0.
  destruct (parse_chars r0) as [[k r1]|] eqn:H1; [|reflexivity].
  apply parse_chars_length in H1.
  destruct (after ":" (skip_ws r1)) as [r2|] eqn:H2; [|reflexivity].
  apply after_skip_ws_length in H2.
  rewrite (IHv r2) by lia.
  destruct (parse_value f r2) as [[v r3]|] eqn:H3; [|reflexivity].
  apply Cv in H3.
  destruct (after "," (skip_ws r3)) as [r4|] eqn:H4; [|reflexivity].
  apply after_skip_ws_length in H4.
  rewrite (IHm r4) by lia. reflexivity.
- intros s Hs. cbn [parse_elements].
  rewrite (IHv s) by lia.
  destruct (parse_value f s) as [[v r1]|] eqn:H1; [|reflexivity].
  apply Cv in H1.
  destruct (after "," (skip_ws r1)) as [r2|] eqn:H2; [|reflexivity].
  apply after_skip_ws_length in H2.
  rewrite (IHe r2) by lia. reflexivity.
Qed.

(** [JSON.parse] gives [parse_value] enough fuel: any more of it changes
    no result, neither a value nor a SyntaxError. *)
Lemma parse_fuel_adequate (text : string) (more : nat) :
  parse_value (more + fuel_for text) text = parse_value (fuel_for text) text.
Proof.
apply (parse_stable (fuel_for text) (more + fuel_for text)); unfold fuel_for; lia.
Qed.

End Fuel.

(** ** The token store *)

Section TokenStore.
Import TokenManager.

Lemma getItem_removeItem (ls : Storage.t) (k : string) :
  Storage.getItem (Storage.removeItem ls k) k = None.
Proof. unfold Storage.getItem, Storage.removeItem. cbn. apply lookup_delete_eq. Qed.

Lemma getItem_setItem (ls ls' : Storage.t) (k v : string) :
  Storage.setItem ls k v = Some ls' -> Storage.getItem ls' k = Some v.
Proof.
  unfold Storage.setItem, Storage.getItem.
  destruct (Storage.accepts ls (Storage.items ls) k v); [|discriminate].
  intros [= <-]. cbn. apply lookup_insert_eq.
Qed.

Lemma is_empty_true (s : string) : is_empty s = true <-> s = EmptyString.
Proof. destruct s; cbn; split; congruence. Qed.

Lemma is_empty_false (s : string) : is_empty s = false <-> s <> EmptyString.
Proof. destruct s; cbn; split; congruence. Qed.

(** A value passes the structure check exactly when it is an object whose
    [token] is truthy. *)
Lemma invalid_structure_false (parsed : JSValue) :
  invalid_structure parsed = false <->
  exists fields tok, parsed = JObj fields
                     /\ lookup_field fields "token" = Some tok
                     /\ truthy tok = true.
Proof.
  unfold invalid_structure. split.
  - destruct parsed as [| |b|q|s|fields|items]; cbn; try discriminate;
      try (destruct b; discriminate);
      try (rewrite orb_true_r; discriminate).
    + destruct (lookup_field fields "token") as [tok|] eqn:E; cbn; [|discriminate].
      intros H. exists fields, tok. repeat split; auto.
      now destruct (truthy tok).
  - intros (fields & tok & -> & Hl & Ht). cbn. now rewrite Hl; cbn; rewrite Ht.
Qed.

Lemma getStoredToken_absent (ls : Storage.t) :
  Storage.getItem ls storageKey = None -> getStoredToken ls = (JNull, ls).
Proof. unfold getStoredToken. now intros ->. Qed.

Lemma getStoredToken_cleared (ls : Storage.t) :
  getStoredToken (snd (clearStoredToken ls)) = (JNull, snd (clearStoredToken ls)).
Proof. apply getStoredToken_absent, getItem_removeItem. Qed.

(** Reading either finds a truthy token and leaves the storage alone, or
    finds none; then the storage is left alone or loses the key. *)
Lemma getStoredToken_cases (ls : Storage.t) :
  (truthy (fst (getStoredToken ls)) = true /\ snd (getStoredToken ls) = ls)
  \/ (fst (getStoredToken ls) = JNull
      /\ (snd (getStoredToken ls) = ls
          \/ snd (getStoredToken ls) = snd (clearStoredToken ls))).
Proof.
  unfold getStoredToken.
  destruct (Storage.getItem ls storageKey) as [storedData|]; [|right; auto].
  destruct (is_empty storedData); [right; auto|].
  destruct (JSON.parse storedData) as [parsed|]; [|right; auto].
  destruct (invalid_structure parsed) eqn:E; [right; auto|].
  left. apply invalid_structure_false in E as (fields & tok & -> & Hl & Ht).
  cbn. now rewrite Hl.
Qed.

Lemma getStoredToken_falsy (ls : Storage.t) :
  truthy (fst (getStoredToken ls)) = false -> fst (getStoredToken ls) = JNull.
Proof.
  destruct (getStoredToken_cases ls) as [[Ht _]|[Hn _]]; [congruence | auto].
Qed.

(** A second read sees what the first one saw. *)
Lemma getStoredToken_again (ls : Storage.t) :
  getStoredToken (snd (getStoredToken ls))
  = (fst (getStoredToken ls), snd (getStoredToken ls)).
Proof.
  destruct (getStoredToken_cases ls) as [[_ Hs]|[Hn [Hs|Hs]]].
  - transitivity (getStoredToken ls); [now f_equal | apply surjective_pairing].
  - transitivity (getStoredToken ls); [now f_equal | apply surjective_pairing].
  - rewrite Hs, Hn. apply getStoredToken_cleared.
Qed.

Lemma getTokenData_getStoredToken (ls : Storage.t) :
  snd (getTokenData ls) = snd (getStoredToken ls)
  /\ truthy (fst (getTokenData ls)) = truthy (fst (getStoredToken ls)).
Proof.
  unfold getTokenData, getStoredToken.
  destruct (Storage.getItem ls storageKey) as [storedData|]; [|auto].
  destruct (is_empty storedData); [auto|].
  destruct (JSON.parse storedData) as [parsed|]; [|auto].
  destruct (invalid_structure parsed) eqn:E; [auto|].
  apply invalid_structure_false in E as (fields & tok & -> & Hl & Ht).
  cbn. now rewrite Hl.
Qed.

Lemma isTokenExpired_storage (maxAge : Q) (now : Z) (ls : Storage.t) :
  snd (isTokenExpired maxAge now ls) = snd (getStoredToken ls).
Proof.
  unfold isTokenExpired, getTokenAge.
  destruct (getTokenData_getStoredToken ls) as [<- _].
  destruct (getTokenData ls) as [d ls']. cbn.
  destruct (truthy d); cbn; [|reflexivity].
  now destruct (truthy _).
Qed.

(** What [storeToken] wrote reads back as the token. *)
Lemma getStoredToken_stored (t : string) (now : Z) (ls ls' : Storage.t) :
  t <> EmptyString ->
  Storage.setItem ls storageKey (stringify_tokenData t now) = Some ls' ->
  getStoredToken ls' = (JStr t, ls').
Proof.
  intros Ht Hset. unfold getStoredToken.
  rewrite (getItem_setItem _ _ _ _ Hset).
  assert (He : is_empty (stringify_tokenData t now) = false) by reflexivity.
  rewrite He, parse_stringify_tokenData.
  assert (Hi : invalid_structure
                 (JObj [("token", JStr t); ("timestamp", JNum (inject_Z now))]) = false).
  { apply invalid_structure_false. eexists _, _. repeat split.
    cbn. now apply is_empty_false in Ht as ->. }
  now rewrite Hi.
Qed.

Lemma storeToken_true (token : JSValue) (now : Z) (ls ls' : Storage.t) :
  storeToken token now ls = (true, ls') ->
  exists t, token = JStr t /\ t <> EmptyString
            /\ Storage.setItem ls storageKey (stringify_tokenData t now) = Some ls'.
Proof.
  unfold storeToken.
  destruct (negb (truthy token) || negb (typeof_string token)) eqn:E; [discriminate|].
  destruct token as [| |b|q|t|fields|items]; try discriminate.
  destruct (Storage.setItem _ _ _) as [ls1|] eqn:Hset; [|discriminate].
  intros [= <-]. exists t. split; [reflexivity|]. split; [|exact Hset].
  cbn in E. rewrite orb_false_r in E. apply negb_false_iff in E.
  apply is_empty_false. now destruct (is_empty t).
Qed.

Lemma storeToken_false (token : JSValue) (now : Z) (ls : Storage.t) :
  fst (storeToken token now ls) = false -> snd (storeToken token now ls) = ls.
Proof.
  unfold storeToken.
  destruct (negb (truthy token) || negb (typeof_string token)); [reflexivity|].
  destruct token; try reflexivity.
  destruct (Storage.setItem _ _ _); [discriminate | reflexivity].
Qed.

End TokenStore.

Section TokenClaims.
Import TokenManager Examples.

Lemma gt_Fin (q m : Q) : ToNumber.gt (ToNumber.Fin q) m = true <-> (m < q)%Q.
Proof.
cbn. rewrite negb_true_iff. split.
- intros H. apply Qnot_le_lt. intros Hle. apply Qle_bool_iff in Hle. congruence.
- intros H. destruct (Qle_bool q m) eqn:E; [|reflexivity].
  apply Qle_bool_iff in E. exfalso. exact (Qlt_not_le _ _ H E).
Qed.

Lemma truthy_JNum (q : Q) : truthy (JNum q) = true <-> ~ (q == 0)%Q.
Proof.
cbn. rewrite negb_true_iff. split.
- intros H Hq. apply Qeq_bool_iff in Hq. congruence.
- intros H. destruct (Qeq_bool q 0) eqn:E; [|reflexivity].
  apply Qeq_bool_iff in E. contradiction.
Qed.

(** The data read for a payload that holds an object with a truthy token. *)
Lemma getTokenData_record (ls : Storage.t) (payload : string)
  (fields : list (string * JSValue)) (tok : JSValue) :
  Storage.getItem ls storageKey = Some payload ->
  payload <> EmptyString ->
  JSON.parse payload = Some (JObj fields) ->
  lookup_field fields "token" = Some tok ->
  truthy tok = true ->
  getTokenData ls = (JObj fields, ls).
Proof.
intros Hget Hne Hparse Htok Ht. unfold getTokenData.
rewrite Hget. apply is_empty_false in Hne. rewrite Hne, Hparse.
assert (Hi : invalid_structure (JObj fields) = false).
{ apply invalid_structure_false. eauto. }
now rewrite Hi.
Qed.

(** C9. [storeToken] returns [false] and leaves the storage as it was for
    every argument that is [null], [undefined], the empty string or not a
    string, and whenever the write fails; it returns [true] only for a
    non-empty string whose record [{token, timestamp}] the storage
    accepted, and then the key holds exactly that record. *)
Theorem storeToken_writes_only_valid_tokens (token : JSValue) (now : Z) (ls : Storage.t) :
  (match token with JStr t => t = EmptyString | _ => True end ->
   storeToken token now ls = (false, ls))
  /\ (fst (storeToken token now ls) = false -> snd (storeToken token now ls) = ls)
  /\ (forall ls', storeToken token now ls = (true, ls') ->
      exists t, token = JStr t /\ t <> EmptyString
        /\ Storage.setItem ls storageKey (stringify_tokenData t now) = Some ls'
        /\ Storage.getItem ls' storageKey = Some (stringify_tokenData t now)
        /\ JSON.parse (stringify_tokenData t now)
           = Some (JObj [("token", JStr t); ("timestamp", JNum (inject_Z now))])).
Proof.
split; [|split].
- intros H. unfold storeToken.
  destruct token as [| |b|q|t|fields|items]; try subst t; cbn;
    rewrite ?orb_true_r; reflexivity.
- apply storeToken_false.
- intros ls' H. destruct (storeToken_true _ _ _ _ H) as (t & -> & Hne & Hset).
  exists t. repeat split; auto.
  + eapply getItem_setItem; eauto.
  + apply parse_stringify_tokenData.
Qed.

(** The store rejects [null] and the empty string, refuses to report
    success on a storage that is full, and writes the record of [abc]. *)
Lemma storeToken_writes_only_valid_tokens_witness :
  storeToken JNull 1000 empty_storage = (false, empty_storage)
  /\ storeToken (JStr "") 1000 empty_storage = (false, empty_storage)
  /\ snd (storeToken (JStr "abc") 1000 full_storage) = full_storage
  /\ storeToken (JStr "abc") 1000 empty_storage = (true, storage_with record_abc).
Proof.
split; [|split; [|split]].
- apply (proj1 (storeToken_writes_only_valid_tokens JNull 1000 empty_storage)). exact I.
- apply (proj1 (storeToken_writes_only_valid_tokens (JStr "") 1000 empty_storage)).
  reflexivity.
- apply (proj1 (proj2 (storeToken_writes_only_valid_tokens (JStr "abc") 1000 full_storage))).
  reflexivity.
- vm_compute. reflexivity.
Defined.

(** C10. With no record stored, or with a stored record that has no
    [timestamp] field, [isTokenExpired] answers [false] for every
    [maxAge]. *)
Theorem isTokenExpired_false_without_session (maxAge : Q) (now : Z) (ls : Storage.t) :
  Storage.getItem ls storageKey = None
  \/ (exists payload fields,
        Storage.getItem ls storageKey = Some payload
        /\ JSON.parse payload = Some (JObj fields)
        /\ lookup_field fields "timestamp" = None) ->
  fst (isTokenExpired maxAge now ls) = false.
Proof.
intros [Hnone | (payload & fields & Hget & Hparse & Hts)];
  unfold isTokenExpired, getTokenAge, getTokenData.
- now rewrite Hnone.
- rewrite Hget. destruct (is_empty payload); [reflexivity|].
  rewrite Hparse. destruct (invalid_structure (JObj fields)); [reflexivity|].
  cbn. now rewrite Hts.
Qed.

Lemma isTokenExpired_false_without_session_witness :
  fst (isTokenExpired 0 5000 empty_storage) = false
  /\ fst (isTokenExpired 0 5000 (storage_with (dq "{'token':'abc'}"))) = false.
Proof.
split.
- apply isTokenExpired_false_without_session. left. reflexivity.
- apply isTokenExpired_false_without_session. right.
  exists (dq "{'token':'abc'}"), [("token", JStr "abc")].
  repeat split; vm_compute; reflexivity.
Defined.

Lemma truthy_time (q : Q) (ts : Z) :
  (q == inject_Z ts)%Q -> truthy (JNum q) = negb (ts =? 0).
Proof.
intros Hq. cbn [truthy]. f_equal.
destruct (Z.eqb_spec ts 0) as [-> | Hnz].
- now apply Qeq_bool_iff.
- destruct (Qeq_bool q 0) eqn:E; [|reflexivity].
  apply Qeq_bool_iff in E. rewrite Hq in E.
  unfold Qeq in E. cbn in E. lia.
Qed.

(** The age of a stored record with a truthy token and a number as
    timestamp. *)
Lemma getTokenAge_record (now : Z) (ls : Storage.t) (payload : string)
  (fields : list (string * JSValue)) (tok : JSValue) (q : Q) (ts : Z) :
  Storage.getItem ls storageKey = Some payload ->
  JSON.parse payload = Some (JObj fields) ->
  lookup_field fields "token" = Some tok ->
  truthy tok = true ->
  lookup_field fields "timestamp" = Some (JNum q) ->
  (q == inject_Z ts)%Q ->
  getTokenAge now ls
  = (if ts =? 0 then None else Some (ToNumber.Fin (inject_Z now - q)), ls).
Proof.
intros Hget Hparse Htok Ht Hts Hq.
assert (Hne : payload <> EmptyString) by (intros ->; discriminate).
unfold getTokenAge.
rewrite (getTokenData_record _ _ _ _ Hget Hne Hparse Htok Ht).
cbn [truthy negb get]. rewrite Hts. cbv [from_option id default].
rewrite (truthy_time q ts Hq). now destruct (ts =? 0).
Qed.

(** C8, as amended.  A stored record with a truthy token and a time as
    timestamp (a whole number of milliseconds from the epoch, within the
    range of [Date], as [now] is: the subtraction of the code is exact
    between such times) is expired for [maxAge] exactly when its
    timestamp is not 0 and [now - timestamp > maxAge]; when
    [now - timestamp] equals [maxAge] it is not expired.  A timestamp
    other than 0 gives the age [now - timestamp]; the timestamp 0 is
    falsy and gives no age, so that such a record never expires. *)
Theorem isTokenExpired_iff_age_above_maxAge (maxAge : Q) (now : Z) (ls : Storage.t)
  (payload : string) (fields : list (string * JSValue)) (tok : JSValue)
  (q : Q) (ts : Z) :
  Storage.getItem ls storageKey = Some payload ->
  JSON.parse payload = Some (JObj fields) ->
  lookup_field fields "token" = Some tok ->
  truthy tok = true ->
  lookup_field fields "timestamp" = Some (JNum q) ->
  (q == inject_Z ts)%Q ->
  0 <= ts <= 8640000000000000 ->
  0 <= now <= 8640000000000000 ->
  (fst (isTokenExpired maxAge now ls) = true
   <-> ts <> 0 /\ (maxAge < inject_Z (now - ts))%Q)
  /\ ((maxAge == inject_Z (now - ts))%Q -> fst (isTokenExpired maxAge now ls) = false)
  /\ (ts <> 0 ->
      exists age, fst (getTokenAge now ls) = Some (ToNumber.Fin age)
                  /\ (age == inject_Z (now - ts))%Q)
  /\ (ts = 0 ->
      fst (getTokenAge now ls) = None
      /\ forall limit, fst (isTokenExpired limit now ls) = false).
Proof.
intros Hget Hparse Htok Ht Hts Hq _ _.
pose proof (getTokenAge_record now ls payload fields tok q ts Hget Hparse Htok Ht Hts Hq)
  as Hage.
assert (Hdiff : (inject_Z now - q == inject_Z (now - ts))%Q).
{ rewrite Hq. unfold Z.sub. rewrite inject_Z_plus, inject_Z_opp. reflexivity. }
assert (Hexp : fst (isTokenExpired maxAge now ls) = true
               <-> ts <> 0 /\ (maxAge < inject_Z (now - ts))%Q).
{ unfold isTokenExpired. rewrite Hage. cbn [fst].
  destruct (Z.eqb_spec ts 0) as [-> | Hnz].
  - split; [discriminate | now intros [Hz _]].
  - rewrite gt_Fin, Hdiff. tauto. }
split; [exact Hexp|]. split; [|split].
- intros Heq. apply not_true_is_false. intros E.
  apply Hexp in E as [_ E]. rewrite Heq in E. exfalso. exact (Qlt_irrefl _ E).
- intros Hnz. exists (inject_Z now - q)%Q. rewrite Hage. cbn [fst].
  apply Z.eqb_neq in Hnz. rewrite Hnz. split; [reflexivity | exact Hdiff].
- intros ->. unfold isTokenExpired. rewrite Hage. cbn [fst]. split; [reflexivity|].
  intros limit. reflexivity.
Qed.

(** The record stored at time 1000 is expired at time 5001 for a maximum
    age of 4000 and not at time 5000, where the age is the maximum. *)
Lemma isTokenExpired_iff_age_above_maxAge_witness :
  fst (isTokenExpired 4000 5001 (storage_with record_abc)) = true
  /\ fst (isTokenExpired 4000 5000 (storage_with record_abc)) = false.
Proof.
assert (H : forall now, 0 <= now <= 8640000000000000 ->
  (fst (isTokenExpired 4000 now (storage_with record_abc)) = true
   <-> 1000 <> 0 /\ (4000 < inject_Z (now - 1000))%Q)
  /\ ((4000 == inject_Z (now - 1000))%Q ->
      fst (isTokenExpired 4000 now (storage_with record_abc)) = false)).
{ intros now Hnow.
  destruct (isTokenExpired_iff_age_above_maxAge 4000 now (storage_with record_abc)
              record_abc [("token", JStr "abc"); ("timestamp", JNum 1000)] (JStr "abc")
              1000%Q 1000)
    as (H1 & H2 & _); try reflexivity; try lia.
  split; [exact H1 | exact H2]. }
split.
- apply (proj1 (H 5001 ltac:(lia))). split; [discriminate | reflexivity].
- apply (proj2 (H 5000 ltac:(lia))). reflexivity.
Defined.

(** C8, the claim as stated fails: for the record whose timestamp is 0,
    read at time 100, [now - timestamp] is 100, above the maximum age 50,
    yet the record has no age and is not expired. *)
Lemma isTokenExpired_false_at_timestamp_zero :
  JSON.parse record_at_epoch
  = Some (JObj [("token", JStr "abc"); ("timestamp", JNum 0)])
  /\ fst (getStoredToken (storage_with record_at_epoch)) = JStr "abc"
  /\ (50 < inject_Z 100 - 0)%Q
  /\ fst (getTokenAge 100 (storage_with record_at_epoch)) = None
  /\ fst (isTokenExpired 50 100 (storage_with record_at_epoch)) = false.
Proof. repeat split. Qed.

(** C6, as amended.  When the token key holds a payload that does not
    parse to an object with a truthy [token], [getStoredToken] returns
    [null]; a payload that is not the empty string is removed from the
    storage, and the empty string is left in place. *)
Theorem getStoredToken_heals_corrupt_payload (ls : Storage.t) (payload : string) :
  Storage.getItem ls storageKey = Some payload ->
  (forall fields tok,
     JSON.parse payload = Some (JObj fields) ->
     lookup_field fields "token" = Some tok -> truthy tok = false) ->
  fst (getStoredToken ls) = JNull
  /\ (payload <> EmptyString ->
      snd (getStoredToken ls) = Storage.removeItem ls storageKey
      /\ Storage.getItem (snd (getStoredToken ls)) storageKey = None)
  /\ (payload = EmptyString -> snd (getStoredToken ls) = ls).
Proof.
intros Hget Hbad. unfold getStoredToken. rewrite Hget.
destruct (is_empty payload) eqn:He.
- apply is_empty_true in He. split; [reflexivity|]. split; [|reflexivity].
  intros Hne. contradiction.
- assert (Hclear :
    match JSON.parse payload with
    | Some parsed =>
        if invalid_structure parsed
        then (JNull, snd (clearStoredToken ls))
        else (default JUndefined (get parsed "token"), ls)
    | None => (JNull, snd (clearStoredToken ls))
    end = (JNull, Storage.removeItem ls storageKey)).
  { destruct (JSON.parse payload) as [parsed|]; [|reflexivity].
    destruct (invalid_structure parsed) eqn:E; [reflexivity|].
    apply invalid_structure_false in E as (fields & tok & -> & Hl & Ht).
    rewrite (Hbad fields tok eq_refl Hl) in Ht. discriminate. }
  rewrite Hclear. cbn [fst snd]. split; [reflexivity|]. split.
  + intros _. split; [reflexivity | apply getItem_removeItem].
  + intros ->. discriminate.
Qed.

(** The payload of the repository's own test, [invalid-json], is removed. *)
Lemma getStoredToken_heals_corrupt_payload_witness :
  fst (getStoredToken (storage_with "invalid-json")) = JNull
  /\ Storage.getItem (snd (getStoredToken (storage_with "invalid-json"))) storageKey = None.
Proof.
assert (Hbad : forall fields tok,
  JSON.parse "invalid-json" = Some (JObj fields) ->
  lookup_field fields "token" = Some tok -> truthy tok = false).
{ intros fields tok H. vm_compute in H. discriminate. }
destruct (getStoredToken_heals_corrupt_payload
            (storage_with "invalid-json") "invalid-json" eq_refl Hbad)
  as (Hnull & Hrm & _).
split; [exact Hnull|]. apply Hrm. discriminate.
Defined.

(** C6, the claim as stated fails: the empty string at the token key is
    not JSON text, it is read as absence, and the key stays. *)
Lemma getStoredToken_keeps_empty_payload :
  Storage.getItem (storage_with "") storageKey = Some EmptyString
  /\ JSON.parse "" = None
  /\ fst (getStoredToken (storage_with "")) = JNull
  /\ Storage.getItem (snd (getStoredToken (storage_with ""))) storageKey = Some EmptyString.
Proof. repeat split. Qed.

End TokenClaims.

(** ** Session policy and the request gateway *)

Section Gateway.
Import TokenManager HttpClient Examples.

Lemma append_nil_r (s : string) : append s EmptyString = s.
Proof. induction s as [|c s IH]; cbn; [reflexivity | now rewrite IH]. Qed.

Lemma startsWith_spec (s p : string) :
  startsWith s p = true <-> exists after, s = append p after.
Proof.
revert s. induction p as [|b p IH]; intros s.
- split; [intros _; now exists s | now destruct s].
- destruct s as [|a s]; cbn.
  + split; [discriminate | intros (after & H); discriminate].
  + destruct (Ascii.eqb_spec a b) as [->|Hne].
    * rewrite IH. split; intros (after & H); exists after; congruence.
    * split; [discriminate | intros (after & H); congruence].
Qed.

Lemma includes_spec (s p : string) :
  includes s p = true <-> exists before after, s = append before (append p after).
Proof.
induction s as [|a s IH].
- cbn [includes]. rewrite orb_false_r, startsWith_spec. split.
  + intros (after & H). now exists EmptyString, after.
  + intros (before & after & H). destruct before; [now exists after|discriminate].
- cbn [includes]. rewrite orb_true_iff, IH, startsWith_spec. split.
  + intros [(after & H) | (before & after & H)].
    * now exists EmptyString, after.
    * exists (String a before), after. cbn. now rewrite H.
  + intros (before & after & H). destruct before as [|b before].
    * left. now exists after.
    * right. exists before, after. cbn in H. congruence.
Qed.

Lemma isPublicEndpoint_spec (path : string) :
  apiConfig.isPublicEndpoint path = true <->
  exists p, In p API_CONFIG.PUBLIC_ENDPOINTS /\ includes path p = true.
Proof.
unfold apiConfig.isPublicEndpoint. rewrite existsb_exists. reflexivity.
Qed.

(** A URL that requires authentication is no login request. *)
Lemma requiresAuth_not_login (url : string) :
  requiresAuth url = true -> isLoginRequest url = false.
Proof.
unfold requiresAuth, isLoginRequest. intros H.
apply andb_true_iff in H as [_ H]. apply negb_true_iff in H.
destruct (includes url API_CONFIG.LOGIN) eqn:E; [|reflexivity].
assert (Hp : apiConfig.isPublicEndpoint url = true).
{ apply isPublicEndpoint_spec. exists API_CONFIG.LOGIN. split; [now left | exact E]. }
congruence.
Qed.

(** C5, as amended.  [isPublicEndpoint(path)] is [true] exactly when the
    path contains one of the declared public endpoints as a substring;
    [requiresAuth(path)] is [true] exactly when the path starts with
    [/api/] and is not public.  So under [/api/] [requiresAuth] is the
    negation of [isPublicEndpoint], outside it no path requires a
    credential, and the declared endpoints themselves are public. *)
Theorem isPublicEndpoint_by_substring (path : string) :
  (apiConfig.isPublicEndpoint path = true <->
   exists p before after,
     In p API_CONFIG.PUBLIC_ENDPOINTS /\ path = append before (append p after))
  /\ requiresAuth path = startsWith path "/api/" && negb (apiConfig.isPublicEndpoint path)
  /\ (startsWith path "/api/" = true ->
      requiresAuth path = negb (apiConfig.isPublicEndpoint path))
  /\ (startsWith path "/api/" = false -> requiresAuth path = false)
  /\ (In path API_CONFIG.PUBLIC_ENDPOINTS ->
      apiConfig.isPublicEndpoint path = true /\ requiresAuth path = false).
Proof.
split; [|split; [|split; [|split]]].
- rewrite isPublicEndpoint_spec. split.
  + intros (p & Hin & Hinc). apply includes_spec in Hinc as (before & after & H).
    now exists p, before, after.
  + intros (p & before & after & Hin & H). exists p. split; [exact Hin|].
    apply includes_spec. now exists before, after.
- reflexivity.
- unfold requiresAuth. now intros ->.
- unfold requiresAuth. now intros ->.
- intros Hin.
  assert (Hp : apiConfig.isPublicEndpoint path = true).
  { apply isPublicEndpoint_spec. exists path. split; [exact Hin|].
    apply includes_spec. exists EmptyString, EmptyString. cbn. now rewrite append_nil_r. }
  split; [exact Hp|]. unfold requiresAuth. rewrite Hp. apply andb_false_r.
Qed.

(** C5, the claim as stated fails: [/api/login-history] is neither the
    login endpoint nor a declared public endpoint and still public, and
    [/home] is not public and still requires no credential. *)
Lemma isPublicEndpoint_not_exact :
  apiConfig.isPublicEndpoint "/api/login-history" = true
  /\ ~ In "/api/login-history"%string API_CONFIG.PUBLIC_ENDPOINTS
  /\ apiConfig.isPublicEndpoint "/home" = false
  /\ requiresAuth "/home" = false.
Proof.
split; [reflexivity|]. split; [|split; reflexivity].
cbn. intros [H|[H|[H|[]]]]; discriminate.
Qed.

(** C2.  With no usable token in the storage, a request that does not skip
    authentication to a URL that requires it throws the error of
    [AuthRequired] and [fetch] is not called; so do [get] of the client
    and of the agent for [/api/mode]. *)
Theorem request_without_token_is_not_sent (w : World) (net : FetchOutcome) :
  truthy (fst (getStoredToken (storage w))) = false ->
  (forall url options,
     skipAuth options = false -> requiresAuth url = true ->
     fst (request w url options net) = Throw AuthRequired
     /\ fetched (snd (request w url options net)) = fetched w)
  /\ fst (HttpClient.get w API_CONFIG.MODE net) = Throw AuthRequired
  /\ fetched (snd (HttpClient.get w API_CONFIG.MODE net)) = fetched w
  /\ fst (HttpRequestAgent.get w API_CONFIG.MODE net)
     = Throw (Error "Authentication required but no token available")
  /\ fetched (snd (HttpRequestAgent.get w API_CONFIG.MODE net)) = fetched w.
Proof.
intros Hno.
assert (Hgen : forall url options,
  skipAuth options = false -> requiresAuth url = true ->
  request w url options net
  = (Throw AuthRequired, with_storage w (snd (getStoredToken (storage w))))).
{ intros url options Hskip Hreq. unfold request, prepare.
  rewrite Hskip, (requiresAuth_not_login _ Hreq). cbn [negb andb].
  destruct (getStoredToken (storage w)) as [token ls]. cbn [fst snd] in *.
  now rewrite Hno, Hreq. }
split; [|split; [|split; [|split]]].
- intros url options Hskip Hreq. now rewrite (Hgen url options Hskip Hreq).
- unfold HttpClient.get. now rewrite Hgen.
- unfold HttpClient.get. now rewrite Hgen.
- unfold HttpRequestAgent.get, HttpClient.get. now rewrite Hgen.
- unfold HttpRequestAgent.get, HttpClient.get. now rewrite Hgen.
Qed.

(** A GET of [/api/mode] with an empty storage: the error, and no call. *)
Lemma request_without_token_is_not_sent_witness :
  let w := world_with empty_storage AuthSlice.initialState false in
  let net := Responded 1 (ok_response (dq "{'mode':'auto'}")) in
  fst (HttpClient.get w API_CONFIG.MODE net) = Throw AuthRequired
  /\ fetched (snd (HttpClient.get w API_CONFIG.MODE net)) = [].
Proof.
intros w net.
destruct (request_without_token_is_not_sent w net eq_refl) as (_ & H1 & H2 & _).
split; [exact H1 | exact H2].
Defined.

End Gateway.

(** ** The body parser *)

Section BodyParser.
Import HttpRequestAgent Examples.

Lemma substring0_length (n : nat) (s : string) : (len (substring0 n s) <= n)%nat.
Proof.
revert s. induction n as [|n IH]; intros s; [destruct s; cbn; lia|].
destruct s as [|c s]; cbn; [lia|]. specialize (IH s). unfold len in IH. lia.
Qed.


Lemma hex_digit_not_control (n : nat) : is_control (hex_digit n) = false.
Proof. do 15 (destruct n as [|n]; [reflexivity|]). reflexivity. Qed.

(** Cleaning leaves no control character, and changes nothing in a text
    that has none. *)
Lemma cleanJsonString_no_control (text : string) :
  formValidation.all_chars (fun c => negb (is_control c)) (_cleanJsonString text) = true.
Proof.
induction text as [|c text IH]; [reflexivity|]. cbn [_cleanJsonString].
destruct (is_control c) eqn:E.
- unfold u_escape. cbn [append formValidation.all_chars].
  rewrite IH, !hex_digit_not_control. reflexivity.
- cbn [formValidation.all_chars]. now rewrite E, IH.
Qed.

Lemma cleanJsonString_id (text : string) :
  formValidation.all_chars (fun c => negb (is_control c)) text = true ->
  _cleanJsonString text = text.
Proof.
induction text as [|c text IH]; [reflexivity|]. cbn.
intros H. apply andb_true_iff in H as [Hc Ht]. apply negb_true_iff in Hc.
now rewrite Hc, IH.
Qed.









End BodyParser.

(** ** Authorization failures *)

Section AuthFailure.
Import TokenManager HttpClient InFlight Examples.

Lemma dispatch_clearAuthToken_world (w : World) :
  Store.dispatch_clearAuthToken w
  = mkWorld (Storage.removeItem (storage w) storageKey)
            (mkAuth JNull false (isLoading (auth w)) (isInitializing (auth w))
                    (error (auth w)) JNull)
            true (events w) (fetched w) (console w) (clock w) (syntaxErrorMessage w).
Proof. reflexivity. Qed.

Lemma getItem_removeItem_absent (ls : Storage.t) (k : string) :
  Storage.getItem ls k = None -> Storage.removeItem ls k = ls.
Proof.
destruct ls as [items acc]. unfold Storage.getItem, Storage.removeItem. cbn.
intros H. f_equal. now apply delete_id.
Qed.

(** What [receive] does with a response of status 401 or 403. *)
Lemma receive_rejected (w : World) (url : string) (response : Response) :
  (status response =? 401) || (status response =? 403) = true ->
  receive w url response
  = (Throw (AuthRejected (status response)),
     if authErrorListenerSet w
     then mkWorld (Storage.removeItem (Storage.removeItem (storage w) storageKey) storageKey)
                  (mkAuth JNull false (isLoading (auth w)) (isInitializing (auth w))
                          (error (auth w)) JNull)
                  true (mkEvent (status response) url :: events w)
                  (fetched w) (console w) (clock w) (syntaxErrorMessage w)
     else mkWorld (Storage.removeItem (storage w) storageKey) (auth w) false
                  (mkEvent (status response) url :: events w)
                  (fetched w) (console w) (clock w) (syntaxErrorMessage w)).
Proof.
intros H. unfold receive. rewrite H. unfold Window.dispatchEvent, Window.listener.
destruct w as [ls a listening ev f c t].
cbn [with_event with_storage authErrorListenerSet ev_status snd clearStoredToken
     storage auth events fetched console clock].
destruct listening; [|reflexivity].
rewrite H. reflexivity.
Qed.

Lemma receive_other (w : World) (url : string) (response : Response) :
  (status response =? 401) || (status response =? 403) = false ->
  receive w url response = (Return response, w).
Proof. intros H. unfold receive. now rewrite H. Qed.

Lemma prepare_storage (w : World) (url : string) (options : RequestOptions) :
  Storage.getItem (storage w) storageKey = None ->
  snd (prepare w url options) = w.
Proof.
intros H. unfold prepare.
destruct (negb (skipAuth options) && negb (isLoginRequest url)); [|reflexivity].
rewrite (getStoredToken_absent _ H). cbn [truthy].
destruct w; now destruct (requiresAuth url).
Qed.

Lemma prepare_auth (w : World) (url : string) (options : RequestOptions) :
  auth (snd (prepare w url options)) = auth w
  /\ authErrorListenerSet (snd (prepare w url options)) = authErrorListenerSet w.
Proof.
unfold prepare.
destruct (negb (skipAuth options) && negb (isLoginRequest url)); [|auto].
destruct (getStoredToken (storage w)) as [token ls].
destruct (truthy token); [auto|]. now destruct (requiresAuth url).
Qed.

Lemma step_attentive (w : World) (phase : Phase) :
  attentive w -> attentive (step w phase).
Proof.
unfold attentive. intros H. destruct phase as [url options | url net]; cbn [step].
- destruct (prepare_auth w url options) as [Ha Hl].
  destruct (prepare w url options) as [[call|e] w1]; cbn [snd] in *;
    cbn [with_fetch auth authErrorListenerSet]; now rewrite Ha, Hl.
- unfold settle. destruct net as [t response | t e]; cbn [snd arrival]; [|exact H].
  destruct ((status response =? 401) || (status response =? 403)) eqn:E.
  + rewrite (receive_rejected _ _ _ E). cbn [snd with_clock authErrorListenerSet].
    destruct (authErrorListenerSet w); [now left|]. right. cbn.
    now destruct H.
  + rewrite (receive_other _ _ _ E). exact H.
Qed.

Lemma step_closed (w : World) (phase : Phase) : closed w -> closed (step w phase).
Proof.
unfold closed. intros [Hs Ha]. destruct phase as [url options | url net]; cbn [step].
- pose proof (prepare_storage w url options Hs) as Hp.
  destruct (prepare w url options) as [[call|e] w1]; cbn [snd] in Hp; subst w1;
    cbn [with_fetch storage auth]; auto.
- unfold settle. destruct net as [t response | t e]; cbn [snd arrival]; [|auto].
  destruct ((status response =? 401) || (status response =? 403)) eqn:E.
  + rewrite (receive_rejected _ _ _ E). cbn [snd with_clock authErrorListenerSet].
    destruct (authErrorListenerSet w); cbn [storage auth isAuthenticated];
      (split; [apply getItem_removeItem | auto]).
  + rewrite (receive_other _ _ _ E). auto.
Qed.

Lemma step_rejected_closes (w : World) (phase : Phase) :
  attentive w -> rejected phase = true -> closed (step w phase).
Proof.
unfold closed, attentive. intros H Hr.
destruct phase as [url options | url [t response | t e]]; try discriminate.
cbn [rejected] in Hr. cbn [step]. unfold settle. cbn [arrival].
rewrite (receive_rejected _ _ _ Hr). cbn [snd with_clock authErrorListenerSet].
destruct (authErrorListenerSet w); cbn [storage auth isAuthenticated];
  (split; [apply getItem_removeItem|]); [reflexivity | now destruct H].
Qed.

Lemma run_closed (schedule : list Phase) (w : World) : closed w -> closed (run w schedule).
Proof.
revert w. induction schedule as [|phase schedule IH]; intros w H; [exact H|].
apply IH, step_closed, H.
Qed.

(** Every operation of the orchestrator ends with a dispatch, which
    registers the listener. *)
Lemma perform_listens (w : World) (op : Session.Operation) :
  authErrorListenerSet (Session.perform w op) = true.
Proof.
destruct op; cbn [Session.perform].
- unfold Thunks.initializeAuth.
  destruct (HttpRequestAgent.validateToken _ net) as [[valid usr] w2].
  destruct valid; [destruct (getStoredToken (storage w2))|]; reflexivity.
- unfold Thunks.loginUser.
  destruct (HttpRequestAgent.login _ credentials net) as [[data|e] w2]; reflexivity.
- reflexivity.
- unfold Thunks.loadMode.
  destruct (HttpRequestAgent.get _ API_CONFIG.MODE net) as [[data|e] w2];
    [destruct (Js.get data "mode")|]; reflexivity.
- unfold Thunks.updateMode.
  destruct (HttpRequestAgent.post _ API_CONFIG.MODE _ net) as [[data|e] w2]; reflexivity.
- reflexivity.
Qed.

(** In every state the orchestrator reaches, the listener is registered
    or the state is still the unauthenticated one it started with. *)
Lemma reachable_attentive (w : World) : Session.Reachable w -> attentive w.
Proof.
intros [w0 [Ha _] | w0 op _].
- right. now rewrite Ha.
- left. apply perform_listens.
Qed.

(** C1.  A response with status 401 or 403 makes [request] throw the
    error of [AuthRejected], with the token key removed from the storage
    and an [auth-error] event dispatched on [window] before it returns;
    where the listener of the middleware is registered the session state
    is cleared by then, and where none is registered yet the state was
    never authenticated.  Whatever parts of other calls run around it,
    once one call of a schedule received such a response the storage
    holds no token and the state is unauthenticated at the end. *)
Theorem auth_failure_invalidates_session :
  (forall w url response,
     status response = 401 \/ status response = 403 ->
     fst (receive w url response) = Throw (AuthRejected (status response))
     /\ Storage.getItem (storage (snd (receive w url response))) storageKey = None
     /\ fst (hasStoredToken (storage (snd (receive w url response)))) = false
     /\ events (snd (receive w url response)) = mkEvent (status response) url :: events w
     /\ (authErrorListenerSet w = true ->
         auth (snd (receive w url response))
         = mkAuth JNull false (isLoading (auth w)) (isInitializing (auth w))
                  (error (auth w)) JNull)
     /\ (attentive w -> isAuthenticated (auth (snd (receive w url response))) = false))
  /\ (forall w url options t response call w1,
        prepare w url options = (Return call, w1) ->
        status response = 401 \/ status response = 403 ->
        fst (request w url options (Responded t response))
        = Throw (AuthRejected (status response))
        /\ Storage.getItem (storage (snd (request w url options (Responded t response))))
             storageKey = None
        /\ events (snd (request w url options (Responded t response)))
           = mkEvent (status response) url :: events w
        /\ (attentive w ->
            isAuthenticated (auth (snd (request w url options (Responded t response))))
            = false))
  /\ (forall w schedule,
        attentive w ->
        existsb rejected schedule = true ->
        Storage.getItem (storage (run w schedule)) storageKey = None
        /\ fst (hasStoredToken (storage (run w schedule))) = false
        /\ isAuthenticated (auth (run w schedule)) = false)
  /\ (forall w, Session.Reachable w -> attentive w).
Proof.
assert (Hreceive : forall w url response,
     status response = 401 \/ status response = 403 ->
     fst (receive w url response) = Throw (AuthRejected (status response))
     /\ Storage.getItem (storage (snd (receive w url response))) storageKey = None
     /\ fst (hasStoredToken (storage (snd (receive w url response)))) = false
     /\ events (snd (receive w url response)) = mkEvent (status response) url :: events w
     /\ (authErrorListenerSet w = true ->
         auth (snd (receive w url response))
         = mkAuth JNull false (isLoading (auth w)) (isInitializing (auth w))
                  (error (auth w)) JNull)
     /\ (attentive w -> isAuthenticated (auth (snd (receive w url response))) = false)).
2: split; [exact Hreceive | split; [|split; [|exact reachable_attentive]]].
- intros w url response Hst.
  assert (Hr : (status response =? 401) || (status response =? 403) = true).
  { destruct Hst as [-> | ->]; reflexivity. }
  rewrite (receive_rejected _ _ _ Hr). cbn [fst snd].
  assert (Hnone : Storage.getItem
    (storage (if authErrorListenerSet w
       then mkWorld (Storage.removeItem (Storage.removeItem (storage w) storageKey) storageKey)
                    (mkAuth JNull false (isLoading (auth w)) (isInitializing (auth w))
                            (error (auth w)) JNull)
                    true (mkEvent (status response) url :: events w)
                    (fetched w) (console w) (clock w) (syntaxErrorMessage w)
       else mkWorld (Storage.removeItem (storage w) storageKey) (auth w) false
                    (mkEvent (status response) url :: events w)
                    (fetched w) (console w) (clock w) (syntaxErrorMessage w))) storageKey = None).
  { destruct (authErrorListenerSet w); cbn [storage]; apply getItem_removeItem. }
  split; [reflexivity|]. split; [exact Hnone|]. split.
  { unfold hasStoredToken. now rewrite (getStoredToken_absent _ Hnone). }
  split; [now destruct (authErrorListenerSet w)|]. split.
  + now intros ->.
  + intros [Hl | Ha]; destruct (authErrorListenerSet w);
      cbn [auth isAuthenticated]; congruence.
- intros w url options t response call w1 Hprep Hst.
  pose proof (prepare_auth w url options) as [Ha Hl]. rewrite Hprep in Ha, Hl.
  cbn [snd] in Ha, Hl.
  unfold request. rewrite Hprep. unfold settle. cbn [arrival].
  destruct (Hreceive (with_clock (with_fetch w1 call) t) url response Hst)
    as (H1 & H2 & _ & H4 & _ & H6).
  split; [exact H1|]. split; [exact H2|]. split.
  + rewrite H4. cbn [with_clock with_fetch events]. f_equal.
    unfold prepare in Hprep.
    destruct (negb (skipAuth options) && negb (isLoginRequest url)).
    * destruct (getStoredToken (storage w)) as [tok ls].
      destruct (truthy tok); [now inversion Hprep|].
      destruct (requiresAuth url); [discriminate | now inversion Hprep].
    * now inversion Hprep.
  + intros Hatt. apply H6. unfold attentive in *.
    cbn [with_clock with_fetch authErrorListenerSet auth]. now rewrite Ha, Hl.
- intros w schedule. revert w.
  induction schedule as [|phase schedule IH]; intros w Hatt Hex; [discriminate|].
  cbn [existsb] in Hex. cbn [run fold_left].
  destruct (rejected phase) eqn:Hr.
  + pose proof (run_closed schedule _ (step_rejected_closes w phase Hatt Hr)) as [Hs Ha].
    unfold run in Hs, Ha. repeat split; auto.
    unfold hasStoredToken. now rewrite (getStoredToken_absent _ Hs).
  + apply (IH (step w phase)); [now apply step_attentive | exact Hex].
Qed.

(** With two calls in flight from a signed-in session, the rejection of
    one of them leaves no token and an unauthenticated state, although the
    other call is answered with success afterwards. *)
Lemma auth_failure_invalidates_session_witness :
  Storage.getItem (storage (run signed_in_world two_calls)) storageKey = None
  /\ fst (hasStoredToken (storage (run signed_in_world two_calls))) = false
  /\ isAuthenticated (auth (run signed_in_world two_calls)) = false.
Proof.
apply (proj1 (proj2 (proj2 auth_failure_invalidates_session)) signed_in_world two_calls).
- left. reflexivity.
- reflexivity.
Defined.

End AuthFailure.

(** ** Login and local validation *)

Section Login.
Import TokenManager HttpClient Examples.

(** C3, the code at the failing input.  [login] of the request agent,
    the one the [loginUser] thunk calls, does not look at the
    credentials: with an empty username it posts them to the login
    endpoint, and stores the token of the answer; with an empty password
    and a rejecting server it fails with the error of the rejection, not
    with a validation error. *)
Lemma login_posts_empty_credentials :
  fetched (snd (HttpRequestAgent.login fresh_world empty_username login_accepted))
  = [mkCall "/api/login" "POST" None {[ "Content-Type" := "application/json" ]}
            (Some empty_username)]
  /\ fst (HttpRequestAgent.login fresh_world empty_username login_accepted)
     = Return (JObj [("token", JStr "abc")])
  /\ fst (getStoredToken
            (storage (snd (HttpRequestAgent.login fresh_world empty_username login_accepted))))
     = JStr "abc"
  /\ length (fetched (snd (HttpRequestAgent.login fresh_world empty_password
                             (Responded 1000 unauthorized)))) = 1%nat
  /\ fst (HttpRequestAgent.login fresh_world empty_password (Responded 1000 unauthorized))
     = Throw (Error "Authentication failed: 401")
  /\ isAuthenticated (auth (Thunks.loginUser fresh_world empty_username login_accepted))
     = true.
Proof. repeat split; vm_compute; reflexivity. Qed.

(** The validation of the form utilities does report these credentials;
    [login] of the request agent never calls it. *)
Lemma validateLoginCredentials_reports_empty_fields :
  formValidation.validateLoginCredentials empty_username
  = Return ["Username is required"%string]
  /\ formValidation.validateLoginCredentials empty_password
     = Return ["Password is required"%string].
Proof. split; vm_compute; reflexivity. Qed.

(** [login] of the authentication service validates before anything
    else: credentials that [validateCredentials] refuses end in that
    error with the world untouched, so without any call of [fetch]. *)
Lemma AuthService_login_validates_first (w : World) (credentials : JSValue)
  (net : FetchOutcome) (e : JsError) :
  AuthService.validateCredentials credentials = Some e ->
  AuthService.login w credentials net = (Throw e, w).
Proof. intros H. unfold AuthService.login. now rewrite H. Qed.

(** [validateCredentials] refuses every pair with an empty username or
    an empty password. *)
Lemma validateCredentials_refuses_empty_fields (fields : list (string * JSValue))
  (u p : string) :
  lookup_field fields "username" = Some (JStr u) ->
  lookup_field fields "password" = Some (JStr p) ->
  u = EmptyString \/ p = EmptyString ->
  exists what, AuthService.validateCredentials (JObj fields)
               = Some (AuthService.Invalid what).
Proof.
intros Hu Hp Hempty. unfold AuthService.validateCredentials.
cbn [truthy typeof_object negb orb Js.get]. rewrite Hu, Hp. cbv [from_option id].
cbn [truthy typeof_string negb orb].
destruct Hempty as [-> | ->].
- eexists. reflexivity.
- destruct (is_empty u); cbn [negb orb]; eexists; reflexivity.
Qed.

(** The service's [login] on credentials with an empty field: the
    validation error, and no call of [fetch]. *)
Lemma AuthService_login_rejects_empty_fields (w : World)
  (fields : list (string * JSValue)) (u p : string) (net : FetchOutcome) :
  lookup_field fields "username" = Some (JStr u) ->
  lookup_field fields "password" = Some (JStr p) ->
  u = EmptyString \/ p = EmptyString ->
  exists what,
    AuthService.login w (JObj fields) net = (Throw (AuthService.Invalid what), w)
    /\ fetched (snd (AuthService.login w (JObj fields) net)) = fetched w.
Proof.
intros Hu Hp Hempty.
destruct (validateCredentials_refuses_empty_fields fields u p Hu Hp Hempty) as (what & Hv).
exists what. now rewrite (AuthService_login_validates_first w _ net _ Hv).
Qed.

Lemma AuthService_login_rejects_empty_fields_witness :
  exists what,
    AuthService.login fresh_world empty_username login_accepted
    = (Throw (AuthService.Invalid what), fresh_world)
    /\ fetched (snd (AuthService.login fresh_world empty_username login_accepted))
       = fetched fresh_world.
Proof.
apply (AuthService_login_rejects_empty_fields fresh_world
         [("username", JStr ""); ("password", JStr "secret")] "" "secret");
  [reflexivity | reflexivity | now left].
Defined.

End Login.

(** ** The session invariant *)

Section SessionInvariant.
Import TokenManager HttpClient Session Examples.

Lemma hasStoredToken_stored (w : World) :
  fst (hasStoredToken (storage w)) = truthy (stored w).
Proof. unfold hasStoredToken, stored. now destruct (getStoredToken (storage w)). Qed.

Lemma stored_absent (w : World) :
  Storage.getItem (storage w) storageKey = None -> stored w = JNull.
Proof. intros H. unfold stored. now rewrite (getStoredToken_absent _ H). Qed.

Lemma stored_cleared (w : World) :
  stored (with_storage w (snd (clearStoredToken (storage w)))) = JNull.
Proof. apply stored_absent. cbn. apply getItem_removeItem. Qed.

Lemma stored_reread (w : World) :
  stored (with_storage w (snd (getStoredToken (storage w)))) = stored w.
Proof. unfold stored. cbn [with_storage storage]. now rewrite getStoredToken_again. Qed.

Lemma kept_refl (w : World) : kept w w.
Proof. now unfold kept. Qed.

Lemma kept_trans (w1 w2 w3 : World) : kept w1 w2 -> kept w2 w3 -> kept w1 w3.
Proof. unfold kept. intros (A1 & B1 & C1) (A2 & B2 & C2). repeat split; congruence. Qed.

Lemma kept_consistent (w w' : World) : kept w w' -> consistent w -> consistent w'.
Proof. unfold kept, consistent. intros (A & B & C) H. congruence. Qed.

Lemma dropped_consistent (w w' : World) : dropped w w' -> consistent w'.
Proof. unfold dropped, consistent. intros (Hs & Ha & _). now rewrite Ha, Hs. Qed.

Lemma dropped_after_kept (w1 w2 w3 : World) : kept w1 w2 -> dropped w2 w3 -> dropped w1 w3.
Proof. unfold kept, dropped. intros (A1 & B1 & C1) (A2 & B2 & C2). repeat split; congruence. Qed.

Lemma kept_after_dropped (w1 w2 w3 : World) : dropped w1 w2 -> kept w2 w3 -> dropped w1 w3.
Proof. unfold kept, dropped. intros (A1 & B1 & C1) (A2 & B2 & C2). repeat split; congruence. Qed.

(** *** The store *)

Lemma reduce_Other (w : World) (type : string) :
  Store.reduce w (AuthSlice.Other type) = w.
Proof. now destruct w. Qed.

Lemma dispatch_Other (w : World) (type : string) :
  Store.dispatch w (AuthSlice.Other type) = with_listener w.
Proof.
unfold Store.dispatch, Store.authMiddleware, Store.tokenValidationMiddleware.
cbn [Store.checked_for_age]. now rewrite reduce_Other.
Qed.

Lemma dispatch_listens (w : World) (action : AuthSlice.Action) :
  authErrorListenerSet (Store.dispatch w action) = true.
Proof. reflexivity. Qed.

(** Whatever the action, [dispatch] ends consistent when the reducer
    does: the age check either keeps the session or clears both sides. *)
Lemma dispatch_consistent (w : World) (action : AuthSlice.Action) :
  consistent (Store.reduce w action) ->
  consistent (Store.dispatch w action)
  /\ isInitializing (auth (Store.dispatch w action))
     = isInitializing (auth (Store.reduce w action)).
Proof.
intros H. unfold Store.dispatch, Store.authMiddleware, Store.tokenValidationMiddleware.
set (w1 := Store.reduce w action) in *.
destruct (Store.checked_for_age action); [|split; [exact H | reflexivity]].
pose proof (isTokenExpired_storage Store.maxAge (clock w1) (storage w1)) as Hs.
destruct (isTokenExpired Store.maxAge (clock w1) (storage w1)) as [expired ls].
cbn [snd] in Hs. subst ls. destruct expired.
- rewrite dispatch_clearAuthToken_world. split; [|reflexivity].
  unfold consistent. cbn [with_listener auth isAuthenticated with_storage storage].
  symmetry. rewrite stored_absent; [reflexivity|]. cbn. apply getItem_removeItem.
- split; [|reflexivity]. unfold consistent in *.
  cbn [with_listener auth with_storage].
  change (stored (with_listener (with_storage w1 (snd (getStoredToken (storage w1))))))
    with (stored (with_storage w1 (snd (getStoredToken (storage w1))))).
  now rewrite stored_reread.
Qed.

(** *** The client *)

Lemma prepare_kept (w : World) (url : string) (options : RequestOptions) :
  kept w (snd (prepare w url options)).
Proof.
unfold prepare.
destruct (negb (skipAuth options) && negb (isLoginRequest url)); [|apply kept_refl].
assert (H : kept w (with_storage w (snd (getStoredToken (storage w))))).
{ unfold kept. cbn [with_storage auth]. repeat split. apply stored_reread. }
destruct (getStoredToken (storage w)) as [token ls]. cbn [snd] in H.
destruct (truthy token); [exact H|]. now destruct (requiresAuth url).
Qed.

Lemma receive_effect (w : World) (url : string) (response : Response) :
  authErrorListenerSet w = true ->
  authErrorListenerSet (snd (receive w url response)) = true
  /\ match fst (receive w url response) with
     | Return _ => snd (receive w url response) = w
     | Throw _ => dropped w (snd (receive w url response))
     end.
Proof.
intros Hl. destruct ((status response =? 401) || (status response =? 403)) eqn:E.
- rewrite (receive_rejected _ _ _ E), Hl. cbn [fst snd]. split; [reflexivity|].
  unfold dropped. repeat split. apply stored_absent. cbn [storage].
  apply getItem_removeItem.
- rewrite (receive_other _ _ _ E). cbn. auto.
Qed.

(** A call of [request] keeps the session or, on a rejection, drops it;
    a call that returns a response kept it. *)
Lemma request_effect (w : World) (url : string) (options : RequestOptions)
  (net : FetchOutcome) :
  authErrorListenerSet w = true ->
  authErrorListenerSet (snd (request w url options net)) = true
  /\ match fst (request w url options net) with
     | Return _ => kept w (snd (request w url options net))
     | Throw _ => kept w (snd (request w url options net))
                  \/ dropped w (snd (request w url options net))
     end.
Proof.
intros Hl. unfold request.
pose proof (prepare_kept w url options) as Hk.
pose proof (prepare_auth w url options) as [_ Hl1]. rewrite Hl in Hl1.
destruct (prepare w url options) as [[call|e] w1]; cbn [fst snd] in *; [|auto].
set (w2 := with_clock (with_fetch w1 call) (arrival net)).
assert (Hk2 : kept w w2) by exact Hk.
assert (Hl2 : authErrorListenerSet w2 = true) by exact Hl1.
unfold settle. fold w2. destruct net as [t response | t e]; [|cbn; auto].
destruct (receive_effect w2 url response Hl2) as [Hl3 Hr].
split; [exact Hl3|].
destruct (receive w2 url response) as [[r|e] w3]; cbn [fst snd] in *.
- now subst w3.
- right. eapply dropped_after_kept; eauto.
Qed.


Lemma request_return_kept (w : World) (url : string) (options : RequestOptions)
  (net : FetchOutcome) (response : Response) (w' : World) :
  request w url options net = (Return response, w') -> kept w w'.
Proof.
unfold request. pose proof (prepare_kept w url options) as Hk.
destruct (prepare w url options) as [[call|e] w1]; cbn [snd] in Hk; [|discriminate].
unfold settle. destruct net as [t r | t e]; [|discriminate].
destruct ((status r =? 401) || (status r =? 403)) eqn:E.
- rewrite (receive_rejected _ _ _ E). discriminate.
- rewrite (receive_other _ _ _ E). intros [= _ <-]. exact Hk.
Qed.

(** *** The agent *)

Lemma parse_text_world (w : World) (text : string) :
  storage (snd (HttpRequestAgent.parse_text w text)) = storage w
  /\ auth (snd (HttpRequestAgent.parse_text w text)) = auth w
  /\ authErrorListenerSet (snd (HttpRequestAgent.parse_text w text))
     = authErrorListenerSet w
  /\ clock (snd (HttpRequestAgent.parse_text w text)) = clock w.
Proof.
unfold HttpRequestAgent.parse_text.
destruct (is_empty text); [auto|].
destruct (JSON.parse text); [auto|].
destruct (negb _); [|auto].
destruct (JSON.parse _); auto.
Qed.

Lemma parseResponseBody_world (w : World) (response : Response) :
  storage (snd (HttpRequestAgent._parseResponseBody w response)) = storage w
  /\ auth (snd (HttpRequestAgent._parseResponseBody w response)) = auth w
  /\ authErrorListenerSet (snd (HttpRequestAgent._parseResponseBody w response))
     = authErrorListenerSet w
  /\ clock (snd (HttpRequestAgent._parseResponseBody w response)) = clock w.
Proof.
unfold HttpRequestAgent._parseResponseBody.
destruct (_ || _); [auto|].
destruct (HttpRequestAgent.not_json _); [auto|]. apply parse_text_world.
Qed.

Lemma parseResponseBody_kept (w : World) (response : Response) :
  kept w (snd (HttpRequestAgent._parseResponseBody w response)).
Proof.
destruct (parseResponseBody_world w response) as (Hs & Ha & _).
unfold kept, stored. now rewrite Hs, Ha.
Qed.

Lemma parseResponse_kept (w : World) (response : Response) :
  kept w (snd (HttpRequestAgent._parseResponse w response))
  /\ authErrorListenerSet (snd (HttpRequestAgent._parseResponse w response))
     = authErrorListenerSet w.
Proof.
unfold HttpRequestAgent._parseResponse.
destruct (negb (ok response)); [split; [apply kept_refl | reflexivity]|].
split; [apply parseResponseBody_kept | apply parseResponseBody_world].
Qed.

(** A request of the agent keeps the session or drops it. *)
Lemma agent_request_effect (w : World) (url : string) (options : RequestOptions)
  (net : FetchOutcome) (fallback : string) :
  authErrorListenerSet w = true ->
  let outcome :=
    match request w url options net with
    | (Return response, w1) =>
        match HttpRequestAgent._parseResponse w1 response with
        | (Return v, w2) => (Return v, w2)
        | (Throw e, w2) => (Throw (HttpRequestAgent.rewrap fallback e), w2)
        end
    | (Throw e, w1) => (Throw (HttpRequestAgent.rewrap fallback e), w1)
    end in
  authErrorListenerSet (snd outcome) = true
  /\ (kept w (snd outcome) \/ dropped w (snd outcome)).
Proof.
intros Hl. destruct (request_effect w url options net Hl) as [Hl1 Hr].
destruct (request w url options net) as [[response|e] w1]; cbn [fst snd] in *.
- destruct (parseResponse_kept w1 response) as [Hk Hl2]. rewrite Hl1 in Hl2.
  destruct (HttpRequestAgent._parseResponse w1 response) as [[v|e] w2];
    cbn [fst snd] in *; (split; [exact Hl2 | left; eapply kept_trans; eauto]).
- cbn zeta. cbn [snd]. split; [exact Hl1 | exact Hr].
Qed.

Lemma login_failed_cleared {A : Type} (w : World) (e : JsError) :
  exists e', @HttpRequestAgent.login_failed A w e
             = (Throw e', with_storage w (snd (clearStoredToken (storage w)))).
Proof.
unfold HttpRequestAgent.login_failed. destruct (_ && _); eexists; reflexivity.
Qed.

(** [login] either returns with the token of the answer in the storage,
    or throws with no token in the storage. *)
Lemma login_outcome (w : World) (credentials : JSValue) (net : FetchOutcome) :
  match HttpRequestAgent.login w credentials net with
  | (Return data, w') =>
      exists t, t <> EmptyString /\ stored w' = JStr t
                /\ Js.get data "token" = Some (JStr t)
  | (Throw _, w') => stored w' = JNull
  end.
Proof.
unfold HttpRequestAgent.login.
destruct (HttpClient.post w API_CONFIG.LOGIN credentials true net) as [[response|e] w1].
2: { destruct (@login_failed_cleared JSValue w1 e) as (e' & ->). apply stored_cleared. }
destruct (negb (ok response)).
- destruct (HttpRequestAgent._parseResponseBody w1 response) as [parsed w2].
  destruct (HttpRequestAgent.server_message _) as [m|].
  + destruct (@login_failed_cleared JSValue w2
                (Error (apiConfig.getErrorMessage (status response) m))) as (e' & ->).
    apply stored_cleared.
  + destruct (@login_failed_cleared JSValue w2 (TypeError_property "message"))
      as (e' & ->). apply stored_cleared.
- destruct (HttpRequestAgent._parseResponseBody w1 response) as [[data|e] w2].
  2: { destruct (@login_failed_cleared JSValue w2 e) as (e' & ->). apply stored_cleared. }
  destruct (Js.get data "token") as [tok|] eqn:Htok.
  2: { destruct (@login_failed_cleared JSValue w2 (TypeError_property "token"))
         as (e' & ->). apply stored_cleared. }
  destruct (negb (truthy tok)).
  { destruct (@login_failed_cleared JSValue w2
                (Error "Invalid server response: missing authentication token"))
      as (e' & ->). apply stored_cleared. }
  destruct (storeToken tok (clock w2) (storage w2)) as [ok ls] eqn:Hstore.
  destruct ok; cbn [negb].
  + destruct (storeToken_true _ _ _ _ Hstore) as (t & -> & Hne & Hset).
    exists t. split; [exact Hne|]. split; [|exact Htok].
    unfold stored. cbn [with_storage storage].
    now rewrite (getStoredToken_stored _ _ _ _ Hne Hset).
  + destruct (@login_failed_cleared JSValue (with_storage w2 ls)
                (Error "Failed to store authentication token")) as (e' & ->).
    apply stored_cleared.
Qed.

(** [validateToken] answers [valid] only with a token in the storage,
    and otherwise leaves none to be read. *)
Lemma validateToken_outcome (w : World) (net : FetchOutcome) :
  let '((valid, usr), w') := HttpRequestAgent.validateToken w net in
  truthy (stored w') = valid.
Proof.
unfold HttpRequestAgent.validateToken.
pose proof (stored_reread w) as Hre. unfold stored at 2 in Hre.
destruct (getStoredToken (storage w)) as [token ls]. cbn [fst snd] in Hre.
set (w1 := with_storage w ls) in *.
destruct (truthy token) eqn:Ht; cbn [negb]; [|now rewrite Hre].
unfold HttpClient.get.
destruct (request w1 API_CONFIG.VALIDATE_TOKEN (mkOptions false "GET" ∅ None) net)
  as [[response|e] w2] eqn:Hreq.
2: { now rewrite stored_cleared. }
apply request_return_kept in Hreq.
destruct (negb (ok response)); [now rewrite stored_cleared|].
pose proof (parseResponseBody_kept w2 response) as Hk.
destruct (HttpRequestAgent._parseResponseBody w2 response) as [[data|e] w3];
  cbn [snd] in Hk; [|now rewrite stored_cleared].
destruct (Js.get data "user"); [|now rewrite stored_cleared].
destruct Hk as (_ & _ & Hs3). destruct Hreq as (_ & _ & Hs2).
now rewrite Hs3, Hs2, Hre.
Qed.

(** *** The thunks *)

Lemma reduce_stored (w : World) (action : AuthSlice.Action) :
  action <> AuthSlice.clearAuthToken ->
  stored (Store.reduce w action) = stored w.
Proof. intros H. destruct action; try contradiction; reflexivity. Qed.

Lemma logoutUser_consistent (w : World) (net : FetchOutcome) :
  consistent (Thunks.logoutUser w net).
Proof.
unfold Thunks.logoutUser.
set (w2 := HttpRequestAgent.logout _ net).
assert (Hs : stored w2 = JNull).
{ unfold w2, HttpRequestAgent.logout.
  destruct (getStoredToken _) as [token ls]. apply stored_cleared. }
apply dispatch_consistent. unfold consistent.
rewrite reduce_stored by discriminate. now rewrite Hs.
Qed.

Lemma loginUser_consistent (w : World) (credentials : JSValue) (net : FetchOutcome) :
  consistent (Thunks.loginUser w credentials net).
Proof.
unfold Thunks.loginUser.
pose proof (login_outcome (Store.dispatch w AuthSlice.loginUser_pending) credentials net)
  as H.
destruct (HttpRequestAgent.login _ credentials net) as [[data|e] w2].
- destruct H as (t & Hne & Hs & _). apply dispatch_consistent. unfold consistent.
  rewrite reduce_stored by discriminate. rewrite Hs. cbn.
  apply is_empty_false in Hne. now rewrite Hne.
- apply dispatch_consistent. unfold consistent.
  rewrite reduce_stored by discriminate. now rewrite H.
Qed.

Lemma initializeAuth_consistent (w : World) (net : FetchOutcome) :
  consistent (Thunks.initializeAuth w net)
  /\ isInitializing (auth (Thunks.initializeAuth w net)) = false.
Proof.
unfold Thunks.initializeAuth.
pose proof (validateToken_outcome (Store.dispatch w AuthSlice.initializeAuth_pending) net)
  as H.
destruct (HttpRequestAgent.validateToken _ net) as [[valid usr] w2].
destruct valid.
- pose proof (stored_reread w2) as Hre. unfold stored at 2 in Hre.
  unfold stored in H.
  destruct (getStoredToken (storage w2)) as [tok ls]. cbn [fst snd] in *.
  assert (Hc : consistent (Store.reduce (with_storage w2 ls)
                             (AuthSlice.initializeAuth_fulfilled tok usr))).
  { unfold consistent. rewrite reduce_stored by discriminate. rewrite Hre.
    cbn. now rewrite H. }
  destruct (dispatch_consistent _ _ Hc) as [Hd Hi]. split; [exact Hd|].
  rewrite Hi. reflexivity.
- assert (Hc : consistent (Store.reduce w2 (AuthSlice.initializeAuth_fulfilled JNull JNull))).
  { unfold consistent. rewrite reduce_stored by discriminate. now rewrite H. }
  destruct (dispatch_consistent _ _ Hc) as [Hd Hi]. split; [exact Hd|].
  rewrite Hi. reflexivity.
Qed.

Lemma with_listener_kept (w : World) : kept w (with_listener w).
Proof. now unfold kept. Qed.

Lemma loadMode_effect (w : World) (net : FetchOutcome) :
  kept w (Thunks.loadMode w net) \/ dropped w (Thunks.loadMode w net).
Proof.
unfold Thunks.loadMode, HttpRequestAgent.get, HttpClient.get.
rewrite dispatch_Other.
destruct (agent_request_effect (with_listener w) API_CONFIG.MODE
            (mkOptions false "GET" ∅ None) net "GET request failed" eq_refl)
  as [_ H]. cbn zeta in H.
assert (Hend : forall r w2,
  (kept (with_listener w) w2 \/ dropped (with_listener w) w2) ->
  kept w (match r with
          | Return data =>
              match Js.get data "mode" with
              | Some _ => Store.dispatch w2 (AuthSlice.Other "mode/loadMode/fulfilled")
              | None => Store.dispatch w2 (AuthSlice.Other "mode/loadMode/rejected")
              end
          | Throw _ => Store.dispatch w2 (AuthSlice.Other "mode/loadMode/rejected")
          end)
  \/ dropped w (match r with
          | Return data =>
              match Js.get data "mode" with
              | Some _ => Store.dispatch w2 (AuthSlice.Other "mode/loadMode/fulfilled")
              | None => Store.dispatch w2 (AuthSlice.Other "mode/loadMode/rejected")
              end
          | Throw _ => Store.dispatch w2 (AuthSlice.Other "mode/loadMode/rejected")
          end)).
{ intros r w2 Hw2.
  assert (Hf : forall type, kept w (Store.dispatch w2 (AuthSlice.Other type))
                            \/ dropped w (Store.dispatch w2 (AuthSlice.Other type))).
  { intros type. rewrite dispatch_Other. destruct Hw2 as [Hk | Hd].
    - left. eapply kept_trans; [apply with_listener_kept|].
      eapply kept_trans; [exact Hk | apply with_listener_kept].
    - right. eapply kept_after_dropped; [|apply with_listener_kept].
      eapply dropped_after_kept; [apply with_listener_kept | exact Hd]. }
  destruct r as [data|e]; [destruct (Js.get data "mode")|]; apply Hf. }
destruct (request (with_listener w) API_CONFIG.MODE (mkOptions false "GET" ∅ None) net)
  as [[response|e] w1].
- destruct (HttpRequestAgent._parseResponse w1 response) as [[v|e] w2];
    cbn [snd] in H.
  + apply (Hend (Return v) w2 H).
  + apply (Hend (Throw e) w2 H).
- apply (Hend (Throw e) w1 H).
Qed.

Lemma updateMode_effect (w : World) (modeValue : JSValue) (net : FetchOutcome) :
  kept w (Thunks.updateMode w modeValue net)
  \/ dropped w (Thunks.updateMode w modeValue net).
Proof.
unfold Thunks.updateMode, HttpRequestAgent.post, HttpClient.post.
rewrite dispatch_Other.
destruct (agent_request_effect (with_listener w) API_CONFIG.MODE
            (mkOptions false "POST" {[ "Content-Type" := "application/json" ]}
                       (Some (JObj [("mode", modeValue)])))
            net "POST request failed" eq_refl)
  as [_ H]. cbn zeta in H.
assert (Hf : forall w2 type,
  (kept (with_listener w) w2 \/ dropped (with_listener w) w2) ->
  kept w (Store.dispatch w2 (AuthSlice.Other type))
  \/ dropped w (Store.dispatch w2 (AuthSlice.Other type))).
{ intros w2 type Hw2. rewrite dispatch_Other. destruct Hw2 as [Hk | Hd].
  - left. eapply kept_trans; [apply with_listener_kept|].
    eapply kept_trans; [exact Hk | apply with_listener_kept].
  - right. eapply kept_after_dropped; [|apply with_listener_kept].
    eapply dropped_after_kept; [apply with_listener_kept | exact Hd]. }
destruct (request (with_listener w) API_CONFIG.MODE _ net) as [[response|e] w1].
- destruct (HttpRequestAgent._parseResponse w1 response) as [[v|e] w2];
    cbn [snd] in H; apply Hf, H.
- apply Hf, H.
Qed.

Lemma acknowledgeError_kept (w : World) :
  kept w (Store.dispatch w AuthSlice.clearAuthError).
Proof. now unfold kept. Qed.

(** An operation that does not set the session keeps it or drops it. *)
Lemma perform_effect (w : World) (op : Operation) :
  sets_session op = false -> kept w (perform w op) \/ dropped w (perform w op).
Proof.
destruct op; cbn [sets_session perform]; try discriminate; intros _.
- apply loadMode_effect.
- apply updateMode_effect.
- left. apply acknowledgeError_kept.
Qed.

Lemma perform_sets_session (w : World) (op : Operation) :
  sets_session op = true -> consistent (perform w op).
Proof.
destruct op; cbn [sets_session perform]; try discriminate; intros _.
- apply initializeAuth_consistent.
- apply loginUser_consistent.
- apply logoutUser_consistent.
Qed.

Lemma perform_consistent (w : World) (op : Operation) :
  consistent w -> consistent (perform w op).
Proof.
intros H. destruct (sets_session op) eqn:E; [now apply perform_sets_session|].
destruct (perform_effect w op E) as [Hk | Hd].
- eapply kept_consistent; eauto.
- eapply dropped_consistent; eauto.
Qed.

Lemma reachable_consistent (w : World) :
  Reachable w -> isInitializing (auth w) = false -> consistent w.
Proof.
induction 1 as [w [Ha _] | w op Hr IH].
- rewrite Ha. discriminate.
- intros Hi. destruct (sets_session op) eqn:E; [now apply perform_sets_session|].
  destruct (perform_effect w op E) as [Hk | Hd].
  + eapply kept_consistent; [exact Hk|]. apply IH.
    destruct Hk as (_ & Hk & _). congruence.
  + eapply dropped_consistent; eauto.
Qed.

(** C4, as amended.  Once the startup validation has completed
    ([isInitializing] is [false]), in every state the orchestrator reaches
    by whole operations the authenticated flag is [true] exactly when the
    storage holds a token.  Startup validation, login and logout end in
    such a state from any state, and every other operation (reading or
    saving the mode, where a 401 or 403 invalidates the session, and
    acknowledging an error) preserves the agreement: it keeps both sides
    or clears both. *)
Theorem session_flag_agrees_with_token_store :
  (forall w, Reachable w -> isInitializing (auth w) = false ->
             (isAuthenticated (auth w) = true
              <-> fst (hasStoredToken (storage w)) = true))
  /\ (forall w op, sets_session op = true ->
                   isAuthenticated (auth (perform w op))
                   = fst (hasStoredToken (storage (perform w op))))
  /\ (forall w op,
        isAuthenticated (auth w) = fst (hasStoredToken (storage w)) ->
        isAuthenticated (auth (perform w op))
        = fst (hasStoredToken (storage (perform w op))))
  /\ (forall w op, sets_session op = false ->
        (isAuthenticated (auth (perform w op)) = isAuthenticated (auth w)
         /\ fst (hasStoredToken (storage (perform w op)))
            = fst (hasStoredToken (storage w)))
        \/ (isAuthenticated (auth (perform w op)) = false
            /\ fst (hasStoredToken (storage (perform w op))) = false)).
Proof.
split; [|split; [|split]].
- intros w Hr Hi. rewrite hasStoredToken_stored.
  pose proof (reachable_consistent w Hr Hi) as H. unfold consistent in H.
  now rewrite H.
- intros w op H. rewrite hasStoredToken_stored. now apply perform_sets_session.
- intros w op H. rewrite hasStoredToken_stored in *. now apply perform_consistent.
- intros w op H. rewrite !hasStoredToken_stored.
  destruct (perform_effect w op H) as [(Ha & _ & Hs) | (Hs & Ha & _)].
  + left. now rewrite Ha, Hs.
  + right. now rewrite Ha, Hs.
Qed.

(** After a login that the server accepts the flag is up and the token
    is in the storage; after the logout that follows both are gone. *)
Lemma session_flag_agrees_with_token_store_witness :
  isAuthenticated (auth (perform fresh_world (submitLogin empty_password login_accepted)))
  = fst (hasStoredToken
           (storage (perform fresh_world (submitLogin empty_password login_accepted))))
  /\ isAuthenticated
       (auth (perform (perform fresh_world (submitLogin empty_password login_accepted))
                      (requestLogout (Responded 2000 (ok_response "")))))
     = false.
Proof.
split.
- apply (proj1 (proj2 session_flag_agrees_with_token_store)). reflexivity.
- vm_compute. reflexivity.
Defined.

(** C4, the claim as stated fails: the application starts with the
    record of the earlier session in the storage and the flag down, and
    reading the mode with that record, answered with success, changes
    neither. *)
Lemma stale_record_before_startup :
  Reachable stale_world
  /\ isAuthenticated (auth stale_world) = false
  /\ fst (hasStoredToken (storage stale_world)) = true
  /\ Reachable (perform stale_world
                  (readMode (Responded 5 (ok_response (dq "{'mode':'auto'}")))))
  /\ isAuthenticated
       (auth (perform stale_world
                (readMode (Responded 5 (ok_response (dq "{'mode':'auto'}"))))))
     = false
  /\ fst (hasStoredToken
            (storage (perform stale_world
               (readMode (Responded 5 (ok_response (dq "{'mode':'auto'}")))))))
     = true.
Proof.
assert (Hr : Reachable stale_world) by (apply reach_initial; split; reflexivity).
split; [exact Hr|]. split; [reflexivity|]. split; [vm_compute; reflexivity|].
split; [apply reach_perform, Hr|]. split; vm_compute; reflexivity.
Qed.

End SessionInvariant.
(** ** The token store: what is written, read back and left alone *)

Section TokenStoreLaws.
Import TokenManager Examples.

Lemma getItem_removeItem_ne (ls : Storage.t) (k k' : string) :
  k <> k' -> Storage.getItem (Storage.removeItem ls k') k = Storage.getItem ls k.
Proof.
intros H. unfold Storage.getItem, Storage.removeItem. cbn.
apply lookup_delete_ne. congruence.
Qed.

Lemma getItem_setItem_ne (ls ls' : Storage.t) (k k' v : string) :
  k <> k' -> Storage.setItem ls k' v = Some ls' ->
  Storage.getItem ls' k = Storage.getItem ls k.
Proof.
intros H. unfold Storage.setItem, Storage.getItem.
destruct (Storage.accepts ls (Storage.items ls) k' v); [|discriminate].
intros [= <-]. cbn. apply lookup_insert_ne. congruence.
Qed.

Lemma removeItem_twice (ls : Storage.t) (k : string) :
  Storage.removeItem (Storage.removeItem ls k) k = Storage.removeItem ls k.
Proof. apply getItem_removeItem_absent, getItem_removeItem. Qed.

(** What the readers find when the key holds the record that
    [storeToken] writes for [t] at the time [t0]. *)
Lemma stringify_tokenData_filled (t : string) (t0 : Z) :
  is_empty (stringify_tokenData t t0) = false.
Proof. reflexivity. Qed.

Lemma getStoredToken_of_record (t : string) (t0 : Z) (ls : Storage.t) :
  t <> EmptyString ->
  Storage.getItem ls storageKey = Some (stringify_tokenData t t0) ->
  getStoredToken ls = (JStr t, ls).
Proof.
intros Hne Hget. unfold getStoredToken.
rewrite Hget, stringify_tokenData_filled, parse_stringify_tokenData.
assert (Hi : invalid_structure
               (JObj [("token", JStr t); ("timestamp", JNum (inject_Z t0))]) = false).
{ apply invalid_structure_false. eexists _, _. repeat split.
  cbn. now apply is_empty_false in Hne as ->. }
now rewrite Hi.
Qed.

Lemma getTokenData_of_record (t : string) (t0 : Z) (ls : Storage.t) :
  t <> EmptyString ->
  Storage.getItem ls storageKey = Some (stringify_tokenData t t0) ->
  getTokenData ls
  = (JObj [("token", JStr t); ("timestamp", JNum (inject_Z t0))], ls).
Proof.
intros Hne Hget.
apply (getTokenData_record ls (stringify_tokenData t t0) _ (JStr t)).
- exact Hget.
- discriminate.
- apply parse_stringify_tokenData.
- reflexivity.
- cbn. apply is_empty_false in Hne. now rewrite Hne.
Qed.

Lemma truthy_timestamp (z : Z) : truthy (JNum (inject_Z z)) = negb (z =? 0).
Proof.
cbn. unfold Qeq_bool. cbn. rewrite Z.mul_1_r.
now destruct z.
Qed.

Lemma getTokenAge_of_record (t : string) (t0 now : Z) (ls : Storage.t) :
  t <> EmptyString ->
  Storage.getItem ls storageKey = Some (stringify_tokenData t t0) ->
  getTokenAge now ls
  = (if t0 =? 0 then None
     else Some (ToNumber.Fin (inject_Z now - inject_Z t0)), ls).
Proof.
intros Hne Hget. unfold getTokenAge.
rewrite (getTokenData_of_record _ _ _ Hne Hget).
cbn [truthy negb get lookup_field String.eqb Ascii.eqb Bool.eqb].
cbv [from_option id default].
rewrite truthy_timestamp. now destruct (t0 =? 0).
Qed.

Lemma getTokenData_stored (t : string) (now : Z) (ls ls' : Storage.t) :
  t <> EmptyString ->
  Storage.setItem ls storageKey (stringify_tokenData t now) = Some ls' ->
  getTokenData ls'
  = (JObj [("token", JStr t); ("timestamp", JNum (inject_Z now))], ls').
Proof.
intros Hne Hset. apply (getTokenData_of_record t now); [exact Hne|].
eapply getItem_setItem; eauto.
Qed.

(** The age of what [storeToken] wrote at [t0], read at [now]. *)
Lemma getTokenAge_stored (t : string) (t0 now : Z) (ls ls' : Storage.t) :
  t <> EmptyString ->
  Storage.setItem ls storageKey (stringify_tokenData t t0) = Some ls' ->
  getTokenAge now ls'
  = (if t0 =? 0 then None
     else Some (ToNumber.Fin (inject_Z now - inject_Z t0)), ls').
Proof.
intros Hne Hset. apply (getTokenAge_of_record t t0); [exact Hne|].
eapply getItem_setItem; eauto.
Qed.

(** Ages in whole milliseconds. *)
Lemma gt_age (now t0 limit : Z) :
  ToNumber.gt (ToNumber.Fin (inject_Z now - inject_Z t0)) (inject_Z limit)
  = negb (now - t0 <=? limit).
Proof.
cbn [ToNumber.gt]. f_equal. unfold Qle_bool. cbn.
rewrite !Z.mul_1_r. reflexivity.
Qed.

(** X1. After a successful [storeToken(token)] every reader returns what
    was written: [getStoredToken] the token, [hasStoredToken] [true],
    [getTokenData] the record of the token and the time of the write;
    reading changes nothing. *)
Theorem stored_token_reads_back (token : JSValue) (now : Z) (ls ls' : Storage.t) :
  storeToken token now ls = (true, ls') ->
  getStoredToken ls' = (token, ls')
  /\ hasStoredToken ls' = (true, ls')
  /\ getTokenData ls'
     = (JObj [("token", token); ("timestamp", JNum (inject_Z now))], ls').
Proof.
intros H. destruct (storeToken_true _ _ _ _ H) as (t & -> & Hne & Hset).
pose proof (getStoredToken_stored _ _ _ _ Hne Hset) as Hread.
split; [exact Hread|]. split.
- unfold hasStoredToken. rewrite Hread. cbn.
  apply is_empty_false in Hne. now rewrite Hne.
- exact (getTokenData_stored _ _ _ _ Hne Hset).
Qed.

Lemma stored_token_reads_back_witness :
  getStoredToken (storage_with record_abc) = (JStr "abc", storage_with record_abc)
  /\ hasStoredToken (storage_with record_abc) = (true, storage_with record_abc)
  /\ getTokenData (storage_with record_abc)
     = (JObj [("token", JStr "abc"); ("timestamp", JNum (inject_Z 1000))],
        storage_with record_abc).
Proof.
apply (stored_token_reads_back (JStr "abc") 1000 empty_storage (storage_with record_abc)).
vm_compute. reflexivity.
Defined.

(** X2. After [clearStoredToken] no reader finds a token, whatever the
    storage held: [getStoredToken] and [getTokenData] return [null],
    [hasStoredToken] and [isTokenExpired] return [false], [getTokenAge]
    returns [null]; none of them changes the storage, and clearing again
    changes nothing. *)
Theorem cleared_store_reads_absent (ls : Storage.t) (now : Z) (maxAge : Q) :
  let ls' := snd (clearStoredToken ls) in
  fst (clearStoredToken ls) = true
  /\ getStoredToken ls' = (JNull, ls')
  /\ getTokenData ls' = (JNull, ls')
  /\ hasStoredToken ls' = (false, ls')
  /\ getTokenAge now ls' = (None, ls')
  /\ isTokenExpired maxAge now ls' = (false, ls')
  /\ snd (clearStoredToken ls') = ls'.
Proof.
cbn zeta. cbn [clearStoredToken fst snd].
assert (Hget : Storage.getItem (Storage.removeItem ls storageKey) storageKey = None)
  by apply getItem_removeItem.
assert (Hdata : getTokenData (Storage.removeItem ls storageKey)
                = (JNull, Storage.removeItem ls storageKey)).
{ unfold getTokenData. now rewrite Hget. }
assert (Hage : getTokenAge now (Storage.removeItem ls storageKey)
               = (None, Storage.removeItem ls storageKey)).
{ unfold getTokenAge. now rewrite Hdata. }
repeat split.
- now apply getStoredToken_absent.
- exact Hdata.
- unfold hasStoredToken. now rewrite (getStoredToken_absent _ Hget).
- exact Hage.
- unfold isTokenExpired. now rewrite Hage.
- apply removeItem_twice.
Qed.

(** X3. The token store reads and writes its own key only: the entry of
    every other key is the same after [storeToken], [clearStoredToken],
    [getStoredToken], [getTokenData], [hasStoredToken], [getTokenAge] and
    [isTokenExpired], whatever they are given and whatever they find. *)
Theorem token_store_touches_only_its_key (k : string) (ls : Storage.t)
  (token : JSValue) (now : Z) (maxAge : Q) :
  k <> storageKey ->
  Storage.getItem (snd (storeToken token now ls)) k = Storage.getItem ls k
  /\ Storage.getItem (snd (clearStoredToken ls)) k = Storage.getItem ls k
  /\ Storage.getItem (snd (getStoredToken ls)) k = Storage.getItem ls k
  /\ Storage.getItem (snd (getTokenData ls)) k = Storage.getItem ls k
  /\ Storage.getItem (snd (hasStoredToken ls)) k = Storage.getItem ls k
  /\ Storage.getItem (snd (getTokenAge now ls)) k = Storage.getItem ls k
  /\ Storage.getItem (snd (isTokenExpired maxAge now ls)) k = Storage.getItem ls k.
Proof.
intros Hk.
assert (Hread : Storage.getItem (snd (getStoredToken ls)) k = Storage.getItem ls k).
{ destruct (getStoredToken_cases ls) as [[_ ->]|[_ [->| ->]]]; auto.
  now apply getItem_removeItem_ne. }
assert (Hdata : Storage.getItem (snd (getTokenData ls)) k = Storage.getItem ls k).
{ now rewrite (proj1 (getTokenData_getStoredToken ls)). }
split; [|split; [|split; [|split; [|split; [|split]]]]].
- destruct (storeToken token now ls) as [[] ls1] eqn:E; cbn [snd].
  + destruct (storeToken_true _ _ _ _ E) as (t & _ & _ & Hset).
    eapply getItem_setItem_ne; eauto.
  + pose proof (storeToken_false token now ls) as H. rewrite E in H.
    cbn in H. now rewrite H.
- now apply getItem_removeItem_ne.
- exact Hread.
- exact Hdata.
- unfold hasStoredToken. now destruct (getStoredToken ls).
- unfold getTokenAge. destruct (getTokenData ls) as [d ls1]. cbn [snd] in *.
  destruct (negb (truthy d)); [exact Hdata|].
  now destruct (negb (truthy _)).
- now rewrite isTokenExpired_storage.
Qed.

Lemma token_store_touches_only_its_key_witness :
  Storage.getItem (snd (storeToken (JStr "xyz") 7 shared_storage)) "theme" = Some "dark"%string
  /\ Storage.getItem (snd (clearStoredToken shared_storage)) "theme" = Some "dark"%string.
Proof.
assert (Hk : "theme"%string <> storageKey) by discriminate.
destruct (token_store_touches_only_its_key "theme" shared_storage (JStr "xyz") 7 0 Hk)
  as (H1 & H2 & _).
split; [rewrite H1 | rewrite H2]; reflexivity.
Defined.

(** X4. A token stored at time [t0] has, read at time [now], the age
    [now - t0], and it is expired for [maxAge] exactly when that age is
    above [maxAge]; a record written at time 0 has no age and never
    expires, its timestamp being falsy. *)
Theorem stored_token_age_and_expiry (token : JSValue) (t0 now : Z) (maxAge : Q)
  (ls ls' : Storage.t) :
  storeToken token t0 ls = (true, ls') ->
  getTokenAge now ls'
  = (if t0 =? 0 then None else Some (ToNumber.Fin (inject_Z now - inject_Z t0)), ls')
  /\ (fst (isTokenExpired maxAge now ls') = true
      <-> t0 <> 0 /\ (maxAge < inject_Z now - inject_Z t0)%Q).
Proof.
intros H. destruct (storeToken_true _ _ _ _ H) as (t & -> & Hne & Hset).
pose proof (getTokenAge_stored t t0 now ls ls' Hne Hset) as Hage.
split; [exact Hage|].
unfold isTokenExpired. rewrite Hage. cbn [fst].
destruct (t0 =? 0) eqn:E.
- apply Z.eqb_eq in E. split; [discriminate | now intros [Hz _]].
- apply Z.eqb_neq in E. rewrite gt_Fin. tauto.
Qed.

Lemma stored_token_age_and_expiry_witness :
  fst (getTokenAge 5000 (storage_with record_abc))
  = Some (ToNumber.Fin (inject_Z 5000 - inject_Z 1000))
  /\ fst (isTokenExpired 3000 5000 (storage_with record_abc)) = true.
Proof.
assert (Hs : storeToken (JStr "abc") 1000 empty_storage = (true, storage_with record_abc))
  by (vm_compute; reflexivity).
destruct (stored_token_age_and_expiry (JStr "abc") 1000 5000 3000 _ _ Hs) as [Hage Hexp].
split.
- now rewrite Hage.
- apply Hexp. split; [discriminate | reflexivity].
Defined.

End TokenStoreLaws.
(** ** The client: what a request sends, and what it leaves alone *)

Section ClientLaws.
Import TokenManager HttpClient InFlight Session Examples.

Lemma stored_falsy (w : World) : truthy (stored w) = false -> stored w = JNull.
Proof. apply getStoredToken_falsy. Qed.

(** [prepare] in terms of the token that is read. *)
Lemma prepare_cases (w : World) (url : string) (options : RequestOptions) :
  let call bearer :=
    mkCall url (method options) bearer (opt_headers options) (body options) in
  let w1 := with_storage w (snd (getStoredToken (storage w))) in
  prepare w url options
  = if negb (skipAuth options) && negb (isLoginRequest url) then
      if truthy (stored w) then (Return (call (Some (stored w))), w1)
      else if requiresAuth url then (Throw AuthRequired, w1)
      else (Return (call None), w1)
    else (Return (call None), w).
Proof.
cbn zeta. unfold prepare, stored.
destruct (negb (skipAuth options) && negb (isLoginRequest url)); [|reflexivity].
now destruct (getStoredToken (storage w)).
Qed.

Lemma prepare_log (w : World) (url : string) (options : RequestOptions) :
  fetched (snd (prepare w url options)) = fetched w
  /\ events (snd (prepare w url options)) = events w
  /\ clock (snd (prepare w url options)) = clock w
  /\ console (snd (prepare w url options)) = console w.
Proof.
rewrite prepare_cases. cbn zeta.
destruct (negb (skipAuth options) && negb (isLoginRequest url)); [|auto].
destruct (truthy (stored w)); [auto|]. now destruct (requiresAuth url).
Qed.

Lemma receive_log (w : World) (url : string) (response : Response) :
  fetched (snd (receive w url response)) = fetched w
  /\ console (snd (receive w url response)) = console w
  /\ clock (snd (receive w url response)) = clock w.
Proof.
destruct ((status response =? 401) || (status response =? 403)) eqn:E.
- rewrite (receive_rejected _ _ _ E). now destruct (authErrorListenerSet w).
- now rewrite (receive_other _ _ _ E).
Qed.

Lemma settle_log (w : World) (url : string) (net : FetchOutcome) :
  fetched (snd (settle w url net)) = fetched w
  /\ console (snd (settle w url net)) = console w
  /\ clock (snd (settle w url net)) = arrival net.
Proof.
unfold settle. destruct net as [t response | t e]; cbn [arrival]; [|auto].
destruct (receive_log (with_clock w t) url response) as (A & B & C).
now rewrite A, B, C.
Qed.

(** A call of [request] calls [fetch] once or, when it stops before,
    not at all. *)
Lemma request_fetched (w : World) (url : string) (options : RequestOptions)
  (net : FetchOutcome) :
  match fst (prepare w url options) with
  | Return call => fetched (snd (request w url options net)) = call :: fetched w
  | Throw e => request w url options net = (Throw e, snd (prepare w url options))
               /\ fetched (snd (request w url options net)) = fetched w
  end.
Proof.
unfold request. destruct (prepare_log w url options) as (Hf & _).
destruct (prepare w url options) as [[call|e] w1]; cbn [fst snd] in *.
- destruct (settle_log (with_fetch w1 call) url net) as (A & _).
  rewrite A. cbn. now rewrite Hf.
- auto.
Qed.

(** X5. What [request] sends.  Either it stops before [fetch] with
    "Authentication required but no token available" (then the request
    did not set [skipAuth], the URL is not a login URL and requires
    authentication, and no token is stored), or it calls [fetch] exactly
    once, with the URL, method, headers and body it was given; that call
    carries a bearer token exactly when a token is stored and the request
    neither sets [skipAuth] nor goes to a login URL, and the bearer is
    the stored token. *)
Theorem request_sends_the_stored_token (w : World) (url : string)
  (options : RequestOptions) (net : FetchOutcome) :
  let guarded := negb (skipAuth options) && negb (isLoginRequest url) in
  (request w url options net
   = (Throw AuthRequired, with_storage w (snd (getStoredToken (storage w))))
   /\ fetched (snd (request w url options net)) = fetched w
   /\ guarded = true /\ stored w = JNull /\ requiresAuth url = true)
  \/ fetched (snd (request w url options net))
     = mkCall url (method options)
              (if guarded && truthy (stored w) then Some (stored w) else None)
              (opt_headers options) (body options)
       :: fetched w.
Proof.
cbn zeta. pose proof (request_fetched w url options net) as H.
rewrite prepare_cases in H. cbn zeta in H.
destruct (negb (skipAuth options) && negb (isLoginRequest url)); [|now right].
destruct (truthy (stored w)) eqn:Ht; [now right|].
destruct (requiresAuth url); [|now right].
left. cbn [fst snd] in H. destruct H as [Hr Hf].
repeat split; auto. now apply stored_falsy.
Qed.

Lemma settle_session (w : World) (url : string) (net : FetchOutcome) :
  rejected (Finish url net) = false ->
  storage (snd (settle w url net)) = storage w
  /\ auth (snd (settle w url net)) = auth w
  /\ events (snd (settle w url net)) = events w
  /\ authErrorListenerSet (snd (settle w url net)) = authErrorListenerSet w
  /\ match fst (settle w url net) with
     | Return r => exists t, net = Responded t r
     | Throw e => exists t, net = Rejected t e
     end.
Proof.
unfold settle. destruct net as [t response | t e]; cbn [rejected].
- intros E. rewrite (receive_other _ _ _ E). cbn. eauto 10.
- intros _. cbn. eauto 10.
Qed.

(** A request that returns a response left the stored token and the
    session state as they were. *)
Lemma request_returned (w w' : World) (url : string) (options : RequestOptions)
  (net : FetchOutcome) (r : Response) :
  request w url options net = (Return r, w') -> stored w' = stored w /\ auth w' = auth w.
Proof.
unfold request.
pose proof (prepare_kept w url options) as (_ & _ & Hs).
pose proof (prepare_auth w url options) as [Ha _].
destruct (prepare w url options) as [[call|e] w1]; cbn [snd] in *; [|discriminate].
unfold settle. destruct net as [t response | t e]; [|discriminate]. cbn [arrival].
destruct ((status response =? 401) || (status response =? 403)) eqn:E.
- rewrite (receive_rejected _ _ _ E). discriminate.
- rewrite (receive_other _ _ _ E). intros [= _ <-]. split; [exact Hs | exact Ha].
Qed.

(** X6. A request changes the session only when it is answered with 401
    or 403.  For every other outcome (any other status, 500 included, a
    network error, a request stopped for want of a token) the token read
    from the store, the session state and the [auth-error] events are
    what they were; a response that is returned is the one the server
    sent, and an error of the network is passed on as it is. *)
Theorem request_keeps_session_unless_rejected (w : World) (url : string)
  (options : RequestOptions) (net : FetchOutcome) :
  rejected (Finish url net) = false ->
  stored (snd (request w url options net)) = stored w
  /\ auth (snd (request w url options net)) = auth w
  /\ events (snd (request w url options net)) = events w
  /\ match fst (request w url options net) with
     | Return r => exists t, net = Responded t r
     | Throw e => e = AuthRequired \/ exists t, net = Rejected t e
     end.
Proof.
intros Hr. unfold request.
pose proof (prepare_kept w url options) as (_ & _ & Hs).
pose proof (prepare_auth w url options) as [Ha _].
pose proof (prepare_log w url options) as (_ & He & _).
pose proof (prepare_cases w url options) as Hc. cbn zeta in Hc.
destruct (prepare w url options) as [[call|e] w1]; cbn [fst snd] in *.
- destruct (settle_session (with_fetch w1 call) url net Hr) as (A & B & C & _ & D).
  unfold stored. rewrite A, B, C. cbn [with_fetch storage auth events].
  repeat split; auto.
  destruct (fst (settle (with_fetch w1 call) url net)); [exact D | now right].
- repeat split; auto. left.
  destruct (negb (skipAuth options) && negb (isLoginRequest url)); [|discriminate].
  destruct (truthy (stored w)); [discriminate|].
  destruct (requiresAuth url); [|discriminate]. congruence.
Qed.

Lemma request_keeps_session_unless_rejected_witness :
  stored (snd (request signed_in_world API_CONFIG.MODE get_options
                       (Responded 5 (mkResponse 500 ∅ ""))))
  = JStr "abc"
  /\ auth (snd (request signed_in_world API_CONFIG.MODE get_options
                        (Responded 5 (mkResponse 500 ∅ ""))))
     = signed_in.
Proof.
destruct (request_keeps_session_unless_rejected signed_in_world API_CONFIG.MODE
            get_options (Responded 5 (mkResponse 500 ∅ "")) eq_refl)
  as (Hs & Ha & _).
split; [rewrite Hs | rewrite Ha]; reflexivity.
Defined.

(** *** Retries *)

Lemma includes_Authentication_failed (status : Z) :
  includes (message (AuthRejected status)) "Authentication failed" = true.
Proof. reflexivity. Qed.

Lemma attempts_fetched (url : string) (options : RequestOptions)
  (nets : nat -> FetchOutcome) (remaining : nat) :
  forall (w : World) (attempt : nat),
    (length (fetched (snd (attempts w url options nets attempt remaining)))
     <= length (fetched w) + S remaining)%nat.
Proof.
induction remaining as [|remaining IH]; intros w attempt; cbn [attempts];
  pose proof (request_fetched w url options (nets attempt)) as Hf;
  destruct (request w url options (nets attempt)) as [[r|e] w1] eqn:Hreq;
  cbn [fst snd] in *;
  assert (Hlen : (length (fetched w1) <= S (length (fetched w)))%nat)
    by (destruct (fst (prepare w url options));
        [rewrite Hf; cbn; lia | destruct Hf as [_ ->]; lia]);
  try (cbn [snd]; lia);
  destruct (includes (message e) "Authentication failed"); cbn [snd]; try lia.
specialize (IH w1 (S attempt)). lia.
Qed.

Lemma attempts_returned (url : string) (options : RequestOptions)
  (nets : nat -> FetchOutcome) (remaining : nat) :
  forall (w : World) (attempt : nat) (r : Response),
    fst (attempts w url options nets attempt remaining) = Return r ->
    exists i t, (attempt <= i <= attempt + remaining)%nat
                /\ nets i = Responded t r
                /\ (status r =? 401) || (status r =? 403) = false.
Proof.
assert (Hone : forall w attempt r w1,
  request w url options (nets attempt) = (Return r, w1) ->
  exists t, nets attempt = Responded t r
            /\ (status r =? 401) || (status r =? 403) = false).
{ intros w attempt r w1. unfold request.
  destruct (prepare w url options) as [[call|e] w0]; [|discriminate].
  unfold settle. destruct (nets attempt) as [t response | t e]; [|discriminate].
  destruct ((status response =? 401) || (status response =? 403)) eqn:E.
  - rewrite (receive_rejected _ _ _ E). discriminate.
  - rewrite (receive_other _ _ _ E). intros [= <- _]. eauto. }
induction remaining as [|remaining IH]; intros w attempt r; cbn [attempts];
  destruct (request w url options (nets attempt)) as [[r0|e] w1] eqn:Hreq; cbn [fst].
- intros [= <-]. destruct (Hone _ _ _ _ Hreq) as (t & Hn & Hs).
  exists attempt, t. repeat split; auto; lia.
- destruct (includes (message e) "Authentication failed"); discriminate.
- intros [= <-]. destruct (Hone _ _ _ _ Hreq) as (t & Hn & Hs).
  exists attempt, t. repeat split; auto; lia.
- destruct (includes (message e) "Authentication failed"); [discriminate|].
  intros H. destruct (IH _ _ _ H) as (i & t & Hi & Hn & Hs).
  exists i, t. repeat split; auto; lia.
Qed.

(** X7. [requestWithRetry] calls [fetch] at most [maxRetries + 1] times,
    and a response it returns is the answer to one of those attempts,
    with a status other than 401 and 403. *)
Theorem requestWithRetry_is_bounded (w : World) (url : string)
  (options : RequestOptions) (maxRetries : nat) (nets : nat -> FetchOutcome) :
  (length (fetched (snd (requestWithRetry w url options maxRetries nets)))
   <= length (fetched w) + S maxRetries)%nat
  /\ forall r, fst (requestWithRetry w url options maxRetries nets) = Return r ->
       exists i t, (i <= maxRetries)%nat /\ nets i = Responded t r
                   /\ (status r =? 401) || (status r =? 403) = false.
Proof.
unfold requestWithRetry. split; [apply attempts_fetched|].
intros r H. destruct (attempts_returned _ _ _ _ _ _ _ H) as (i & t & Hi & Hn & Hs).
exists i, t. repeat split; auto; lia.
Qed.

(** X8. An answer of 401 or 403 is not retried: with a token stored,
    [requestWithRetry] whose first attempt is answered so stops there,
    with one call of [fetch] and the error
    "Authentication failed: <status>", whatever [maxRetries] is. *)
Theorem requestWithRetry_gives_up_on_rejection (w : World) (url : string)
  (options : RequestOptions) (maxRetries : nat) (nets : nat -> FetchOutcome)
  (t : Z) (r : Response) :
  truthy (stored w) = true ->
  nets 0%nat = Responded t r ->
  (status r =? 401) || (status r =? 403) = true ->
  requestWithRetry w url options maxRetries nets = request w url options (nets 0%nat)
  /\ fst (requestWithRetry w url options maxRetries nets)
     = Throw (AuthRejected (status r))
  /\ length (fetched (snd (requestWithRetry w url options maxRetries nets)))
     = S (length (fetched w)).
Proof.
intros Ht Hn Hs.
assert (Hreq : exists w1 call,
  request w url options (nets 0%nat) = (Throw (AuthRejected (status r)), w1)
  /\ fetched w1 = call :: fetched w).
{ pose proof (request_fetched w url options (nets 0%nat)) as Hf.
  unfold request in *. rewrite prepare_cases in *. cbn zeta in *. rewrite Ht in *.
  destruct (negb (skipAuth options) && negb (isLoginRequest url));
    cbn [fst snd] in *; rewrite Hn in *; unfold settle in *; cbn [arrival] in *;
    rewrite (receive_rejected _ _ _ Hs) in *; cbn [fst snd] in *; eauto. }
destruct Hreq as (w1 & call & Hreq & Hf).
assert (Hsame : requestWithRetry w url options maxRetries nets
                = (Throw (AuthRejected (status r)), w1)).
{ unfold requestWithRetry. destruct maxRetries; cbn [attempts];
    rewrite Hreq, includes_Authentication_failed; reflexivity. }
rewrite Hsame, Hreq. cbn [fst snd]. rewrite Hf. auto.
Qed.

Lemma requestWithRetry_gives_up_on_rejection_witness :
  fst (requestWithRetry signed_in_world API_CONFIG.MODE get_options 3
         (fun _ => Responded 5 unauthorized))
  = Throw (AuthRejected 401)
  /\ length (fetched (snd (requestWithRetry signed_in_world API_CONFIG.MODE
                             get_options 3 (fun _ => Responded 5 unauthorized))))
     = 1%nat.
Proof.
destruct (requestWithRetry_gives_up_on_rejection signed_in_world API_CONFIG.MODE
            get_options 3 (fun _ => Responded 5 unauthorized) 5 unauthorized)
  as (_ & He & Hl); try reflexivity.
split; [exact He | exact Hl].
Defined.

Lemma attempts_without_token (url : string) (options : RequestOptions)
  (nets : nat -> FetchOutcome) (remaining : nat) :
  skipAuth options = false -> isLoginRequest url = false -> requiresAuth url = true ->
  forall (w : World) (attempt : nat),
    stored w = JNull ->
    fst (attempts w url options nets attempt remaining) = Throw AuthRequired
    /\ fetched (snd (attempts w url options nets attempt remaining)) = fetched w
    /\ auth (snd (attempts w url options nets attempt remaining)) = auth w.
Proof.
intros Hskip Hlogin Hreq.
assert (Hone : forall w net, stored w = JNull ->
  request w url options net
  = (Throw AuthRequired, with_storage w (snd (getStoredToken (storage w))))).
{ intros w net Hs. unfold request. rewrite prepare_cases. cbn zeta.
  now rewrite Hskip, Hlogin, Hs, Hreq. }
induction remaining as [|remaining IH]; intros w attempt Hs; cbn [attempts];
  rewrite (Hone w _ Hs); cbn [message AuthRequired Error].
- now cbn.
- replace (includes _ "Authentication failed") with false by reflexivity.
  destruct (IH (with_storage w (snd (getStoredToken (storage w)))) (S attempt))
    as (A & B & C).
  + rewrite stored_reread. exact Hs.
  + now rewrite A, B, C.
Qed.

(** X9. With no token stored, [requestWithRetry] to a URL that requires
    authentication never calls [fetch], however many retries it is
    given: every attempt stops with "Authentication required but no token
    available", which is the error it ends with. *)
Theorem requestWithRetry_without_token_never_fetches (w : World) (url : string)
  (options : RequestOptions) (maxRetries : nat) (nets : nat -> FetchOutcome) :
  skipAuth options = false ->
  requiresAuth url = true ->
  stored w = JNull ->
  fst (requestWithRetry w url options maxRetries nets) = Throw AuthRequired
  /\ fetched (snd (requestWithRetry w url options maxRetries nets)) = fetched w
  /\ auth (snd (requestWithRetry w url options maxRetries nets)) = auth w.
Proof.
intros Hskip Hreq Hs. apply attempts_without_token; auto.
apply requiresAuth_not_login. exact Hreq.
Qed.

Lemma requestWithRetry_without_token_never_fetches_witness :
  fst (requestWithRetry fresh_world API_CONFIG.MODE get_options 2
         (fun _ => Responded 5 (ok_response "{}")))
  = Throw AuthRequired
  /\ fetched (snd (requestWithRetry fresh_world API_CONFIG.MODE get_options 2
                     (fun _ => Responded 5 (ok_response "{}"))))
     = [].
Proof.
destruct (requestWithRetry_without_token_never_fetches fresh_world API_CONFIG.MODE
            get_options 2 (fun _ => Responded 5 (ok_response "{}")))
  as (He & Hf & _); try reflexivity.
split; [exact He | exact Hf].
Defined.

End ClientLaws.
(** ** The request agent *)

Section AgentLaws.
Import TokenManager HttpClient InFlight Session Examples.

Lemma cleanJsonString_length (text : string) :
  (len text <= len (HttpRequestAgent._cleanJsonString text))%nat.
Proof.
unfold len. induction text as [|c text IH]; cbn [HttpRequestAgent._cleanJsonString]; [lia|].
destruct (is_control c); [|cbn; lia].
unfold u_escape. cbn. lia.
Qed.

(** X10. [_cleanJsonString] leaves no character below 0x20 in its
    result, returns its argument unchanged exactly when the argument has
    none, never shortens the text, and cleaning twice is cleaning once. *)
Theorem cleanJsonString_escapes_control_characters (text : string) :
  let clean := HttpRequestAgent._cleanJsonString in
  let printable := formValidation.all_chars (fun c => negb (is_control c)) in
  printable (clean text) = true
  /\ (clean text = text <-> printable text = true)
  /\ clean (clean text) = clean text
  /\ (len text <= len (clean text))%nat.
Proof.
cbn zeta. split; [apply cleanJsonString_no_control|]. split; [|split].
- split.
  + intros H. rewrite <- H. apply cleanJsonString_no_control.
  + apply cleanJsonString_id.
- apply cleanJsonString_id, cleanJsonString_no_control.
- apply cleanJsonString_length.
Qed.

Lemma parse_text_log (w : World) (text : string) :
  events (snd (HttpRequestAgent.parse_text w text)) = events w
  /\ fetched (snd (HttpRequestAgent.parse_text w text)) = fetched w
  /\ (console (snd (HttpRequestAgent.parse_text w text)) = console w
      \/ (console (snd (HttpRequestAgent.parse_text w text))
          = HttpRequestAgent.excerpt text :: console w
          /\ fst (HttpRequestAgent.parse_text w text)
             = Throw (HttpRequestAgent.InvalidJson w text))).
Proof.
unfold HttpRequestAgent.parse_text.
destruct (is_empty text); [auto|].
destruct (JSON.parse text); [auto|].
destruct (negb _); [|cbn; auto].
destruct (JSON.parse _); cbn; auto.
Qed.

Lemma parseResponseBody_log (w : World) (response : Response) :
  events (snd (HttpRequestAgent._parseResponseBody w response)) = events w
  /\ fetched (snd (HttpRequestAgent._parseResponseBody w response)) = fetched w
  /\ (console (snd (HttpRequestAgent._parseResponseBody w response)) = console w
      \/ (console (snd (HttpRequestAgent._parseResponseBody w response))
          = HttpRequestAgent.excerpt (text response) :: console w
          /\ fst (HttpRequestAgent._parseResponseBody w response)
             = Throw (HttpRequestAgent.InvalidJson w (text response)))).
Proof.
unfold HttpRequestAgent._parseResponseBody.
destruct (_ || _); [auto|].
destruct (HttpRequestAgent.not_json _); [auto|]. apply parse_text_log.
Qed.

(** The value parsed from a response does not depend on the world. *)
Lemma parseResponseBody_value (w w0 : World) (response : Response) (data : JSValue) :
  fst (HttpRequestAgent._parseResponseBody w response) = Return data ->
  fst (HttpRequestAgent._parseResponseBody w0 response) = Return data.
Proof.
unfold HttpRequestAgent._parseResponseBody, HttpRequestAgent.parse_text.
destruct (_ || _); [exact id|].
destruct (HttpRequestAgent.not_json _); [exact id|].
destruct (is_empty _); [exact id|].
destruct (JSON.parse (text response)); [exact id|].
destruct (negb _); [|discriminate].
destruct (JSON.parse _); [exact id | discriminate].
Qed.

Lemma agent_result_world {A B : Type} (f : JsError -> JsError)
  (r : Result A * World) (k : A -> World -> Result B * World) :
  snd (match r with
       | (Return a, w1) =>
           match k a w1 with
           | (Return v, w2) => (Return v, w2)
           | (Throw e, w2) => (Throw (f e), w2)
           end
       | (Throw e, w1) => (Throw (f e), w1)
       end)
  = match r with
    | (Return a, w1) => snd (k a w1)
    | (Throw _, w1) => w1
    end.
Proof. destruct r as [[a|e] w1]; [|reflexivity]. now destruct (k a w1) as [[v|e] w2]. Qed.

(** X11. With a token stored, a [get] or [post] of the agent that is
    answered with a status outside 200 to 299, other than 401 and 403,
    fails with the error "HTTP <status>" and leaves the stored token and
    the session state as they were. *)
Theorem agent_reports_http_status (w : World) (endpoint : string) (data : JSValue)
  (t : Z) (r : Response) :
  truthy (stored w) = true ->
  ok r = false ->
  (status r =? 401) || (status r =? 403) = false ->
  let failed (outcome : Result JSValue * World) :=
    fst outcome = Throw (Error (append "HTTP " (JSON.stringify_int (status r))))
    /\ stored (snd outcome) = stored w
    /\ auth (snd outcome) = auth w in
  failed (HttpRequestAgent.get w endpoint (Responded t r))
  /\ failed (HttpRequestAgent.post w endpoint data (Responded t r)).
Proof.
intros Ht Hok Hs. cbn zeta.
assert (H : forall options fallback,
  fallback <> EmptyString ->
  let outcome :=
    match request w endpoint options (Responded t r) with
    | (Return response, w1) =>
        match HttpRequestAgent._parseResponse w1 response with
        | (Return v, w2) => (Return v, w2)
        | (Throw e, w2) => (Throw (HttpRequestAgent.rewrap fallback e), w2)
        end
    | (Throw e, w1) => (Throw (HttpRequestAgent.rewrap fallback e), w1)
    end in
  fst outcome = Throw (Error (append "HTTP " (JSON.stringify_int (status r))))
  /\ stored (snd outcome) = stored w /\ auth (snd outcome) = auth w).
{ intros options fallback Hfb. cbn zeta.
  assert (Hret : exists w1, request w endpoint options (Responded t r) = (Return r, w1)).
  { unfold request. rewrite prepare_cases. cbn zeta. rewrite Ht.
    destruct (negb (skipAuth options) && negb (isLoginRequest endpoint));
      unfold settle; cbn [arrival]; rewrite (receive_other _ _ _ Hs); eauto. }
  destruct Hret as (w1 & Hreq). destruct (request_returned _ _ _ _ _ _ Hreq) as [A B].
  rewrite Hreq. cbn [fst snd].
  unfold HttpRequestAgent._parseResponse. rewrite Hok. cbn [negb fst snd].
  repeat split; auto. }
split.
- apply (H (mkOptions false "GET" ∅ None) "GET request failed"%string). discriminate.
- apply (H (mkOptions false "POST" json_headers (Some data)) "POST request failed"%string).
  discriminate.
Qed.

Lemma agent_reports_http_status_witness :
  fst (HttpRequestAgent.get signed_in_world API_CONFIG.MODE
         (Responded 5 (mkResponse 500 ∅ "")))
  = Throw (Error "HTTP 500")
  /\ stored (snd (HttpRequestAgent.get signed_in_world API_CONFIG.MODE
                    (Responded 5 (mkResponse 500 ∅ ""))))
     = JStr "abc".
Proof.
destruct (agent_reports_http_status signed_in_world API_CONFIG.MODE JNull 5
            (mkResponse 500 ∅ "")) as ((He & Hs & _) & _); try reflexivity.
split; [exact He | rewrite Hs; reflexivity].
Defined.

(** *** Login, logout and validation *)

Lemma login_failed_world {A : Type} (w : World) (e : JsError) :
  snd (@HttpRequestAgent.login_failed A w e)
  = with_storage w (Storage.removeItem (storage w) storageKey).
Proof. unfold HttpRequestAgent.login_failed. now destruct (_ && _). Qed.

(** The world after [login], by cases: the token of the answer was
    stored in the world left by the parser, or the key was removed. *)
Lemma login_world (w : World) (credentials : JSValue) (net : FetchOutcome) :
  let posted := HttpClient.post w API_CONFIG.LOGIN credentials true net in
  exists w2,
    (w2 = snd posted
     \/ exists response, fst posted = Return response
          /\ w2 = snd (HttpRequestAgent._parseResponseBody (snd posted) response))
    /\ (match fst (HttpRequestAgent.login w credentials net) with
        | Return data =>
            exists t ls, Js.get data "token" = Some (JStr t) /\ t <> EmptyString
              /\ Storage.setItem (storage w2) storageKey
                   (stringify_tokenData t (clock w2)) = Some ls
              /\ snd (HttpRequestAgent.login w credentials net) = with_storage w2 ls
        | Throw _ =>
            exists ls, storage (snd (HttpRequestAgent.login w credentials net))
                       = Storage.removeItem ls storageKey
              /\ snd (HttpRequestAgent.login w credentials net)
                 = with_storage w2 (Storage.removeItem ls storageKey)
        end).
Proof.
cbn zeta. unfold HttpRequestAgent.login.
destruct (HttpClient.post w API_CONFIG.LOGIN credentials true net) as [[response|e] w1].
2: { exists w1. split; [now left|]. rewrite login_failed_world.
     destruct (HttpRequestAgent.login_failed w1 e) as [[d|e'] w'] eqn:E;
       [unfold HttpRequestAgent.login_failed in E; destruct (_ && _); discriminate|].
     cbn [fst snd]. eauto. }
cbn [fst snd].
assert (Hfail : forall (w2 : World) (e : JsError),
  match fst (@HttpRequestAgent.login_failed JSValue w2 e) with
  | Return data =>
      exists t ls, Js.get data "token" = Some (JStr t) /\ t <> EmptyString
        /\ Storage.setItem (storage w2) storageKey
             (stringify_tokenData t (clock w2)) = Some ls
        /\ snd (@HttpRequestAgent.login_failed JSValue w2 e) = with_storage w2 ls
  | Throw _ =>
      exists ls, storage (snd (@HttpRequestAgent.login_failed JSValue w2 e))
                 = Storage.removeItem ls storageKey
        /\ snd (@HttpRequestAgent.login_failed JSValue w2 e)
           = with_storage w2 (Storage.removeItem ls storageKey)
  end).
{ intros w2 e. rewrite login_failed_world. unfold HttpRequestAgent.login_failed.
  destruct (_ && _); cbn [fst]; eauto. }
destruct (negb (ok response)).
- exists (snd (HttpRequestAgent._parseResponseBody w1 response)).
  split; [right; eauto|].
  destruct (HttpRequestAgent._parseResponseBody w1 response) as [parsed w2]. cbn [snd].
  destruct (HttpRequestAgent.server_message _); apply Hfail.
- exists (snd (HttpRequestAgent._parseResponseBody w1 response)).
  split; [right; eauto|].
  destruct (HttpRequestAgent._parseResponseBody w1 response) as [[data|e] w2]; cbn [snd];
    [|apply Hfail].
  destruct (Js.get data "token") as [tok|] eqn:Htok; [|apply Hfail].
  destruct (negb (truthy tok)); [apply Hfail|].
  destruct (storeToken tok (clock w2) (storage w2)) as [stored_ok ls] eqn:Hstore.
  destruct stored_ok; cbn [negb].
  + destruct (storeToken_true _ _ _ _ Hstore) as (t & -> & Hne & Hset).
    cbn [fst snd]. eauto 10.
  + pose proof (storeToken_false tok (clock w2) (storage w2)) as Hls.
    rewrite Hstore in Hls. cbn in Hls. rewrite Hls by reflexivity.
    replace (with_storage w2 (storage w2)) with w2 by now destruct w2.
    apply Hfail.
Qed.

Lemma post_login_fetched (w : World) (credentials : JSValue) (net : FetchOutcome) :
  fetched (snd (HttpClient.post w API_CONFIG.LOGIN credentials true net))
  = mkCall API_CONFIG.LOGIN "POST" None json_headers (Some credentials) :: fetched w.
Proof.
unfold HttpClient.post.
pose proof (request_fetched w API_CONFIG.LOGIN
              (mkOptions true "POST" json_headers (Some credentials)) net) as H.
exact H.
Qed.

(** The world left by the POST of [login], or by the parser after it,
    holds the one call of [fetch]. *)
Lemma login_world_fetched (w : World) (credentials : JSValue) (net : FetchOutcome)
  (w2 : World) :
  let posted := HttpClient.post w API_CONFIG.LOGIN credentials true net in
  (w2 = snd posted
   \/ exists response, fst posted = Return response
        /\ w2 = snd (HttpRequestAgent._parseResponseBody (snd posted) response)) ->
  fetched w2
  = mkCall API_CONFIG.LOGIN "POST" None json_headers (Some credentials) :: fetched w.
Proof.
cbn zeta. intros [-> | (response & _ & ->)].
- apply post_login_fetched.
- rewrite (proj1 (proj2 (parseResponseBody_log _ _))). apply post_login_fetched.
Qed.

(** X12. [login] calls [fetch] exactly once, whatever the credentials,
    the state of the store and the answer: a POST to [/api/login] with
    the credentials as they were given for body, the JSON content type,
    and no bearer token even when a token is stored. *)
Theorem login_posts_credentials_once (w : World) (credentials : JSValue)
  (net : FetchOutcome) :
  fetched (snd (HttpRequestAgent.login w credentials net))
  = mkCall "/api/login" "POST" None
           {[ "Content-Type"%string := "application/json"%string ]} (Some credentials)
    :: fetched w.
Proof.
destruct (login_world w credentials net) as (w2 & Hw2 & H).
pose proof (login_world_fetched w credentials net w2 Hw2) as Hf.
destruct (fst (HttpRequestAgent.login w credentials net)).
- destruct H as (t & ls & _ & _ & _ & ->). exact Hf.
- destruct H as (ls & _ & ->). exact Hf.
Qed.

(** X13. [login] ends in one of two ways.  It returns the data of the
    answer, and then the answer carried a non-empty string token, which
    is what [getStoredToken] reads afterwards.  Or it throws, and then
    the token key is absent from the storage, whatever was stored
    before the call. *)
Theorem login_stores_the_token_or_clears (w : World) (credentials : JSValue)
  (net : FetchOutcome) :
  match HttpRequestAgent.login w credentials net with
  | (Return data, w') =>
      exists t, t <> EmptyString
        /\ Js.get data "token" = Some (JStr t)
        /\ getStoredToken (storage w') = (JStr t, storage w')
        /\ exists at_time response, net = Responded at_time response /\ ok response = true
  | (Throw _, w') => Storage.getItem (storage w') storageKey = None
  end.
Proof.
destruct (login_world w credentials net) as (w2 & Hw2 & H).
pose proof (login_outcome w credentials net) as Hout.
destruct (HttpRequestAgent.login w credentials net) as [[data|e] w'] eqn:Hlogin;
  cbn [fst snd] in *.
- destruct H as (t & ls & Htok & Hne & Hset & ->).
  exists t. split; [exact Hne|]. split; [exact Htok|]. split.
  + cbn [with_storage storage]. now apply (getStoredToken_stored t (clock w2) (storage w2)).
  + revert Hlogin. unfold HttpRequestAgent.login, HttpClient.post, request.
    destruct (prepare w API_CONFIG.LOGIN _) as [[call|e] w0].
    2: { rewrite (surjective_pairing (HttpRequestAgent.login_failed w0 e)).
         unfold HttpRequestAgent.login_failed. destruct (_ && _); discriminate. }
    unfold settle. destruct net as [at_time response | at_time e].
    2: { unfold HttpRequestAgent.login_failed. destruct (_ && _); discriminate. }
    cbn [arrival].
    destruct ((status response =? 401) || (status response =? 403)) eqn:E.
    { rewrite (receive_rejected _ _ _ E).
      unfold HttpRequestAgent.login_failed. destruct (_ && _); discriminate. }
    rewrite (receive_other _ _ _ E).
    destruct (ok response) eqn:Hok; [eauto|]. cbn [negb].
    destruct (HttpRequestAgent._parseResponseBody _ response) as [parsed w3].
    destruct (HttpRequestAgent.server_message _);
      unfold HttpRequestAgent.login_failed; destruct (_ && _); discriminate.
- destruct H as (ls & Hs & _). rewrite Hs. apply getItem_removeItem.
Qed.

(** X14. A login answered with 401 or 403 fails with the error of the
    client, "Authentication failed: <status>": the texts that
    [getErrorMessage] has for these two statuses are never used by
    [login].  The [auth-error] event of the rejection is dispatched for
    the login URL and the token key is removed. *)
Theorem login_rejection_is_an_authentication_failure (w : World)
  (credentials : JSValue) (at_time : Z) (response : Response) :
  (status response =? 401) || (status response =? 403) = true ->
  let outcome := HttpRequestAgent.login w credentials (Responded at_time response) in
  fst outcome
  = Throw (Error (append "Authentication failed: "
                         (JSON.stringify_int (status response))))
  /\ events (snd outcome) = mkEvent (status response) "/api/login" :: events w
  /\ Storage.getItem (storage (snd outcome)) storageKey = None.
Proof.
intros Hs. cbn zeta. unfold HttpRequestAgent.login, HttpClient.post, request.
rewrite prepare_cases. cbn zeta. cbn [skipAuth negb andb].
unfold settle. cbn [arrival]. rewrite (receive_rejected _ _ _ Hs).
unfold HttpRequestAgent.login_failed. cbn [name AuthRejected Error String.eqb andb].
replace (String.eqb "Error" "TypeError") with false by reflexivity. cbn [andb fst snd].
split; [reflexivity|].
destruct (authErrorListenerSet _); cbn; (split; [reflexivity | apply lookup_delete_eq]).
Qed.

Lemma login_rejection_is_an_authentication_failure_witness :
  fst (HttpRequestAgent.login signed_in_world empty_password (Responded 9 unauthorized))
  = Throw (Error "Authentication failed: 401").
Proof.
apply (login_rejection_is_an_authentication_failure signed_in_world empty_password 9
         unauthorized eq_refl).
Defined.

Lemma isLoginRequest_LOGOUT : isLoginRequest API_CONFIG.LOGOUT = false.
Proof. reflexivity. Qed.

(** X15. [logout] always ends with the token key absent from the
    storage, whatever the server answers and even when the call fails.
    The server is told only when a token was stored: then [fetch] is
    called once, a POST to [/api/logout] that carries the stored token;
    otherwise not at all. *)
Theorem logout_always_clears (w : World) (net : FetchOutcome) :
  Storage.getItem (storage (HttpRequestAgent.logout w net)) storageKey = None
  /\ fetched (HttpRequestAgent.logout w net)
     = if truthy (stored w)
       then mkCall "/api/logout" "POST" (Some (stored w))
                   {[ "Content-Type"%string := "application/json"%string ]}
                   (Some (JObj []))
            :: fetched w
       else fetched w.
Proof.
unfold HttpRequestAgent.logout.
pose proof (stored_reread w) as Hre. unfold stored in Hre |- *.
destruct (getStoredToken (storage w)) as [token ls]. cbn [fst snd] in *.
split; [apply getItem_removeItem|]. cbn [with_storage fetched].
destruct (truthy token) eqn:Ht; [|reflexivity].
unfold HttpClient.post.
pose proof (request_fetched (with_storage w ls) API_CONFIG.LOGOUT
              (mkOptions false "POST" json_headers (Some (JObj []))) net) as Hf.
rewrite prepare_cases in Hf. cbn zeta in Hf.
cbn [skipAuth negb method opt_headers body andb] in Hf.
rewrite isLoginRequest_LOGOUT in Hf. cbn [negb] in Hf.
unfold stored in Hf. rewrite Hre, Ht in Hf. cbn [fst] in Hf.
unfold json_headers in Hf. exact Hf.
Qed.

(** X16. [validateToken] answers [valid] exactly when a token is still
    stored afterwards, and then it is the token that was stored before
    and the server answered with a 2xx status.  When it answers not
    valid no token is left to read.  Without a stored token it answers
    not valid without calling [fetch]. *)
Theorem validateToken_keeps_or_clears (w : World) (net : FetchOutcome) :
  let outcome := HttpRequestAgent.validateToken w net in
  let valid := fst (fst outcome) in
  valid = truthy (stored (snd outcome))
  /\ (valid = true ->
      stored (snd outcome) = stored w
      /\ exists at_time response, net = Responded at_time response /\ ok response = true)
  /\ (valid = false -> stored (snd outcome) = JNull)
  /\ (truthy (stored w) = false ->
      valid = false /\ fetched (snd outcome) = fetched w).
Proof.
cbn zeta. pose proof (validateToken_outcome w net) as Hout.
assert (Hv : fst (fst (HttpRequestAgent.validateToken w net))
             = truthy (stored (snd (HttpRequestAgent.validateToken w net)))).
{ destruct (HttpRequestAgent.validateToken w net) as [[valid usr] w']. now cbn. }
split; [exact Hv|]. split; [|split].
- clear Hout Hv. unfold HttpRequestAgent.validateToken.
  pose proof (stored_reread w) as Hre. unfold stored at 2 in Hre.
  pose proof (eq_refl (stored w)) as Hw. unfold stored at 2 in Hw.
  destruct (getStoredToken (storage w)) as [token ls]. cbn [fst snd] in Hre, Hw.
  destruct (truthy token); cbn [negb fst snd]; [|discriminate].
  unfold HttpClient.get.
  destruct (request (with_storage w ls) API_CONFIG.VALIDATE_TOKEN
              (mkOptions false "GET" ∅ None) net) as [[response|e] w2] eqn:Hreq;
    [|discriminate].
  pose proof (request_return_kept _ _ _ _ _ _ Hreq) as (_ & _ & Hs2).
  destruct (ok response) eqn:Hok; cbn [negb fst snd]; [|discriminate].
  pose proof (parseResponseBody_kept w2 response) as (_ & _ & Hs3).
  destruct (HttpRequestAgent._parseResponseBody w2 response) as [[data|e] w3];
    cbn [fst snd] in *; [|discriminate].
  destruct (Js.get data "user"); cbn [fst snd]; [|discriminate].
  intros _. split; [congruence|].
  revert Hreq. unfold request.
  destruct (prepare _ _ _) as [[call|e] w0]; [|discriminate].
  unfold settle. destruct net as [at_time r | at_time e]; [|discriminate].
  cbn [arrival]. destruct ((status r =? 401) || (status r =? 403)) eqn:E.
  + rewrite (receive_rejected _ _ _ E). discriminate.
  + rewrite (receive_other _ _ _ E). intros [= -> _]. eauto.
- intros H. apply stored_falsy. congruence.
- intros Ht. unfold HttpRequestAgent.validateToken. unfold stored in Ht.
  destruct (getStoredToken (storage w)) as [token ls]. cbn [fst] in Ht.
  rewrite Ht. cbn. auto.
Qed.

End AgentLaws.
(** ** Navigation and the helpers of authUtils *)

Section AuthUtilsLaws.
Import TokenManager HttpClient InFlight Session Examples.

(** X17. Redirects settle.  After [handleAuthStateChange] has navigated
    (or stayed), [getRedirectPath] asks for no further redirect; a user
    who is not authenticated is then on a public route ([/login] or
    [/]), an authenticated one is never left on [/login], and without a
    redirect the place is the one it was. *)
Theorem redirects_settle (isAuthenticated : bool) (currentPath : string) :
  let land :=
    AuthUtils.handleAuthStateChange isAuthenticated (fun path _ => path)
      currentPath currentPath in
  AuthUtils.getRedirectPath isAuthenticated land = None
  /\ (isAuthenticated = false -> AuthUtils.requiresAuth land = false)
  /\ (isAuthenticated = true -> land <> "/login"%string)
  /\ (AuthUtils.getRedirectPath isAuthenticated currentPath = None ->
      land = currentPath).
Proof.
cbn zeta.
unfold AuthUtils.handleAuthStateChange, AuthUtils.getRedirectPath, AuthUtils.requiresAuth.
cbn [existsb].
destruct isAuthenticated; cbn [andb negb].
- destruct (String.eqb currentPath "/login") eqn:E.
  + cbn. repeat split; try discriminate.
  + cbn. rewrite E. repeat split; try discriminate.
    intros _ ->. discriminate.
- destruct (String.eqb currentPath "/login") eqn:E; cbn [orb negb].
  + rewrite E. cbn. repeat split; discriminate.
  + destruct (String.eqb currentPath "/") eqn:E2; cbn [orb negb].
    * rewrite E, E2. cbn. repeat split; discriminate.
    * cbn. repeat split; discriminate.
Qed.

Lemma dispatch_clearAuthToken_closed (w : World) :
  closed (Store.dispatch w AuthSlice.clearAuthToken)
  /\ token (auth (Store.dispatch w AuthSlice.clearAuthToken)) = JNull.
Proof.
change (Store.dispatch w AuthSlice.clearAuthToken) with (Store.dispatch_clearAuthToken w).
rewrite dispatch_clearAuthToken_world. unfold closed. cbn.
repeat split. apply lookup_delete_eq.
Qed.

(** X18. The handler made by [createAuthErrorHandler], given the error
    the client throws on a 401 or a 403, closes the session (token key
    removed, state not authenticated, token of the state [null]) and
    navigates to [/login], whether or not the listener of [auth-error]
    is registered.  The error of a request stopped for want of a token
    is not one the handler reacts to: nothing changes and nothing is
    navigated. *)
Theorem auth_error_handler_closes_session {N : Type} (navigate : string -> N -> N)
  (w : World) (place : N) :
  (forall status,
     let handled :=
       AuthUtils.createAuthErrorHandler navigate (AuthRejected status) w place in
     closed (fst handled)
     /\ token (auth (fst handled)) = JNull
     /\ snd handled = navigate "/login"%string place)
  /\ AuthUtils.createAuthErrorHandler navigate AuthRequired w place = (w, place).
Proof.
split; [|reflexivity].
intros status. cbn zeta. unfold AuthUtils.createAuthErrorHandler.
rewrite includes_Authentication_failed. cbn [orb fst snd].
destruct (dispatch_clearAuthToken_closed w) as [Hc Ht]. auto.
Qed.

End AuthUtilsLaws.
(** ** Form validation and sanitizing *)

Section FormLaws.
Import formValidation Examples.

(** A text without white space is its own trimmed form. *)
Lemma trim_solid (s : string) :
  all_chars (fun c => negb (is_space c)) s = true -> trim s = s.
Proof.
intros H. unfold trim.
assert (Hs : trimStart s = s).
{ destruct s as [|c s]; [reflexivity|]. cbn in *.
  apply andb_true_iff in H as [Hc _]. apply negb_true_iff in Hc. now rewrite Hc. }
rewrite Hs. clear Hs. induction s as [|c s IH]; [reflexivity|].
cbn in H. apply andb_true_iff in H as [Hc Hr]. apply negb_true_iff in Hc.
cbn [trimEnd]. rewrite (IH Hr). destruct s; [now rewrite Hc | reflexivity].
Qed.

Lemma name_char_not_space (c : ascii) : name_char c = true -> is_space c = false.
Proof.
destruct c as [[] [] [] [] [] [] [] []]; vm_compute; congruence.
Qed.

Lemma all_chars_impl (p q : ascii -> bool) (s : string) :
  (forall c, p c = true -> q c = true) ->
  all_chars p s = true -> all_chars q s = true.
Proof.
intros Hpq. induction s as [|c s IH]; [reflexivity|]. cbn.
intros H. apply andb_true_iff in H as [Hc Hr]. now rewrite (Hpq _ Hc), IH.
Qed.

Lemma keep_all (p : ascii -> bool) (s : string) : all_chars p (keep p s) = true.
Proof.
induction s as [|c s IH]; [reflexivity|]. cbn [keep].
destruct (p c) eqn:E; [cbn; now rewrite E|exact IH].
Qed.

Lemma keep_id (p : ascii -> bool) (s : string) : all_chars p s = true -> keep p s = s.
Proof.
induction s as [|c s IH]; [reflexivity|]. cbn.
intros H. apply andb_true_iff in H as [Hc Hr]. now rewrite Hc, IH.
Qed.

Lemma names_are_solid (s : string) :
  all_chars name_char s = true -> trim s = s.
Proof.
intros H. apply trim_solid. revert H. apply all_chars_impl.
intros c Hc. now rewrite (name_char_not_space c Hc).
Qed.

(** [validateField] on a string, for the rules of the two fields. *)
Lemma validateField_username (s : string) :
  validateField "username" (JStr s)
  = if is_empty (trim s) then Return ["Username is required"%string]
    else Return
           ((if (100 <? len (trim s))%nat
             then ["Username must be no more than 100 characters"%string] else [])
            ++ (if all_chars name_char (trim s) then []
                else ["Username contains invalid characters"%string])).
Proof.
unfold validateField.
change (VALIDATION_RULES "username") with (Some (mkRules true 1 100 (Some username_pattern))).
unfold blank. cbn [truthy negb required minLength maxLength pattern].
destruct s as [|c s].
{ reflexivity. }
cbn [is_empty negb].
destruct (is_empty (trim (String c s))) eqn:E; [reflexivity|].
assert (Hlen : (len (trim (String c s)) <? 1)%nat = false).
{ apply Nat.ltb_ge. destruct (trim (String c s)); [discriminate | cbn; lia]. }
cbn [Nat.eqb negb andb]. rewrite Hlen. cbn [app].
unfold username_pattern. rewrite E. cbn [negb andb].
destruct (100 <? _)%nat; destruct (all_chars name_char _); reflexivity.
Qed.

Lemma validateField_password (s : string) :
  validateField "password" (JStr s)
  = if is_empty (trim s) then Return ["Password is required"%string]
    else Return
           (if (200 <? len (trim s))%nat
            then ["Password must be no more than 200 characters"%string] else []).
Proof.
unfold validateField.
change (VALIDATION_RULES "password") with (Some (mkRules true 1 200 None)).
unfold blank. cbn [truthy negb required minLength maxLength pattern].
destruct s as [|c s].
{ reflexivity. }
cbn [is_empty negb].
destruct (is_empty (trim (String c s))) eqn:E; [reflexivity|].
assert (Hlen : (len (trim (String c s)) <? 1)%nat = false).
{ apply Nat.ltb_ge. destruct (trim (String c s)); [discriminate | cbn; lia]. }
cbn [Nat.eqb negb andb]. rewrite Hlen. cbn [app].
destruct (200 <? _)%nat; reflexivity.
Qed.

Lemma inherited_spec (field : string) :
  inherited field = false <-> ~ In field Object_prototype.
Proof.
unfold inherited. split.
- intros H Hin. apply not_true_iff_false in H. apply H.
  apply existsb_exists. exists field. split; [exact Hin | apply String.eqb_refl].
- intros H. apply not_true_iff_false. intros He.
  apply existsb_exists in He as (k & Hin & Hk).
  apply String.eqb_eq in Hk as <-. exact (H Hin).
Qed.

(** The rules found for a name inherited from [Object.prototype]. *)
Lemma validateField_inherited (field : string) (value : JSValue) :
  In field Object_prototype ->
  validateField field value
  = if negb (truthy value) || typeof_string value then Return []
    else Throw TypeError_trim.
Proof.
intros Hin.
assert (Hr : VALIDATION_RULES field = Some (mkRules false 0 0 None)).
{ cbn [Object_prototype In] in Hin.
  repeat (destruct Hin as [<- | Hin]; [reflexivity|]). destruct Hin. }
unfold validateField. rewrite Hr. unfold blank.
destruct value as [| |b|q|s|fields|items];
  cbn [truthy negb typeof_string orb required minLength maxLength pattern];
  try reflexivity.
- now destruct b.
- now destruct (Qeq_bool q 0).
- destruct (is_empty s); cbn [negb]; [reflexivity|].
  now destruct (is_empty (trim s)).
Qed.

(** X19. What [validateField] accepts.  A username is valid exactly when
    its trimmed form is not empty, has at most 100 characters and holds
    only letters, digits, [_], [.] and [-]; a password exactly when its
    trimmed form is not empty and has at most 200 characters.  A field
    without rules is always valid, whatever the value.  A field named
    like a member of [Object.prototype] finds that member as its rules,
    which demand nothing: a falsy value and a string are valid, and any
    other value fails with the TypeError of [value.trim].  The minimum
    length of the rules is never what fails: a value that is not blank
    has at least one character. *)
Theorem validateField_accepts_exactly :
  (forall s,
     validateField "username" (JStr s) = Return []
     <-> trim s <> EmptyString /\ (len (trim s) <= 100)%nat
         /\ all_chars name_char (trim s) = true)
  /\ (forall s,
        validateField "password" (JStr s) = Return []
        <-> trim s <> EmptyString /\ (len (trim s) <= 200)%nat)
  /\ (forall field value, VALIDATION_RULES field = None ->
        validateField field value = Return [])
  /\ (forall field, VALIDATION_RULES field = None
        <-> field <> "username"%string /\ field <> "password"%string
            /\ ~ In field Object_prototype)
  /\ (forall field value, In field Object_prototype ->
        if negb (truthy value) || typeof_string value
        then validateField field value = Return []
        else exists e, validateField field value = Throw e
                       /\ name e = "TypeError"%string)
  /\ (forall field s errors e,
        validateField field (JStr s) = Return errors -> In e errors ->
        includes e "must be at least" = false).
Proof.
split; [|split; [|split; [|split; [|split]]]].
- intros s. rewrite validateField_username.
  destruct (is_empty (trim s)) eqn:E.
  { apply is_empty_true in E. split; [discriminate | now intros [H _]]. }
  apply is_empty_false in E.
  destruct (100 <? len (trim s))%nat eqn:L;
    [apply Nat.ltb_lt in L | apply Nat.ltb_ge in L];
    destruct (all_chars name_char (trim s)); cbn [app]; split;
      try discriminate; try (intros (_ & H1 & H2); first [lia | discriminate]);
      intros _; repeat split; auto.
- intros s. rewrite validateField_password.
  destruct (is_empty (trim s)) eqn:E.
  { apply is_empty_true in E. split; [discriminate | now intros [H _]]. }
  apply is_empty_false in E.
  destruct (200 <? len (trim s))%nat eqn:L;
    [apply Nat.ltb_lt in L | apply Nat.ltb_ge in L]; split;
      try discriminate; try (intros (_ & H1); lia); intros _; auto.
- intros field value H. unfold validateField. now rewrite H.
- intros field. rewrite <- inherited_spec. unfold VALIDATION_RULES.
  destruct (String.eqb_spec field "username") as [-> | Hu];
    [split; [discriminate | now intros [H _]]|].
  destruct (String.eqb_spec field "password") as [-> | Hp];
    [split; [discriminate | now intros (_ & H & _)]|].
  destruct (inherited field); [split; [discriminate | now intros (_ & _ & H)]|].
  split; [intros _; repeat split; auto; discriminate | reflexivity].
- intros field value Hin. rewrite (validateField_inherited field value Hin).
  destruct (negb (truthy value) || typeof_string value); [reflexivity|].
  now exists TypeError_trim.
- intros field s errors e.
  destruct (String.eqb field "username") eqn:Eu.
  { apply String.eqb_eq in Eu as ->. rewrite validateField_username.
    destruct (is_empty _); [intros [= <-] [<-|[]]; reflexivity|].
    destruct (100 <? _)%nat; destruct (all_chars _ _); intros [= <-]; cbn;
      intros H; repeat (destruct H as [<-|H]; [reflexivity|]); destruct H. }
  destruct (String.eqb field "password") eqn:Ep.
  { apply String.eqb_eq in Ep as ->. rewrite validateField_password.
    destruct (is_empty _); [intros [= <-] [<-|[]]; reflexivity|].
    destruct (200 <? _)%nat; intros [= <-]; cbn;
      intros H; repeat (destruct H as [<-|H]; [reflexivity|]); destruct H. }
  unfold validateField, VALIDATION_RULES. rewrite Eu, Ep.
  destruct (inherited field); [|now intros [= <-] []].
  unfold blank. cbn [truthy required minLength maxLength pattern negb andb Nat.eqb].
  destruct (negb (is_empty s)); cbn [negb]; [|now intros [= <-] []].
  destruct (is_empty (trim s)); now intros [= <-] [].
Qed.

Lemma sanitizeInput_username (value : JSValue) :
  exists s, sanitizeInput value "username" = keep name_char s.
Proof.
unfold sanitizeInput.
destruct value as [| |b|q|s|fields|items];
  try (exists EmptyString; destruct (_ || _); reflexivity).
destruct (negb (truthy (JStr s)) || negb (typeof_string (JStr s)));
  [now exists EmptyString|].
cbn [String.eqb Ascii.eqb Bool.eqb]. eauto.
Qed.

(** X20. A sanitized username is clean: [sanitizeInput(value,
    'username')] holds only letters, digits, [_], [.] and [-], whatever
    the value, so it is unchanged by sanitizing again, and
    [validateField] never answers "contains invalid characters" for it:
    it is valid, or required, or too long. *)
Theorem sanitized_username_is_clean (value : JSValue) :
  let sanitized := sanitizeInput value "username" in
  all_chars name_char sanitized = true
  /\ sanitizeInput (JStr sanitized) "username" = sanitized
  /\ (validateField "username" (JStr sanitized) = Return []
      \/ validateField "username" (JStr sanitized)
         = Return ["Username is required"%string]
      \/ validateField "username" (JStr sanitized)
         = Return ["Username must be no more than 100 characters"%string]).
Proof.
cbn zeta. destruct (sanitizeInput_username value) as (s & ->).
pose proof (keep_all name_char s) as Hall.
pose proof (names_are_solid _ Hall) as Htrim.
split; [exact Hall|]. split.
- unfold sanitizeInput. cbn [truthy typeof_string negb orb].
  destruct (keep name_char s) as [|c k] eqn:E; [reflexivity|].
  cbn [is_empty negb orb String.eqb Ascii.eqb Bool.eqb].
  rewrite <- E in *. rewrite Htrim. now apply keep_id.
- rewrite validateField_username, Htrim, Hall.
  destruct (is_empty _); [right; now left|].
  destruct (100 <? _)%nat; [right; right; reflexivity | now left].
Qed.

(** *** The state of a form *)

Lemma hasFormErrors_spec (fieldErrors : gmap string (list string)) :
  hasFormErrors fieldErrors = false
  <-> forall field errors, fieldErrors !! field = Some errors -> errors = [].
Proof.
unfold hasFormErrors. split.
- intros H field errors Hl.
  destruct (existsb _ _) eqn:E; [discriminate|].
  destruct errors as [|e errors]; [reflexivity|]. exfalso.
  assert (Hex : existsb (fun errors => negb (length errors =? 0)%nat)
                  (map snd (map_to_list fieldErrors)) = true).
  { apply existsb_exists. exists (e :: errors). split; [|reflexivity].
    apply in_map_iff. exists (field, e :: errors). split; [reflexivity|].
    apply list_elem_of_In, elem_of_map_to_list. exact Hl. }
  congruence.
- intros H. destruct (existsb _ _) eqn:E; [|reflexivity]. exfalso.
  apply existsb_exists in E as (errors & Hin & Hne).
  apply in_map_iff in Hin as ([field errors'] & Heq & Hin). cbn in Heq. subst errors'.
  apply list_elem_of_In, elem_of_map_to_list in Hin.
  rewrite (H _ _ Hin) in Hne. discriminate.
Qed.

Lemma validateField_string_returns (field s : string) :
  exists errors, validateField field (JStr s) = Return errors.
Proof.
unfold validateField. destruct (VALIDATION_RULES field) as [rules|]; [|eauto].
unfold blank. destruct (negb (truthy (JStr s))); [destruct (required rules); eauto|].
destruct (is_empty (trim s)); [destruct (required rules); eauto | eauto].
Qed.

(** X21. [updateFormField] never fails, and the state it returns tracks
    the field: the value kept for the field is the sanitized one, its
    errors are those of [validateField] on that value, the values and
    errors of the other fields and all touched flags are what they were,
    and [isValid] holds exactly when no field of the new state has an
    error. *)
Theorem updateFormField_tracks_the_field (formState : FormState) (field : string)
  (value : JSValue) :
  exists errors_of_field state,
    validateField field (JStr (sanitizeInput value field)) = Return errors_of_field
    /\ updateFormField formState field value = Return state
    /\ values state !! field = Some (sanitizeInput value field)
    /\ errors state !! field = Some errors_of_field
    /\ (forall other, other <> field ->
          values state !! other = values formState !! other
          /\ errors state !! other = errors formState !! other)
    /\ touched state = touched formState
    /\ (isValid state = true
        <-> forall any errors_of_any,
              errors state !! any = Some errors_of_any -> errors_of_any = []).
Proof.
destruct (validateField_string_returns field (sanitizeInput value field)) as (errs & Hv).
unfold updateFormField. rewrite Hv.
eexists errs, _. split; [reflexivity|]. split; [reflexivity|].
cbn [values errors touched isValid].
split; [apply lookup_insert_eq|]. split; [apply lookup_insert_eq|].
split; [|split; [reflexivity|]].
- intros other Hne. split; apply lookup_insert_ne; congruence.
- rewrite negb_true_iff. apply hasFormErrors_spec.
Qed.

Lemma lookup_assign {V : Type} (object : gmap string V) (field k : string) (value : V) :
  assign object field value !! k
  = if String.eqb field "__proto__" then object !! k
    else if String.eqb field k then Some value
    else object !! k.
Proof.
unfold assign. destruct (String.eqb field "__proto__"); [reflexivity|].
destruct (String.eqb_spec field k) as [-> | Hne].
- apply lookup_insert_eq.
- now apply lookup_insert_ne.
Qed.

Lemma createFormState_fields (fields : list string) :
  forall start : FormState,
    let state :=
      fold_left
        (fun state field =>
           mkForm (assign (values state) field EmptyString)
                  (assign (errors state) field [])
                  (assign (touched state) field false)
                  (isValid state))
        fields start in
    isValid state = isValid start
    /\ (forall field, In field fields -> field <> "__proto__"%string ->
          values state !! field = Some EmptyString
          /\ errors state !! field = Some []
          /\ touched state !! field = Some false)
    /\ (forall field, ~ In field fields \/ field = "__proto__"%string ->
          values state !! field = values start !! field
          /\ errors state !! field = errors start !! field
          /\ touched state !! field = touched start !! field).
Proof.
induction fields as [|f fields IH]; intros start; cbn [fold_left].
- cbn. split; [reflexivity|]. split; [intros field []|auto].
- cbn zeta in *. specialize (IH (mkForm (assign (values start) f EmptyString)
                                        (assign (errors start) f [])
                                        (assign (touched start) f false)
                                        (isValid start))).
  destruct IH as (Hv & Hin & Hout). cbn [values errors touched isValid] in *.
  split; [exact Hv|]. split.
  + intros field [<- | Hf] Hp.
    * destruct (in_dec string_dec f fields) as [Hi | Hn]; [now apply Hin|].
      destruct (Hout f (or_introl Hn)) as (A & B & C). rewrite A, B, C.
      rewrite !lookup_assign. apply String.eqb_neq in Hp. rewrite Hp.
      now rewrite String.eqb_refl.
    * now apply Hin.
  + intros field Hn. destruct (Hout field) as (A & B & C).
    { destruct Hn as [Hn | ->]; [left | now right].
      intros Hi. apply Hn. now right. }
    rewrite A, B, C, !lookup_assign.
    destruct (String.eqb_spec f "__proto__") as [_ | Hp]; [auto|].
    destruct (String.eqb_spec f field) as [<- | _]; [|auto].
    destruct Hn as [Hn | ->]; [|contradiction]. exfalso. apply Hn. now left.
Qed.

(** X22. A new form has every listed field empty, untouched and without
    errors, and counts as not valid; only the field [__proto__] is never
    there, the assignment to that name defining no property.  The form
    counts as valid after the first field that validates was entered,
    whatever the other fields hold: [isValid] speaks of the errors
    recorded so far, not of the required fields nobody has filled in.
    So after a valid username alone the form is valid while the password
    is still the empty string, which [validateField] refuses as
    required. *)
Theorem form_is_valid_before_all_fields_are_filled (fields : list string)
  (field : string) (value : JSValue) :
  validateField field (JStr (sanitizeInput value field)) = Return [] ->
  isValid (createFormState fields) = false
  /\ (forall other, In other fields -> other <> "__proto__"%string ->
        values (createFormState fields) !! other = Some EmptyString
        /\ errors (createFormState fields) !! other = Some []
        /\ touched (createFormState fields) !! other = Some false)
  /\ (values (createFormState fields) !! "__proto__" = None
      /\ errors (createFormState fields) !! "__proto__" = None
      /\ touched (createFormState fields) !! "__proto__" = None)
  /\ exists state,
       updateFormField (createFormState fields) field value = Return state
       /\ isValid state = true
       /\ (forall other, In other fields -> other <> field ->
             other <> "__proto__"%string ->
             values state !! other = Some EmptyString)
  /\ validateField "password" (JStr EmptyString) = Return ["Password is required"%string].
Proof.
intros Hv.
destruct (createFormState_fields fields (mkForm ∅ ∅ ∅ false)) as (A & Hin & Hout).
fold (createFormState fields) in A, Hin, Hout. cbn [isValid] in A.
split; [exact A|]. split; [exact Hin|]. split.
{ destruct (Hout "__proto__"%string (or_intror eq_refl)) as (B & C & D).
  rewrite B, C, D. cbn [values errors touched]. now rewrite !lookup_empty. }
eexists. unfold updateFormField. rewrite Hv. split; [reflexivity|].
cbn [values errors touched isValid]. split; [|split; [|reflexivity]].
- rewrite negb_true_iff. apply hasFormErrors_spec.
  intros any es. destruct (string_dec any field) as [-> | Hne].
  + rewrite lookup_insert_eq. congruence.
  + rewrite lookup_insert_ne by congruence.
    destruct (in_dec string_dec any fields) as [Hi | Hn].
    * destruct (string_dec any "__proto__") as [-> | Hp].
      -- destruct (Hout "__proto__"%string (or_intror eq_refl)) as (_ & -> & _).
         cbn. rewrite lookup_empty. discriminate.
      -- destruct (Hin any Hi Hp) as (_ & -> & _). congruence.
    * destruct (Hout any (or_introl Hn)) as (_ & -> & _).
      cbn. rewrite lookup_empty. discriminate.
- intros other Hi Hne Hp. rewrite lookup_insert_ne by congruence. now apply Hin.
Qed.

Lemma form_is_valid_before_all_fields_are_filled_witness :
  exists state,
    updateFormField (createFormState ["username"; "password"]%string) "username"
                    (JStr "alice")
    = Return state
    /\ isValid state = true
    /\ (forall other, In other ["username"; "password"]%string -> other <> "username"%string ->
          other <> "__proto__"%string ->
          values state !! other = Some EmptyString)
    /\ validateField "password" (JStr EmptyString) = Return ["Password is required"%string].
Proof.
apply (form_is_valid_before_all_fields_are_filled ["username"; "password"]%string
         "username" (JStr "alice")).
vm_compute. reflexivity.
Defined.

End FormLaws.
(** ** Error handling and the authentication service *)

Section ServiceLaws.
Import TokenManager HttpClient InFlight Session Examples.
Import ErrorHandlingService.

Lemma isNetworkError_message (e : JsError) :
  isNetworkError e = false -> isNetworkError (Error (message e)) = false.
Proof.
unfold isNetworkError. cbn [name message Error].
replace (String.eqb "Error" "TypeError") with false by reflexivity. cbn [andb orb].
intros H. repeat (apply orb_false_iff in H as [H ?]). repeat (apply orb_false_iff; split); auto.
Qed.

Lemma isTimeoutError_message (e : JsError) :
  isTimeoutError e = false -> isTimeoutError (Error (message e)) = false.
Proof.
unfold isTimeoutError. cbn [name message Error].
replace (String.eqb "Error" "AbortError") with false by reflexivity. cbn [orb].
intros H. repeat (apply orb_false_iff in H as [H ?]). repeat (apply orb_false_iff; split); auto.
Qed.

(** X23. [getAuthErrorMessage] is stable: applied to an error that
    carries one of its own answers it gives that answer again.  The
    service's [login] relies on it, which maps the error of a refused
    login once when it builds the error and once more in its [catch]
    block. *)
Theorem getAuthErrorMessage_is_stable (e : JsError) :
  getAuthErrorMessage (Error (getAuthErrorMessage e)) = getAuthErrorMessage e.
Proof.
unfold getAuthErrorMessage at 2 3.
destruct (isNetworkError e) eqn:N; [reflexivity|].
destruct (isTimeoutError e) eqn:T; [reflexivity|].
destruct (includes (message e) "401" || includes (message e) "Invalid username") eqn:C1;
  [reflexivity|].
destruct (includes (message e) "403" || includes (message e) "Access denied") eqn:C2;
  [reflexivity|].
destruct (includes (message e) "429" || includes (message e) "Too many") eqn:C3;
  [reflexivity|].
destruct (includes (message e) "token" && includes (message e) "expired") eqn:C4;
  [reflexivity|].
destruct (includes (message e) "500" || includes (message e) "server error") eqn:C5;
  [reflexivity|].
destruct (is_empty (message e)) eqn:E; [reflexivity|].
unfold getAuthErrorMessage.
rewrite (isNetworkError_message e N), (isTimeoutError_message e T).
cbn [message Error]. now rewrite C1, C2, C3, C4, C5, E.
Qed.

(** *** The service's login *)

Lemma validateCredentials_passes (credentials : JSValue) :
  AuthService.validateCredentials credentials = None
  <-> exists fields u p,
        credentials = JObj fields
        /\ lookup_field fields "username" = Some (JStr u)
        /\ lookup_field fields "password" = Some (JStr p)
        /\ trim u <> EmptyString /\ p <> EmptyString
        /\ (len u <= 100)%nat /\ (len p <= 200)%nat.
Proof.
unfold AuthService.validateCredentials. split.
- destruct credentials as [| |b|q|s|fields|items]; cbn [truthy typeof_object negb orb];
    try discriminate; try (destruct b; discriminate);
    try (destruct (negb (negb _)); discriminate);
    try (rewrite orb_true_r; discriminate).
  cbn [Js.get]. destruct (lookup_field fields "username") as [username|] eqn:Hu;
      cbv [from_option id default]; [|discriminate].
    destruct username as [| |bu|qu|u|fu|iu]; cbn [truthy typeof_string negb];
      rewrite ?orb_true_r; try discriminate.
    destruct (is_empty u) eqn:Eu; cbn [negb orb]; [discriminate|].
    destruct (lookup_field fields "password") as [password|] eqn:Hp;
      [|discriminate].
    destruct password as [| |bp|qp|p|fp|ip]; cbn [truthy typeof_string negb];
      rewrite ?orb_true_r; try discriminate.
    destruct (is_empty p) eqn:Ep; cbn [negb orb]; [discriminate|].
    destruct (len (trim u) =? 0)%nat eqn:E1; [discriminate|].
    destruct (len p =? 0)%nat eqn:E2; [discriminate|].
    destruct (100 <? len u)%nat eqn:E3; [discriminate|].
    destruct (200 <? len p)%nat eqn:E4; [discriminate|].
    intros _. exists fields, u, p. repeat split; auto.
    * intros H. rewrite H in E1. discriminate.
    * intros H. rewrite H in E2. discriminate.
    * now apply Nat.ltb_ge in E3.
    * now apply Nat.ltb_ge in E4.
- intros (fields & u & p & -> & Hu & Hp & Htu & Hpne & Hlu & Hlp).
  cbn [truthy typeof_object negb orb Js.get]. rewrite Hu, Hp.
  cbv [from_option id default]. cbn [truthy typeof_string negb orb].
  assert (Hune : is_empty u = false).
  { destruct u; [now contradiction Htu | reflexivity]. }
  apply is_empty_false in Hpne. rewrite Hune, Hpne. cbn [negb orb].
  assert (E1 : (len (trim u) =? 0)%nat = false).
  { apply Nat.eqb_neq. destruct (trim u); [contradiction | cbn; lia]. }
  assert (E2 : (len p =? 0)%nat = false).
  { apply Nat.eqb_neq. apply is_empty_false in Hpne. destruct p; [contradiction | cbn; lia]. }
  assert (E3 : (100 <? len u)%nat = false) by (apply Nat.ltb_ge; lia).
  assert (E4 : (200 <? len p)%nat = false) by (apply Nat.ltb_ge; lia).
  now rewrite E1, E2, E3, E4.
Qed.

Lemma validateCredentials_message (credentials : JSValue) (e : JsError) :
  AuthService.validateCredentials credentials = Some e ->
  startsWith (message e) "Invalid credentials: " = true.
Proof.
unfold AuthService.validateCredentials.
repeat match goal with
       | |- context [if ?b then _ else _] => destruct b
       | |- context [match ?x with _ => _ end] => destruct x
       end; intros [= <-]; reflexivity.
Qed.

Lemma service_login_failed_world {A : Type} (w : World) (e : JsError) :
  @AuthService.login_failed A w e
  = (Throw (Error (getAuthErrorMessage e)),
     with_storage w (Storage.removeItem (storage w) storageKey)).
Proof. reflexivity. Qed.

(** The world after the calls of the service's [login] that get as far
    as [fetch]. *)
Lemma service_login_fetched (w : World) (credentials : JSValue) (net : FetchOutcome) :
  AuthService.validateCredentials credentials = None ->
  fetched (snd (AuthService.login w credentials net))
  = mkCall API_CONFIG.LOGIN "POST" None json_headers (Some credentials) :: fetched w
  /\ (forall e, fst (AuthService.login w credentials net) = Throw e ->
        Storage.getItem (storage (snd (AuthService.login w credentials net))) storageKey
        = None).
Proof.
intros Hv. unfold AuthService.login. rewrite Hv.
pose proof (post_login_fetched w credentials net) as Hf.
destruct (HttpClient.post w API_CONFIG.LOGIN credentials true net) as [[response|e] w1];
  cbn [snd] in Hf.
2: { rewrite service_login_failed_world. cbn. split; [exact Hf|].
     intros _ _. apply lookup_delete_eq. }
assert (Hfail : forall e0,
  fetched (snd (@AuthService.login_failed JSValue w1 e0))
  = mkCall API_CONFIG.LOGIN "POST" None json_headers (Some credentials) :: fetched w
  /\ (forall e, fst (@AuthService.login_failed JSValue w1 e0) = Throw e ->
        Storage.getItem (storage (snd (@AuthService.login_failed JSValue w1 e0)))
          storageKey = None)).
{ intros e0. rewrite service_login_failed_world. cbn. split; [exact Hf|].
  intros _ _. apply lookup_delete_eq. }
destruct (negb (ok response)).
{ destruct (AuthService.message_or_default _); apply Hfail. }
destruct (JSON.parse (text response)) as [data|]; [|apply Hfail].
destruct (Js.get data "token") as [tok|]; [|apply Hfail].
destruct (negb (truthy tok)); [apply Hfail|].
destruct (storeToken tok (clock w1) (storage w1)) as [stored_ok ls] eqn:Hstore.
destruct stored_ok; cbn [negb].
- cbn. split; [exact Hf | discriminate].
- rewrite service_login_failed_world. cbn. split; [exact Hf|].
  intros _ _. apply lookup_delete_eq.
Qed.

(** X24. The service's [login] validates before it sends.  The
    credentials pass exactly when they are an object whose username is a
    string that is not blank and has at most 100 characters and whose
    password is a string that is not empty and has at most 200.
    Credentials that do not pass end in an error that starts with
    "Invalid credentials: ", with the world as it was and so without any
    call of [fetch]; credentials that pass are posted once to
    [/api/login], and when that login fails the token key is absent
    from the storage. *)
Theorem service_login_validates_before_sending (w : World) (credentials : JSValue)
  (net : FetchOutcome) :
  (AuthService.validateCredentials credentials = None
   <-> exists fields u p,
         credentials = JObj fields
         /\ lookup_field fields "username" = Some (JStr u)
         /\ lookup_field fields "password" = Some (JStr p)
         /\ trim u <> EmptyString /\ p <> EmptyString
         /\ (len u <= 100)%nat /\ (len p <= 200)%nat)
  /\ match AuthService.validateCredentials credentials with
     | Some e =>
         AuthService.login w credentials net = (Throw e, w)
         /\ startsWith (message e) "Invalid credentials: " = true
     | None =>
         fetched (snd (AuthService.login w credentials net))
         = mkCall "/api/login" "POST" None
                  {[ "Content-Type"%string := "application/json"%string ]}
                  (Some credentials)
           :: fetched w
         /\ (forall e, fst (AuthService.login w credentials net) = Throw e ->
               Storage.getItem (storage (snd (AuthService.login w credentials net)))
                 storageKey = None)
     end.
Proof.
split; [apply validateCredentials_passes|].
destruct (AuthService.validateCredentials credentials) as [e|] eqn:Hv.
- split; [now apply AuthService_login_validates_first|].
  exact (validateCredentials_message _ _ Hv).
- now apply service_login_fetched.
Qed.

End ServiceLaws.
(** ** The thunks and the store *)

Section ThunkLaws.
Import TokenManager HttpClient InFlight Session Examples.

Lemma dispatch_plain (w : World) (action : AuthSlice.Action) :
  Store.checked_for_age action = false ->
  Store.dispatch w action = with_listener (Store.reduce w action).
Proof.
intros H. unfold Store.dispatch, Store.authMiddleware, Store.tokenValidationMiddleware.
now rewrite H.
Qed.

Lemma reduce_log (w : World) (action : AuthSlice.Action) :
  fetched (Store.reduce w action) = fetched w
  /\ events (Store.reduce w action) = events w
  /\ clock (Store.reduce w action) = clock w.
Proof.
unfold Store.reduce.
now destruct (AuthSlice.reducer (auth w) (storage w) action).
Qed.

Lemma dispatch_log (w : World) (action : AuthSlice.Action) :
  fetched (Store.dispatch w action) = fetched w
  /\ events (Store.dispatch w action) = events w
  /\ clock (Store.dispatch w action) = clock w.
Proof.
unfold Store.dispatch, Store.authMiddleware, Store.tokenValidationMiddleware.
destruct (reduce_log w action) as (A & B & C).
destruct (Store.checked_for_age action); [|cbn; auto].
destruct (isTokenExpired _ _ _) as [[] ls]; cbn; auto.
Qed.

(** The age check after an action of one of the two checked types, for a
    storage that holds the record of [t] written at [t0]. *)
Lemma dispatch_checked (w : World) (action : AuthSlice.Action) (t : string) (t0 : Z) :
  Store.checked_for_age action = true ->
  action <> AuthSlice.clearAuthToken ->
  t <> EmptyString ->
  Storage.getItem (storage w) storageKey = Some (stringify_tokenData t t0) ->
  Store.dispatch w action
  = if negb (t0 =? 0) && negb (clock w - t0 <=? 86400000)
    then Store.dispatch_clearAuthToken (Store.reduce w action)
    else with_listener (Store.reduce w action).
Proof.
intros Hc Hna Hne Hget.
unfold Store.dispatch, Store.authMiddleware, Store.tokenValidationMiddleware.
rewrite Hc.
assert (Hst : storage (Store.reduce w action) = storage w).
{ destruct action; try reflexivity. contradiction. }
destruct (reduce_log w action) as (_ & _ & Hcl).
unfold isTokenExpired. rewrite Hst, Hcl.
rewrite (getTokenAge_of_record t t0 (clock w) (storage w) Hne Hget).
destruct (t0 =? 0); cbn [negb andb].
- rewrite <- Hst. now destruct (Store.reduce w action).
- change Store.maxAge with (inject_Z 86400000). rewrite gt_age.
  destruct (clock w - t0 <=? 86400000); cbn [negb].
  + rewrite <- Hst. now destruct (Store.reduce w action).
  + rewrite <- Hst.
    replace (with_storage (Store.reduce w action) (storage (Store.reduce w action)))
      with (Store.reduce w action) by now destruct (Store.reduce w action).
    reflexivity.
Qed.

(** X25. [loginUser] ends in one of two states, and is never left
    loading.  Signed in: authenticated, no error, and the token of the
    state is the non-empty string that is now stored.  Or refused: not
    authenticated, the token and the user of the state [null], no token
    left in the store, and an error message that is not empty.  A token
    just stored is never taken for expired by the age check that follows
    the login. *)
Theorem loginUser_signs_in_or_reports (w : World) (credentials : JSValue)
  (net : FetchOutcome) :
  let a := auth (Thunks.loginUser w credentials net) in
  isLoading a = false
  /\ ((isAuthenticated a = true /\ error a = JNull
       /\ exists t, t <> EmptyString /\ token a = JStr t
                    /\ stored (Thunks.loginUser w credentials net) = JStr t)
      \/ (isAuthenticated a = false /\ token a = JNull /\ user a = JNull
          /\ stored (Thunks.loginUser w credentials net) = JNull
          /\ exists text, text <> EmptyString /\ error a = JStr text)).
Proof.
cbn zeta. unfold Thunks.loginUser.
set (w1 := Store.dispatch w AuthSlice.loginUser_pending).
destruct (login_world w1 credentials net) as (w2 & _ & H).
pose proof (login_outcome w1 credentials net) as Hout.
destruct (HttpRequestAgent.login w1 credentials net) as [[data|e] w'] eqn:Hlogin;
  cbn [fst snd] in *.
- destruct H as (t & ls & Htok & Hne & Hset & ->).
  assert (Hget : Storage.getItem (storage (with_storage w2 ls)) storageKey
                 = Some (stringify_tokenData t (clock w2))).
  { cbn. eapply getItem_setItem; eauto. }
  rewrite (dispatch_checked _ (AuthSlice.loginUser_fulfilled data) t (clock w2) eq_refl
           ltac:(discriminate) Hne Hget).
  cbn [with_storage clock].
  assert (Hfresh : negb (clock w2 =? 0) && negb (clock w2 - clock w2 <=? 86400000) = false).
  { rewrite Z.sub_diag. cbn. apply andb_false_r. }
  rewrite Hfresh. cbn [with_listener auth Store.reduce AuthSlice.reducer].
  unfold Store.reduce. cbn [AuthSlice.reducer with_storage with_auth auth storage
                            isLoading isAuthenticated error token].
  split; [reflexivity|]. left. split; [reflexivity|]. split; [reflexivity|].
  exists t. split; [exact Hne|]. rewrite Htok. cbv [from_option id default].
  split; [reflexivity|].
  unfold stored. cbn [storage with_listener with_auth with_storage].
  now rewrite (getStoredToken_stored _ _ _ _ Hne Hset).
- rewrite dispatch_plain by reflexivity.
  unfold Store.reduce. cbn [AuthSlice.reducer with_listener with_storage with_auth auth
                            storage isLoading isAuthenticated error token user].
  split; [reflexivity|]. right. repeat split.
  + unfold stored in *. cbn [storage]. exact Hout.
  + unfold Thunks.message_or, AuthSlice.or_else.
    destruct (is_empty (message e)) eqn:E; cbn [truthy is_empty negb].
    * eexists. split; [|reflexivity]. discriminate.
    * rewrite E. cbn [negb]. exists (message e). split; [|reflexivity].
      now apply is_empty_false.
Qed.

Lemma logout_stored (w : World) (net : FetchOutcome) :
  Storage.getItem (storage (HttpRequestAgent.logout w net)) storageKey = None.
Proof.
unfold HttpRequestAgent.logout.
destruct (getStoredToken (storage w)) as [token ls]. apply getItem_removeItem.
Qed.

(** X26. [logoutUser] always signs out, whatever the server answers and
    even when it cannot be reached: afterwards the token key is absent
    from the storage, the state is not authenticated, its token and
    user are [null], there is no error and nothing is loading.
    [handleLogout] of authUtils ends the same way and navigates to
    [/login]. *)
Theorem logoutUser_always_signs_out {N : Type} (navigate : string -> N -> N)
  (w : World) (place : N) (net : FetchOutcome) :
  let w' := Thunks.logoutUser w net in
  closed w'
  /\ token (auth w') = JNull /\ user (auth w') = JNull
  /\ error (auth w') = JNull /\ isLoading (auth w') = false
  /\ AuthUtils.handleLogout navigate w place net = (w', navigate "/login"%string place).
Proof.
cbn zeta. unfold Thunks.logoutUser.
rewrite (dispatch_plain _ AuthSlice.logoutUser_fulfilled eq_refl).
unfold closed, Store.reduce.
cbn [AuthSlice.reducer with_listener with_storage with_auth auth storage
     isLoading isAuthenticated error token user].
repeat split. apply logout_stored.
Qed.

(** *** Startup *)

Lemma ok_not_rejected (response : Response) :
  ok response = true -> (status response =? 401) || (status response =? 403) = false.
Proof.
unfold ok. intros H. apply andb_true_iff in H as [_ H]. apply Z.leb_le in H.
apply orb_false_iff. split; apply Z.eqb_neq; lia.
Qed.

Lemma isLoginRequest_VALIDATE : isLoginRequest API_CONFIG.VALIDATE_TOKEN = false.
Proof. reflexivity. Qed.

(** [validateToken] when the storage holds a record and the server
    answers with a 2xx status and a body that parses. *)
Lemma validateToken_valid (w : World) (t : string) (t0 at_time : Z)
  (response : Response) (data usr : JSValue) :
  Storage.getItem (storage w) storageKey = Some (stringify_tokenData t t0) ->
  t <> EmptyString ->
  ok response = true ->
  fst (HttpRequestAgent._parseResponseBody w response) = Return data ->
  Js.get data "user" = Some usr ->
  exists w3,
    HttpRequestAgent.validateToken w (Responded at_time response) = ((true, usr), w3)
    /\ storage w3 = storage w /\ auth w3 = auth w /\ clock w3 = at_time.
Proof.
intros Hget Hne Hok Hparse Husr. unfold HttpRequestAgent.validateToken.
rewrite (getStoredToken_of_record t t0 _ Hne Hget). cbn [truthy negb].
apply is_empty_false in Hne as He. rewrite He. cbn [negb].
unfold HttpClient.get, request. rewrite prepare_cases. cbn zeta.
cbn [skipAuth negb andb]. rewrite isLoginRequest_VALIDATE. cbn [negb andb].
assert (Hst : stored (with_storage w (storage w)) = JStr t).
{ unfold stored. cbn [with_storage storage].
  apply is_empty_false in He. now rewrite (getStoredToken_of_record t t0 _ He Hget). }
rewrite Hst. cbn [truthy]. rewrite He. cbn [negb].
unfold settle. cbn [arrival]. rewrite (receive_other _ _ _ (ok_not_rejected _ Hok)).
rewrite Hok. cbn [negb].
match goal with
| |- context [HttpRequestAgent._parseResponseBody ?w2 response] =>
    pose proof (parseResponseBody_value w w2 response data Hparse) as Hv;
    pose proof (parseResponseBody_world w2 response) as (A & B & _ & C);
    destruct (HttpRequestAgent._parseResponseBody w2 response) as [parsed w3]
end.
cbn [fst snd] in *. subst parsed. rewrite Husr.
exists w3. split; [reflexivity|].
rewrite A, B, C. cbn [with_clock with_fetch with_storage storage auth clock].
apply is_empty_false in He.
now rewrite (getStoredToken_of_record t t0 _ He Hget).
Qed.

(** X27. Startup restores a session by its age.  When the storage holds
    the record of a token written at [t0] (not 0) and the server
    validates it with a 2xx answer whose body parses, [initializeAuth]
    ends initialized, and: if the answer arrives at most 24 hours after
    [t0], authenticated with the stored token and the user of the
    answer; if later, the age check clears the session it just
    restored: not authenticated, the token of the state [null] and the
    token key removed. *)
Theorem startup_restores_a_session_by_age (w : World) (t : string) (t0 at_time : Z)
  (response : Response) (data usr : JSValue) :
  Storage.getItem (storage w) storageKey = Some (stringify_tokenData t t0) ->
  t <> EmptyString ->
  t0 <> 0 ->
  ok response = true ->
  fst (HttpRequestAgent._parseResponseBody w response) = Return data ->
  Js.get data "user" = Some usr ->
  let w' := Thunks.initializeAuth w (Responded at_time response) in
  isInitializing (auth w') = false
  /\ if at_time - t0 <=? 86400000
     then isAuthenticated (auth w') = true /\ token (auth w') = JStr t
          /\ user (auth w') = usr /\ stored w' = JStr t
     else isAuthenticated (auth w') = false /\ token (auth w') = JNull
          /\ Storage.getItem (storage w') storageKey = None.
Proof.
intros Hget Hne Hnz Hok Hparse Husr. cbn zeta. unfold Thunks.initializeAuth.
set (w0 := Store.dispatch w AuthSlice.initializeAuth_pending).
assert (Hw0 : storage w0 = storage w) by reflexivity.
assert (Hp0 : fst (HttpRequestAgent._parseResponseBody w0 response) = Return data).
{ exact (parseResponseBody_value w w0 response data Hparse). }
destruct (validateToken_valid w0 t t0 at_time response data usr)
  as (w3 & Hval & Hs3 & Ha3 & Hc3); auto.
rewrite Hval.
assert (Hget3 : Storage.getItem (storage w3) storageKey
                = Some (stringify_tokenData t t0)) by now rewrite Hs3.
rewrite (getStoredToken_of_record t t0 _ Hne Hget3).
replace (with_storage w3 (storage w3)) with w3 by now destruct w3.
rewrite (dispatch_checked w3 (AuthSlice.initializeAuth_fulfilled (JStr t) usr) t t0 eq_refl
           ltac:(discriminate) Hne Hget3).
rewrite Hc3. apply Z.eqb_neq in Hnz. rewrite Hnz. cbn [negb andb].
destruct (at_time - t0 <=? 86400000); cbn [negb].
- unfold Store.reduce.
  cbn [AuthSlice.reducer with_listener with_storage with_auth auth storage
       isInitializing isAuthenticated token user truthy].
  apply is_empty_false in Hne as He. rewrite He. cbn [negb].
  repeat split. unfold stored. cbn [storage with_listener with_auth with_storage].
  now rewrite (getStoredToken_of_record t t0 _ Hne Hget3).
- rewrite dispatch_clearAuthToken_world. cbn. repeat split. apply lookup_delete_eq.
Qed.

Lemma startup_restores_a_session_by_age_witness :
  isAuthenticated
    (auth (Thunks.initializeAuth stale_world (Responded 86401001 (ok_response "{}"))))
  = false
  /\ Storage.getItem
       (storage (Thunks.initializeAuth stale_world
                   (Responded 86401001 (ok_response "{}"))))
       storageKey = None.
Proof.
destruct (startup_restores_a_session_by_age stale_world "abc" 1000 86401001
            (ok_response "{}") (JObj []) JUndefined)
  as (_ & Ha & _ & Hs); try reflexivity; try discriminate.
split; [exact Ha | exact Hs].
Defined.

(** *** The token of the state and the token of the store *)

Lemma dispatch_token (w : World) (action : AuthSlice.Action) :
  token (auth (Store.reduce w action)) = stored (Store.reduce w action) ->
  token (auth (Store.dispatch w action)) = stored (Store.dispatch w action).
Proof.
intros H. unfold Store.dispatch, Store.authMiddleware, Store.tokenValidationMiddleware.
set (w1 := Store.reduce w action) in *.
destruct (Store.checked_for_age action); [|exact H].
pose proof (isTokenExpired_storage Store.maxAge (clock w1) (storage w1)) as Hs.
destruct (isTokenExpired Store.maxAge (clock w1) (storage w1)) as [expired ls].
cbn [snd] in Hs. subst ls. destruct expired.
- rewrite dispatch_clearAuthToken_world. cbn [auth token].
  symmetry. apply stored_absent. cbn. apply getItem_removeItem.
- cbn [with_listener auth with_storage].
  change (stored (with_listener (with_storage w1 (snd (getStoredToken (storage w1))))))
    with (stored (with_storage w1 (snd (getStoredToken (storage w1))))).
  now rewrite stored_reread.
Qed.

(** Whether the token and the flag of the state are what they were, or
    the token is gone and the flag is down. *)
Lemma receive_token (w : World) (url : string) (response : Response) :
  (token (auth (snd (receive w url response))) = token (auth w)
   /\ isAuthenticated (auth (snd (receive w url response))) = isAuthenticated (auth w))
  \/ (token (auth (snd (receive w url response))) = JNull
      /\ isAuthenticated (auth (snd (receive w url response))) = false).
Proof.
destruct ((status response =? 401) || (status response =? 403)) eqn:E.
- rewrite (receive_rejected _ _ _ E). destruct (authErrorListenerSet w); cbn; auto.
- rewrite (receive_other _ _ _ E). auto.
Qed.

Lemma request_token (w : World) (url : string) (options : RequestOptions)
  (net : FetchOutcome) :
  (token (auth (snd (request w url options net))) = token (auth w)
   /\ isAuthenticated (auth (snd (request w url options net)))
      = isAuthenticated (auth w))
  \/ (token (auth (snd (request w url options net))) = JNull
      /\ isAuthenticated (auth (snd (request w url options net))) = false).
Proof.
unfold request. pose proof (prepare_auth w url options) as [Ha _].
destruct (prepare w url options) as [[call|e] w1]; cbn [snd] in *; [|left; now rewrite Ha].
unfold settle. destruct net as [t response | t e]; cbn [arrival snd];
  [|left; now rewrite <- Ha].
destruct (receive_token (with_clock (with_fetch w1 call) t) url response) as [[A B]|[A B]].
- left. rewrite A, B. cbn. now rewrite Ha.
- right. auto.
Qed.

Lemma agent_token (w : World) (url : string) (options : RequestOptions)
  (net : FetchOutcome) (fallback : string) :
  let outcome :=
    match request w url options net with
    | (Return response, w1) =>
        match HttpRequestAgent._parseResponse w1 response with
        | (Return v, w2) => (Return v, w2)
        | (Throw e, w2) => (Throw (HttpRequestAgent.rewrap fallback e), w2)
        end
    | (Throw e, w1) => (Throw (HttpRequestAgent.rewrap fallback e), w1)
    end in
  (token (auth (snd outcome)) = token (auth w)
   /\ isAuthenticated (auth (snd outcome)) = isAuthenticated (auth w))
  \/ (token (auth (snd outcome)) = JNull /\ isAuthenticated (auth (snd outcome)) = false).
Proof.
cbn zeta. rewrite (agent_result_world (HttpRequestAgent.rewrap fallback)
                     (request w url options net)
                     (fun response w1 => HttpRequestAgent._parseResponse w1 response)).
pose proof (request_token w url options net) as H.
destruct (request w url options net) as [[response|e] w1]; cbn [snd] in *; [|exact H].
assert (Ha : auth (snd (HttpRequestAgent._parseResponse w1 response)) = auth w1).
{ unfold HttpRequestAgent._parseResponse. destruct (negb (ok response)); [reflexivity|].
  apply parseResponseBody_world. }
now rewrite Ha.
Qed.

Lemma perform_token (w : World) (op : Operation) :
  sets_session op = false ->
  (token (auth (perform w op)) = token (auth w)
   /\ isAuthenticated (auth (perform w op)) = isAuthenticated (auth w))
  \/ (token (auth (perform w op)) = JNull /\ isAuthenticated (auth (perform w op)) = false).
Proof.
destruct op; cbn [sets_session perform]; try discriminate; intros _.
- unfold Thunks.loadMode, HttpRequestAgent.get, HttpClient.get. rewrite dispatch_Other.
  pose proof (agent_token (with_listener w) API_CONFIG.MODE
                (mkOptions false "GET" ∅ None) net "GET request failed") as H.
  cbn zeta in H.
  destruct (request (with_listener w) API_CONFIG.MODE _ net) as [[response|e] w1].
  + destruct (HttpRequestAgent._parseResponse w1 response) as [[v|e] w2]; cbn [snd] in H;
      [destruct (Js.get v "mode")|]; rewrite dispatch_Other; exact H.
  + rewrite dispatch_Other. exact H.
- unfold Thunks.updateMode, HttpRequestAgent.post, HttpClient.post. rewrite dispatch_Other.
  pose proof (agent_token (with_listener w) API_CONFIG.MODE
                (mkOptions false "POST" {[ "Content-Type" := "application/json" ]}
                           (Some (JObj [("mode", modeValue)])))
                net "POST request failed") as H.
  cbn zeta in H.
  destruct (request (with_listener w) API_CONFIG.MODE _ net) as [[response|e] w1].
  + destruct (HttpRequestAgent._parseResponse w1 response) as [[v|e] w2]; cbn [snd] in H;
      rewrite dispatch_Other; exact H.
  + rewrite dispatch_Other. exact H.
- left. split; reflexivity.
Qed.

Lemma perform_sets_token (w : World) (op : Operation) :
  sets_session op = true -> token (auth (perform w op)) = stored (perform w op).
Proof.
destruct op; cbn [sets_session perform]; try discriminate; intros _.
- unfold Thunks.initializeAuth.
  pose proof (validateToken_outcome (Store.dispatch w AuthSlice.initializeAuth_pending) net)
    as H.
  destruct (HttpRequestAgent.validateToken _ net) as [[valid usr] w2].
  destruct valid.
  + pose proof (stored_reread w2) as Hre. unfold stored at 2 in Hre.
    destruct (getStoredToken (storage w2)) as [tok ls]. cbn [fst snd] in *.
    apply dispatch_token. rewrite reduce_stored by discriminate. now rewrite Hre.
  + apply dispatch_token. rewrite reduce_stored by discriminate.
    symmetry. now apply stored_falsy.
- unfold Thunks.loginUser.
  pose proof (login_outcome (Store.dispatch w AuthSlice.loginUser_pending) credentials net)
    as H.
  destruct (HttpRequestAgent.login _ credentials net) as [[data|e] w2].
  + destruct H as (t & _ & Hs & Hd). apply dispatch_token.
    rewrite reduce_stored by discriminate. rewrite Hs.
    unfold Store.reduce. cbn. now rewrite Hd.
  + apply dispatch_token. rewrite reduce_stored by discriminate. now rewrite H.
- unfold Thunks.logoutUser. apply dispatch_token.
  rewrite reduce_stored by discriminate.
  symmetry. apply stored_absent, logout_stored.
Qed.

Lemma reachable_token (w : World) :
  Reachable w -> isInitializing (auth w) = false -> token (auth w) = stored w.
Proof.
induction 1 as [w [Ha _] | w op Hr IH].
- rewrite Ha. discriminate.
- intros Hi. destruct (sets_session op) eqn:E; [now apply perform_sets_token|].
  assert (Hiw : isInitializing (auth w) = false).
  { destruct (perform_effect w op E) as [(_ & Hk & _) | (_ & _ & Hk)]; congruence. }
  specialize (IH Hiw). pose proof (reachable_consistent w Hr Hiw) as Hc.
  unfold consistent in Hc.
  destruct (perform_effect w op E) as [(Hka & _ & Hks) | (Hds & Hda & _)];
    destruct (perform_token w op E) as [[Ht Hf] | [Ht Hf]].
  + congruence.
  + rewrite Ht, Hks. symmetry. apply stored_falsy. congruence.
  + rewrite Ht, Hds, IH. apply stored_falsy. congruence.
  + congruence.
Qed.

(** X28. The token in the state is the token in the store.  In every
    state the application reaches by whole operations, once the startup
    validation has completed, the [token] of the auth slice is exactly
    what [getStoredToken] reads ([null] on both sides when signed out),
    and the screen follows the store: [AuthGuard] renders the home page
    only when a token is stored and the login page only when none is. *)
Theorem state_token_is_the_stored_token (w : World) :
  Reachable w ->
  isInitializing (auth w) = false ->
  token (auth w) = stored w
  /\ (AuthGuard.render (auth w) = AuthGuard.HomePage <-> truthy (stored w) = true)
  /\ (AuthGuard.render (auth w) = AuthGuard.LoginPage <-> stored w = JNull).
Proof.
intros Hr Hi. pose proof (reachable_consistent w Hr Hi) as Hc. unfold consistent in Hc.
split; [now apply reachable_token|].
unfold AuthGuard.render. rewrite Hi, Hc.
destruct (truthy (stored w)) eqn:E; split; split; try discriminate; auto.
- intros H. rewrite H in E. discriminate.
- intros _. now apply stored_falsy.
Qed.

Lemma state_token_is_the_stored_token_witness :
  token (auth (perform (perform fresh_world (startup login_accepted))
                       (submitLogin empty_password login_accepted)))
  = stored (perform (perform fresh_world (startup login_accepted))
                    (submitLogin empty_password login_accepted)).
Proof.
apply (state_token_is_the_stored_token
         (perform (perform fresh_world (startup login_accepted))
                  (submitLogin empty_password login_accepted))).
- apply reach_perform, reach_perform, reach_initial. split; reflexivity.
- vm_compute. reflexivity.
Defined.

End ThunkLaws.
(** ** The login form and the mode slice *)

Section PageLaws.
Import TokenManager HttpClient InFlight Session Examples.

Lemma loginUser_fetched (w : World) (credentials : JSValue) (net : FetchOutcome) :
  fetched (Thunks.loginUser w credentials net)
  = mkCall API_CONFIG.LOGIN "POST" None json_headers (Some credentials) :: fetched w.
Proof.
unfold Thunks.loginUser.
set (w1 := Store.dispatch w AuthSlice.loginUser_pending).
destruct (login_world w1 credentials net) as (w2 & Hw2 & H).
pose proof (login_world_fetched w1 credentials net w2 Hw2) as Hf.
assert (Hl : fetched (snd (HttpRequestAgent.login w1 credentials net))
             = mkCall API_CONFIG.LOGIN "POST" None json_headers (Some credentials)
               :: fetched w).
{ rewrite <- (proj1 (dispatch_log w AuthSlice.loginUser_pending)). fold w1.
  destruct (fst (HttpRequestAgent.login w1 credentials net)).
  - destruct H as (t & ls & _ & _ & _ & ->). exact Hf.
  - destruct H as (ls & _ & ->). exact Hf. }
destruct (HttpRequestAgent.login w1 credentials net) as [[data|e] w3]; cbn [snd] in Hl;
  now rewrite (proj1 (dispatch_log _ _)).
Qed.

(** X29. The login form sends only filled-in credentials.  The form
    counts as valid exactly when the username is not blank and the
    password is not empty (a password of blanks counts).  Submitting a
    form that is not valid changes nothing and calls nothing; submitting
    a valid one posts the two texts as they were typed, once, to
    [/api/login]. *)
Theorem login_form_sends_only_filled_credentials (w : World)
  (credentials : LoginPage.Credentials) (net : FetchOutcome) :
  (LoginPage.isFormValid credentials = true
   <-> trim (LoginPage.username credentials) <> EmptyString
       /\ LoginPage.password credentials <> EmptyString)
  /\ (LoginPage.isFormValid credentials = false ->
      LoginPage.handleSubmit w credentials net = w)
  /\ (LoginPage.isFormValid credentials = true ->
      fetched (LoginPage.handleSubmit w credentials net)
      = mkCall "/api/login" "POST" None
               {[ "Content-Type"%string := "application/json"%string ]}
               (Some (JObj [("username"%string, JStr (LoginPage.username credentials));
                            ("password"%string, JStr (LoginPage.password credentials))]))
        :: fetched w).
Proof.
unfold LoginPage.isFormValid, LoginPage.handleSubmit.
destruct (is_empty (trim (LoginPage.username credentials))) eqn:Eu;
  destruct (is_empty (LoginPage.password credentials)) eqn:Ep; cbn [negb andb orb].
- split; [|split; [reflexivity | discriminate]].
  split; [discriminate|]. intros [H _]. apply is_empty_true in Eu. contradiction.
- split; [|split; [reflexivity | discriminate]].
  split; [discriminate|]. intros [H _]. apply is_empty_true in Eu. contradiction.
- split; [|split; [reflexivity | discriminate]].
  split; [discriminate|]. intros [_ H]. apply is_empty_true in Ep. contradiction.
- split; [|split; [discriminate|]].
  + split; [|reflexivity]. intros _. split; now apply is_empty_false.
  + intros _. apply loginUser_fetched.
Qed.

Lemma or_else_truthy (payload : JSValue) (fallback : string) :
  fallback <> EmptyString ->
  truthy (AuthSlice.or_else payload (JStr fallback)) = true.
Proof.
intros H. unfold AuthSlice.or_else. destruct (truthy payload) eqn:E; [exact E|].
cbn. apply is_empty_false in H. now rewrite H.
Qed.

(** X30. The thunks of the mode slice end connected or with an error,
    never both and never loading.  After [loadMode]: connected with no
    error, or not connected with an error that is not empty and the
    value left as it was, locally edited or not.  After [updateMode]:
    connected with no error and the value that was saved, or not
    connected with an error and the value as it was. *)
Theorem mode_thunks_end_connected_or_with_error (state : ModeSlice.ModeState)
  (w : World) (modeValue : JSValue) (net : FetchOutcome) :
  let loaded := ModeSlice.loadMode state w net in
  let saved := ModeSlice.updateMode state w modeValue net in
  ModeSlice.loading loaded = false
  /\ ModeSlice.saving loaded = ModeSlice.saving state
  /\ ((ModeSlice.connected loaded = true /\ ModeSlice.error loaded = JNull)
      \/ (ModeSlice.connected loaded = false
          /\ truthy (ModeSlice.error loaded) = true
          /\ ModeSlice.value loaded = ModeSlice.value state))
  /\ ModeSlice.saving saved = false
  /\ ModeSlice.loading saved = ModeSlice.loading state
  /\ ((ModeSlice.connected saved = true /\ ModeSlice.error saved = JNull
       /\ ModeSlice.value saved = modeValue)
      \/ (ModeSlice.connected saved = false
          /\ truthy (ModeSlice.error saved) = true
          /\ ModeSlice.value saved = ModeSlice.value state)).
Proof.
cbn zeta. unfold ModeSlice.loadMode, ModeSlice.updateMode,
  ModeSlice.loadMode_settled, ModeSlice.updateMode_settled.
destruct (HttpRequestAgent.get _ API_CONFIG.MODE net) as [[data|e] w1];
  [destruct (Js.get data "mode")|];
  destruct (HttpRequestAgent.post _ API_CONFIG.MODE _ net) as [[data'|e'] w1'];
  cbn [fst ModeSlice.reducer ModeSlice.loading ModeSlice.saving ModeSlice.connected
       ModeSlice.error ModeSlice.value];
  repeat split; auto;
  try (right; repeat split; apply or_else_truthy; discriminate);
  try (left; repeat split).
Qed.

End PageLaws.
